(** * Dependency crawler: a shallow embedding of [crawler.c] and [syntaxes.c]

    The development follows the C sources function by function.

    - C strings ([char*]) are [option string]: [None] is the null pointer.
    - Linked lists of [Method], [Structure] and [ExtractedDependency]
      records (chained through [next]) are Rocq lists; the null pointer is
      the empty list.  An array handed around with its element count
      ([relationships]/[relationship_count], [root_directories]/
      [directory_count]) is a list whose length is the count.
    - [Dependency] nodes, the persisted graph, live in an explicit heap and
      are linked by addresses, because the graph head is passed around by
      value and by reference.
    - Every call of [logr] and every path-resolving system call ([stat],
      [opendir], [fopen]) is recorded in a trace.  The three calls succeed
      or fail as the file system says, a function of the path alone.
    - Allocation is taken to succeed: the branches [processLayer],
      [processFile] and [graphMethods] take when [malloc] returns null
      (log the failure and return) are not part of the model, and [strdup]
      of a string gives the string.
    - [crawlDir] recurses on fuel; a run is [Done], [OutOfFuel] or
      [Undef] (undefined behaviour).
    - The report ([printMethods], [printDependencies], [exportDeps]) follows
      the graph from its head through the heap, on fuel too, as the graph
      helpers may have closed a cycle.  The functions it calls from other
      translation units are the fields of [Reports]; they work on the
      analyzers' tables and leave the heap of nodes alone.  Counters are
      unbounded integers. *)

From Stdlib Require Import String Ascii List ZArith Lia Bool Arith.
From Stdlib Require Import DecimalString.
Import ListNotations.

Local Open Scope list_scope.
Local Open Scope string_scope.

(** ** C string functions used by the sources *)

Module CString.

(** [tolower] in the "C" locale. *)
Definition tolower (c : ascii) : ascii :=
  let n := nat_of_ascii c in
  if ((65 <=? n)%nat && (n <=? 90)%nat)%bool then ascii_of_nat (n + 32) else c.

Fixpoint strlower (s : string) : string :=
  match s with
  | EmptyString => EmptyString
  | String c r => String (tolower c) (strlower r)
  end.

(** [strrchr s c]: the suffix of [s] that starts at the last [c]. *)
Fixpoint strrchr (s : string) (c : ascii) : option string :=
  match s with
  | EmptyString => None
  | String a r =>
      match strrchr r c with
      | Some t => Some t
      | None => if Ascii.eqb a c then Some s else None
      end
  end.

(** [strcmp]: only the sign of the result is specified by C. *)
Definition strcmp (a b : string) : Z :=
  match String.compare a b with
  | Eq => 0%Z
  | Lt => (-1)%Z
  | Gt => 1%Z
  end.

Definition strcasecmp (a b : string) : Z :=
  strcmp (strlower a) (strlower b).

Fixpoint starts_with (needle hay : string) : bool :=
  match needle, hay with
  | EmptyString, _ => true
  | String a n', String b h' => Ascii.eqb a b && starts_with n' h'
  | String _ _, EmptyString => false
  end.

(** [strstr hay needle <> NULL]. *)
Fixpoint strstr (hay needle : string) : bool :=
  starts_with needle hay ||
  match hay with
  | EmptyString => false
  | String _ h' => strstr h' needle
  end.

(** [p + 1] for a pointer into a string. *)
Definition skip1 (s : string) : string :=
  match s with
  | EmptyString => EmptyString
  | String _ r => r
  end.

(** [snprintf(buf, size, ...)] keeps at most [size - 1] characters. *)
Definition snprintf_trunc (size : nat) (s : string) : string :=
  substring 0 (size - 1) s.

(** A buffer read as a C string ends at its first NUL. *)
Fixpoint c_str (s : string) : string :=
  match s with
  | EmptyString => EmptyString
  | String c r => if Ascii.eqb c zero then EmptyString else String c (c_str r)
  end.

End CString.
Import CString.

(** ** The data model of [syntaxes.h] *)

Inductive LanguageType :=
| LANG_RUST | LANG_C | LANG_JAVASCRIPT | LANG_GO
| LANG_PYTHON | LANG_JAVA | LANG_PHP | LANG_RUBY.

Inductive AnalysisLayer := LAYER_MODULE | LAYER_STRUCT | LAYER_METHOD.

(** The enumerators' integer values, as [%d] prints them. *)
Definition layer_number (l : AnalysisLayer) : Z :=
  match l with
  | LAYER_MODULE => 0
  | LAYER_STRUCT => 1
  | LAYER_METHOD => 2
  end.

(** [Parameter] in the source; the name is reserved in Rocq. *)
Record MethodParameter := {
  param_name : option string;
  param_type : option string;
  default_value : option string
}.

(** [next] is the list structure; [body_start]/[body_end] point into the
    scanned text and are not kept. *)
#[warnings="-register-all"]
Inductive Method := Build_Method {
  m_name : option string;
  m_prefix : option string;
  return_type : option string;
  parameters : list MethodParameter;
  m_dependencies : option string;
  defined_in : option string;
  references : list (option string);
  children : list Method;
  is_static : bool;
  is_public : bool;
  is_definition : bool
}.

Record Structure := {
  s_name : option string;
  s_methods : list Method;
  implemented_traits : list string;
  s_dependencies : option string;
  dependency_count : Z
}.

(** [next] is the list structure; the nested [modules] list is only
    filled by [analyze_file] and is not kept. *)
Record ExtractedDependency := {
  file_path : option string;
  target : option string;
  module_name : option string;
  structures : list Structure;
  structure_count : Z;
  methods : list Method;
  e_method_count : Z;
  language : LanguageType;
  layer : AnalysisLayer
}.

(** Addresses of [Dependency] nodes; [NULL] is 0. *)
Definition ptr := nat.
Definition NULL : ptr := 0.

Record Dependency := {
  source : option string;
  d_target : option string;
  d_language : LanguageType;
  level : AnalysisLayer;
  d_methods : list Method;
  method_count : Z;
  next : ptr
}.

Record AnalysisConfig := {
  analyzeModules : Z;
  analyze_structures : Z;
  analyzeMethods : Z;
  max_depth : Z;
  follow_external : Z
}.

Record Relationship := {
  from : string;
  to : string;
  relationship_type : string;
  r_layer : AnalysisLayer
}.

Record DependencyGraph := {
  relationships : list Relationship;
  current_layer : AnalysisLayer
}.

(** ** Logging and the observable trace *)

Inductive LogLevel := VERBOSE | DEBUG | INFO | WARN | ERROR.

Inductive LogArg :=
| ArgS (s : option string)
| ArgD (n : Z).

Inductive Event :=
| Logr (lvl : LogLevel) (format : string) (args : list LogArg)
| SysStat (path : string)
| SysOpendir (path : string)
| SysFopen (path : string).

(** ** [languageType] ([syntaxes.c]) *)

(** The loop that fills [ext_lower]: at most [n] characters are copied,
    each through [tolower]. *)
Fixpoint lower_copy (n : nat) (ext : string) : string :=
  match n, ext with
  | S n', String c r => String (tolower c) (lower_copy n' r)
  | _, _ => EmptyString
  end.

(** The value returned, paired with the [logr] calls made. *)
Definition languageType (filename : option string) : LanguageType * list Event :=
  match filename with
  | None => (LANG_RUST, [])
  | Some filename =>
      match strrchr filename "." with
      | None =>
          (LANG_RUST,
           [Logr DEBUG "[Syntaxes] Skipping file without extension: %s" [ArgS (Some filename)]])
      | Some ext =>
          let ext := skip1 ext in
          let ext_lower := lower_copy 31 ext in
          if (strcmp ext_lower "rs" =? 0)%Z then (LANG_RUST, [])
          else if (strcmp ext_lower "c" =? 0)%Z || (strcmp ext_lower "h" =? 0)%Z
                  || (strcmp ext_lower "cpp" =? 0)%Z || (strcmp ext_lower "hpp" =? 0)%Z
          then (LANG_C, [])
          else if (strcmp ext_lower "js" =? 0)%Z || (strcmp ext_lower "jsx" =? 0)%Z
                  || (strcmp ext_lower "ts" =? 0)%Z || (strcmp ext_lower "tsx" =? 0)%Z
          then (LANG_JAVASCRIPT, [])
          else if (strcmp ext_lower "go" =? 0)%Z then (LANG_GO, [])
          else if (strcmp ext_lower "py" =? 0)%Z then (LANG_PYTHON, [])
          else if (strcmp ext_lower "java" =? 0)%Z then (LANG_JAVA, [])
          else if (strcmp ext_lower "php" =? 0)%Z then (LANG_PHP, [])
          else if (strcmp ext_lower "rb" =? 0)%Z then (LANG_RUBY, [])
          else
            (LANG_RUST,
             [Logr DEBUG "[Syntaxes] Unsupported file extension: %s" [ArgS (Some ext_lower)]])
      end
  end.

(** ** [create_dependency_graph] ([syntaxes.c]) *)

(** A call either returns or runs into undefined behaviour. *)
Inductive result (A : Type) : Type :=
| Undefined
| Returns (a : A).
Arguments Undefined {A}.
Arguments Returns {A} a.

Definition result_bind {A B : Type} (r : result A) (k : A -> result B) : result B :=
  match r with
  | Undefined => Undefined
  | Returns a => k a
  end.

Notation "x <-r c ;; k" := (result_bind c (fun x => k))
  (at level 61, c at next level, right associativity).

Definition MAX_DEPENDENCIES : nat := 64.

(** [strdup(s)]: undefined on the null pointer. *)
Definition strdup (s : option string) : result string :=
  match s with
  | None => Undefined
  | Some s => Returns s
  end.

(** [graph->relationships[graph->relationship_count++] = rel] into an array
    of [capacity] slots: a write past the end is undefined. *)
Definition store_relationship (capacity : nat) (rel : Relationship)
    (rels : list Relationship) : result (list Relationship) :=
  if (length rels <? capacity)%nat then Returns (rels ++ [rel])%list else Undefined.

Fixpoint graph_structures (capacity : nat) (curr_struct : list Structure)
    (rels : list Relationship) : result (list Relationship) :=
  match curr_struct with
  | [] => Returns rels
  | st :: rest =>
      match s_dependencies st with
      | Some _ =>
          f <-r strdup (s_name st) ;;
          t <-r strdup (s_dependencies st) ;;
          rels' <-r store_relationship capacity
                   {| from := f; to := t;
                      relationship_type := "inherits"; r_layer := LAYER_STRUCT |} rels ;;
          graph_structures capacity rest rels'
      | None => graph_structures capacity rest rels
      end
  end.

Fixpoint graph_methods (capacity : nat) (curr_method : list Method)
    (rels : list Relationship) : result (list Relationship) :=
  match curr_method with
  | [] => Returns rels
  | m :: rest =>
      match m_dependencies m with
      | Some _ =>
          f <-r strdup (m_name m) ;;
          t <-r strdup (m_dependencies m) ;;
          rels' <-r store_relationship capacity
                   {| from := f; to := t;
                      relationship_type := "calls"; r_layer := LAYER_METHOD |} rels ;;
          graph_methods capacity rest rels'
      | None => graph_methods capacity rest rels
      end
  end.

(** The body of the [for] loop over [deps[i]]. *)
Definition graph_dep (capacity : nat) (dep : option ExtractedDependency)
    (rels : list Relationship) : result (list Relationship) :=
  match dep with
  | None => Returns rels
  | Some dep =>
      rels1 <-r match module_name dep with
                | Some _ =>
                    f <-r strdup (file_path dep) ;;
                    t <-r strdup (module_name dep) ;;
                    store_relationship capacity
                      {| from := f; to := t;
                         relationship_type := "imports"; r_layer := LAYER_MODULE |} rels
                | None => Returns rels
                end ;;
      rels2 <-r graph_structures capacity (structures dep) rels1 ;;
      graph_methods capacity (methods dep) rels2
  end.

Fixpoint graph_deps (capacity : nat) (deps : list (option ExtractedDependency))
    (rels : list Relationship) : result (list Relationship) :=
  match deps with
  | [] => Returns rels
  | dep :: rest =>
      rels' <-r graph_dep capacity dep rels ;;
      graph_deps capacity rest rels'
  end.

(** [deps] is the array of [dep_count] pointers, or the null pointer. *)
Definition create_dependency_graph (deps : option (list (option ExtractedDependency)))
  : result (option DependencyGraph) :=
  match deps with
  | None | Some [] => Returns None
  | Some deps =>
      rels <-r graph_deps (length deps * MAX_DEPENDENCIES) deps [] ;;
      Returns (Some {| relationships := rels; current_layer := LAYER_MODULE |})
  end.

(** ** [exportGraph] ([syntaxes.c]) *)

Definition dq : string := String (ascii_of_nat 34) EmptyString.
Definition nl : string := String (ascii_of_nat 10) EmptyString.

(** [%d] of an [int]. *)
Definition fmt_d (n : Z) : string :=
  DecimalString.NilZero.string_of_int (Z.to_int n).

(** One [fprintf] per relationship, appended to what the file holds. *)
Fixpoint dot_relationships (rels : list Relationship) (output : string) : string :=
  match rels with
  | [] => output
  | rel :: rest =>
      dot_relationships rest
        (output ++ "  " ++ dq ++ from rel ++ dq ++ " -> " ++ dq ++ to rel ++ dq
                ++ " [label=" ++ dq ++ relationship_type rel ++ dq ++ "];" ++ nl)
  end.

Fixpoint json_relationships (rels : list Relationship) (output : string) : string :=
  match rels with
  | [] => output
  | rel :: rest =>
      json_relationships rest
        (output ++ "    {" ++ nl
                ++ "      " ++ dq ++ "from" ++ dq ++ ": " ++ dq ++ from rel ++ dq ++ "," ++ nl
                ++ "      " ++ dq ++ "to" ++ dq ++ ": " ++ dq ++ to rel ++ dq ++ "," ++ nl
                ++ "      " ++ dq ++ "type" ++ dq ++ ": " ++ dq ++ relationship_type rel ++ dq ++ "," ++ nl
                ++ "      " ++ dq ++ "layer" ++ dq ++ ": " ++ fmt_d (layer_number (r_layer rel)) ++ nl
                ++ "    }" ++ match rest with [] => "" | _ :: _ => "," end ++ nl)
  end.

(** [fopen_w path] tells whether [fopen(path, "w")] succeeds.  The result is
    the content of the file written, or [None] when no file is opened. *)
Definition exportGraph (fopen_w : string -> bool) (graph : option DependencyGraph)
    (format output_path : option string) : option string :=
  match graph, format, output_path with
  | Some graph, Some format, Some output_path =>
      if fopen_w output_path then
        let output := "" in
        if (strcmp format "dot" =? 0)%Z then
          let output := output ++ "digraph Dependencies {" ++ nl in
          let output := dot_relationships (relationships graph) output in
          Some (output ++ "}" ++ nl)
        else if (strcmp format "json" =? 0)%Z then
          let output := output ++ "{" ++ nl ++ "  " ++ dq ++ "relationships" ++ dq ++ ": [" ++ nl in
          let output := json_relationships (relationships graph) output in
          Some (output ++ "  ]" ++ nl ++ "}" ++ nl)
        else Some output
      else None
  | _, _, _ => None
  end.

(** ** The environment of [crawler.c] *)

(** What [stat] reports for a path: [S_ISREG], [S_ISDIR] or neither. *)
Inductive FileKind := S_IFREG | S_IFDIR | S_IFOTHER.

(** The file system as the crawler sees it.  [None] is the failure of the
    call; [opendir] gives the [d_name] of the entries in the order
    [readdir] returns them; [fopen] gives the bytes [fread] delivers. *)
Record FileSystem := {
  stat : string -> option FileKind;
  opendir : string -> option (list string);
  fopen : string -> option string
}.

(** [parsers]/[parser_count] (filled by [registerParser]) and
    [result_graph] are read by no function modelled here and are left
    out. *)
Record DependencyCrawler := {
  root_directories : option (list (option string));
  analysis_config : AnalysisConfig;
  dependency_graph : ptr
}.

(** A [DependencyCrawler*] argument: null, or the address of the crawler
    object held in the store. *)
Inductive CrawlerPtr := CrawlerNull | CrawlerAt.

(** Functions of this repository that [crawler.c] calls and whose
    definitions are in other translation units.  The analyzers keep tables
    of their own (the ones [get_structure_definitions] and
    [findMethodDefinition] read), the [Registry]; the two graph helpers work
    on the heap of [Dependency] nodes, receiving the graph head by value. *)
Record Externals (Registry Grammar : Type) := {
  initPatternCache : Registry -> bool * Registry;
  languageGrammars : LanguageType -> option Grammar;
  analyzeModule : string -> Grammar -> Registry -> list ExtractedDependency * Registry;
  analyze_structure : string -> string -> Grammar -> Registry -> list Structure * Registry;
  analyzeMethod : string -> string -> Grammar -> Registry -> list Method * Registry;
  create_dependency_from_extracted :
    ExtractedDependency -> list Dependency -> ptr * list Dependency;
  graphDependency : ptr -> ExtractedDependency -> list Dependency -> list Dependency;
  countMethods : list Method -> Z
}.
Arguments initPatternCache {Registry Grammar}.
Arguments languageGrammars {Registry Grammar}.
Arguments analyzeModule {Registry Grammar}.
Arguments analyze_structure {Registry Grammar}.
Arguments analyzeMethod {Registry Grammar}.
Arguments create_dependency_from_extracted {Registry Grammar}.
Arguments graphDependency {Registry Grammar}.
Arguments countMethods {Registry Grammar}.

(** [MethodDefinition] of [syntaxes.h]: the two linked lists are the list
    of the names called and the list of the [called_in] of the
    references. *)
Record MethodDefinition := {
  def_name : option string;
  def_return_type : option string;
  def_defined_in : option string;
  def_dependencies : list (option string);
  def_param_count : Z;
  def_references : list (option string);
  def_reference_count : Z
}.

(** An element of the array [get_structure_definitions] returns, with the
    fields [printDependencies] reads; [referenced_in] is the array of
    [reference_count] names. *)
Record StructureDefinition := {
  sd_type : option string;
  sd_name : option string;
  sd_defined_in : option string;
  referenced_in : list (option string)
}.

(** The functions of this repository that the report calls and whose
    definitions are in other translation units; they read, and may write,
    the analyzers' tables. *)
Record Reports (Registry : Type) := {
  formatMethodSignature : Method -> Registry -> option string * Registry;
  findMethodDefinition : option string -> Registry -> option MethodDefinition * Registry;
  get_structure_definitions : Registry -> list StructureDefinition * Registry
}.
Arguments formatMethodSignature {Registry}.
Arguments findMethodDefinition {Registry}.
Arguments get_structure_definitions {Registry}.

(** *** The heap of [Dependency] nodes *)

(** [memset(dep, 0, sizeof(Dependency))]. *)
Definition zero_Dependency : Dependency :=
  {| source := None; d_target := None; d_language := LANG_RUST;
     level := LAYER_MODULE; d_methods := []; method_count := 0; next := NULL |}.

(** Node [p] (addresses count from 1). *)
Definition heap_get (h : list Dependency) (p : ptr) : option Dependency :=
  match p with
  | 0 => None
  | S i => nth_error h i
  end.

Fixpoint update_nth (i : nat) (f : Dependency -> Dependency) (h : list Dependency)
  : list Dependency :=
  match h, i with
  | [], _ => []
  | d :: r, 0 => f d :: r
  | d :: r, S i' => d :: update_nth i' f r
  end.

Definition heap_update (p : ptr) (f : Dependency -> Dependency) (h : list Dependency)
  : list Dependency :=
  match p with
  | 0 => h
  | S i => update_nth i f h
  end.

(** [malloc(sizeof(Dependency))] followed by the [memset]: a node at an
    address not in use. *)
Definition malloc_Dependency (h : list Dependency) : ptr * list Dependency :=
  (S (length h), (h ++ [zero_Dependency])%list).

Definition allocated (h : list Dependency) (p : ptr) : Prop :=
  (1 <= p <= length h)%nat.

Definition set_source (v : option string) (d : Dependency) : Dependency :=
  {| source := v; d_target := d_target d; d_language := d_language d;
     level := level d; d_methods := d_methods d; method_count := method_count d;
     next := next d |}.
Definition set_level (v : AnalysisLayer) (d : Dependency) : Dependency :=
  {| source := source d; d_target := d_target d; d_language := d_language d;
     level := v; d_methods := d_methods d; method_count := method_count d;
     next := next d |}.
Definition set_methods (v : list Method) (d : Dependency) : Dependency :=
  {| source := source d; d_target := d_target d; d_language := d_language d;
     level := level d; d_methods := v; method_count := method_count d;
     next := next d |}.
Definition set_method_count (v : Z) (d : Dependency) : Dependency :=
  {| source := source d; d_target := d_target d; d_language := d_language d;
     level := level d; d_methods := d_methods d; method_count := v;
     next := next d |}.
Definition set_next (v : ptr) (d : Dependency) : Dependency :=
  {| source := source d; d_target := d_target d; d_language := d_language d;
     level := level d; d_methods := d_methods d; method_count := method_count d;
     next := v |}.

Definition set_s_dependencies (v : option string) (st : Structure) : Structure :=
  {| s_name := s_name st; s_methods := s_methods st;
     implemented_traits := implemented_traits st;
     s_dependencies := v; dependency_count := dependency_count st |}.

Definition set_max_depth (v : Z) (c : AnalysisConfig) : AnalysisConfig :=
  {| analyzeModules := analyzeModules c; analyze_structures := analyze_structures c;
     analyzeMethods := analyzeMethods c; max_depth := v;
     follow_external := follow_external c |}.

(** [s ? s : "NULL"] and [s ? s : ""]. *)
Definition or_NULL (s : option string) : string :=
  match s with Some s => s | None => "NULL" end.
Definition or_empty (s : option string) : string :=
  match s with Some s => s | None => "" end.

(** The extensions [processFile] refuses. *)
Definition skipped_extension (ext : string) : bool :=
  (strcasecmp ext "txt" =? 0)%Z || (strcasecmp ext "md" =? 0)%Z
  || (strcasecmp ext "json" =? 0)%Z || (strcasecmp ext "yml" =? 0)%Z
  || (strcasecmp ext "yaml" =? 0)%Z || (strcasecmp ext "xml" =? 0)%Z
  || (strcasecmp ext "csv" =? 0)%Z || (strcasecmp ext "log" =? 0)%Z
  || (strcasecmp ext "LICENSE" =? 0)%Z || (strcasecmp ext "gitignore" =? 0)%Z
  || (strcasecmp ext "lock" =? 0)%Z.

(** The directory names [crawlDir] does not enter. *)
Definition skipped_directory (dir_name : string) : bool :=
  (strcmp dir_name "node_modules" =? 0)%Z || (strcmp dir_name ".git" =? 0)%Z
  || (strcmp dir_name "build" =? 0)%Z || (strcmp dir_name "dist" =? 0)%Z
  || (strcmp dir_name "target" =? 0)%Z || (strcmp dir_name "vendor" =? 0)%Z.

(** [entry->d_name[0] == '.' || strcmp(entry->d_name, "..") == 0]. *)
Definition hidden_entry (d_name : string) : bool :=
  match d_name with
  | String c _ => Ascii.eqb c "."
  | EmptyString => false
  end || (strcmp d_name ".." =? 0)%Z.

(** The memory the crawler works on: the crawler object, the heap of
    [Dependency] nodes and the analyzers' tables. *)
Record Store (Registry : Type) := {
  crawler : DependencyCrawler;
  heap : list Dependency;
  registry : Registry
}.
Arguments crawler {Registry}.
Arguments heap {Registry}.
Arguments registry {Registry}.
Arguments Build_Store {Registry}.

(** The configuration [create_crawler] uses when it is given none. *)
Definition default_config : AnalysisConfig :=
  {| analyzeModules := 1; analyze_structures := 1; analyzeMethods := 1;
     max_depth := -1; follow_external := 0 |}.

Definition is_null (s : option string) : bool :=
  match s with
  | None => true
  | Some _ => false
  end.

(** The file system [fs] without the entries [crawlDir] passes over: every
    directory lists only the names [hidden_entry] does not catch. *)
Definition without_hidden (fs : FileSystem) : FileSystem :=
  {| stat := stat fs;
     opendir := fun path =>
       option_map (filter (fun d_name => negb (hidden_entry d_name))) (opendir fs path);
     fopen := fopen fs |}.

(** ** Sample inputs

    A small project and one possible behaviour of the functions of
    [Externals], for the concrete runs below. *)

Module Sample.

Definition method_main : Method :=
  Build_Method (Some "main") None (Some "int") [] (Some "helper")
               (Some "proj/main.c") [] [] false true true.

Definition structure_derived : Structure :=
  {| s_name := Some "Derived"; s_methods := []; implemented_traits := [];
     s_dependencies := Some "Base"; dependency_count := 0 |}.

Definition module_base : ExtractedDependency :=
  {| file_path := Some "a.ext"; target := Some "Base"; module_name := None;
     structures := []; structure_count := 0; methods := []; e_method_count := 0;
     language := LANG_RUST; layer := LAYER_MODULE |}.

Definition extracted : ExtractedDependency :=
  {| file_path := Some "proj/main.c"; target := None;
     module_name := Some "stdio.h"; structures := [structure_derived];
     structure_count := 1; methods := [method_main]; e_method_count := 1;
     language := LANG_C; layer := LAYER_MODULE |}.

(** A node that copies the path, the target and the layer of a record. *)
Definition dependency_of (e : ExtractedDependency) : Dependency :=
  {| source := file_path e; d_target := target e; d_language := language e;
     level := layer e; d_methods := []; method_count := 0; next := NULL |}.

(** The graph helpers: a new node for the record, which
    [graphDependency] links in right behind the head it is given. *)
Definition externals : Externals unit unit :=
  {| initPatternCache := fun r => (true, r);
     languageGrammars := fun _ => Some tt;
     analyzeModule := fun _ _ r => ([module_base], r);
     analyze_structure := fun _ _ _ r => ([structure_derived], r);
     analyzeMethod := fun _ _ _ r => ([method_main], r);
     create_dependency_from_extracted :=
       fun e h => (S (length h), (h ++ [dependency_of e])%list);
     graphDependency :=
       fun graph e h =>
         match heap_get h graph with
         | None => h
         | Some head =>
             heap_update graph (set_next (S (length h)))
                         (h ++ [set_next (next head) (dependency_of e)])%list
         end;
     countMethods := fun ms => Z.of_nat (length ms) |}.

(** proj/ holds main.c and data.json; proj/locked.c cannot be opened,
    proj/private cannot be listed, and nothing else exists. *)
Definition fs : FileSystem :=
  {| stat := fun p =>
       if (p =? "proj")%string then Some S_IFDIR
       else if (p =? "proj/main.c")%string then Some S_IFREG
       else if (p =? "proj/data.json")%string then Some S_IFREG
       else if (p =? "proj/locked.c")%string then Some S_IFREG
       else if (p =? "proj/private")%string then Some S_IFDIR
       else None;
     opendir := fun p =>
       if (p =? "proj")%string then Some ["."; ".."; "main.c"; "data.json"]
       else None;
     fopen := fun p =>
       if (p =? "proj/main.c")%string then Some "int main() { return 0; }"
       else if (p =? "proj/data.json")%string then Some "{}"
       else None |}.

(** A project of one shell script. *)
Definition fs_script : FileSystem :=
  {| stat := fun p => if (p =? "tools/run.sh")%string then Some S_IFREG else None;
     opendir := fun _ => None;
     fopen := fun p => if (p =? "tools/run.sh")%string then Some "echo done" else None |}.

(** A configuration that switches the same layers on as [default_config]
    and differs from it in every field. *)
Definition other_config : AnalysisConfig :=
  {| analyzeModules := 2; analyze_structures := -1; analyzeMethods := 7;
     max_depth := 3; follow_external := 1 |}.

(** The levels of [fs] below a path. *)
Definition levels_below (p : string) : nat :=
  if (p =? "proj")%string then 1 else 0.

Definition crawler0 : DependencyCrawler :=
  {| root_directories := Some [Some "proj"]; analysis_config := default_config;
     dependency_graph := NULL |}.

(** A store before any file is merged, and one whose graph is the single
    node [1]. *)
Definition store0 : Store unit :=
  {| crawler := crawler0; heap := []; registry := tt |}.

Definition store1 : Store unit :=
  {| crawler := {| root_directories := Some [Some "proj"];
                   analysis_config := default_config; dependency_graph := 1 |};
     heap := [dependency_of module_base]; registry := tt |}.

(** One behaviour of the functions of [Reports]: a signature is the name
    of the method, no method has a definition on record, and one structure
    is on record, referenced from one file. *)
Definition reports : Reports unit :=
  {| formatMethodSignature := fun m r => (m_name m, r);
     findMethodDefinition := fun _ r => (None, r);
     get_structure_definitions := fun r =>
       ([{| sd_type := Some "struct"; sd_name := Some "Derived";
            sd_defined_in := Some "proj/main.c";
            referenced_in := [Some "proj/main.c"] |}], r) |}.

(** A store whose graph is a module-layer node followed by a method-layer
    node of the same file. *)
Definition store2 : Store unit :=
  {| crawler := {| root_directories := Some [Some "proj"];
                   analysis_config := default_config; dependency_graph := 1 |};
     heap := [{| source := Some "proj/main.c"; d_target := Some "stdio.h";
                 d_language := LANG_C; level := LAYER_MODULE; d_methods := [];
                 method_count := 0; next := 2 |};
              {| source := Some "proj/main.c"; d_target := None;
                 d_language := LANG_RUST; level := LAYER_METHOD;
                 d_methods := [method_main]; method_count := 1; next := NULL |}];
     registry := tt |}.

(** A graph of two method-layer nodes, of two files. *)
Definition store3 : Store unit :=
  {| crawler := {| root_directories := Some [Some "proj"];
                   analysis_config := default_config; dependency_graph := 1 |};
     heap := [{| source := Some "proj/a.c"; d_target := None;
                 d_language := LANG_RUST; level := LAYER_METHOD;
                 d_methods := [method_main]; method_count := 1; next := 2 |};
              {| source := Some "proj/b.c"; d_target := None;
                 d_language := LANG_RUST; level := LAYER_METHOD;
                 d_methods := [method_main]; method_count := 1; next := NULL |}];
     registry := tt |}.

(** A project of one C file with a NUL byte in it. *)
Definition fs_nul : FileSystem :=
  {| stat := fun p => if (p =? "proj/blob.c")%string then Some S_IFREG else None;
     opendir := fun _ => None;
     fopen := fun p =>
       if (p =? "proj/blob.c")%string
       then Some ("int a;" ++ String zero "int b;")
       else None |}.

(** A directory path of 1020 characters. *)
Definition long_directory : string := String.concat "" (repeat "d" 1020).

(** That directory, with a C file and a JSON file in it, both readable
    under their own paths; no other path exists. *)
Definition fs_long : FileSystem :=
  {| stat := fun p =>
       if (p =? long_directory)%string then Some S_IFDIR
       else if (p =? long_directory ++ "/main.c")%string then Some S_IFREG
       else if (p =? long_directory ++ "/data.json")%string then Some S_IFREG
       else None;
     opendir := fun p =>
       if (p =? long_directory)%string then Some ["."; ".."; "main.c"; "data.json"]
       else None;
     fopen := fun p =>
       if (p =? long_directory ++ "/main.c")%string
       then Some "int main() { return 0; }"
       else if (p =? long_directory ++ "/data.json")%string then Some "{}"
       else None |}.

End Sample.

(** ** [crawler.c] *)

Section Crawler.

Context {Registry Grammar : Type}.
Variable X : Externals Registry Grammar.
Variable fs : FileSystem.
Variable W : Reports Registry.

(** A command runs on a store and gives a value, the new store and the
    events it emitted, oldest first. *)
Definition Cmd (A : Type) : Type :=
  Store Registry -> A * Store Registry * list Event.

(** The three parts of the outcome of a command. *)
Definition value {A : Type} (r : A * Store Registry * list Event) : A := fst (fst r).
Definition store_of {A : Type} (r : A * Store Registry * list Event) : Store Registry :=
  snd (fst r).
Definition events {A : Type} (r : A * Store Registry * list Event) : list Event :=
  snd r.

Definition ret {A : Type} (a : A) : Cmd A := fun s => (a, s, []).

Definition bind {A B : Type} (m : Cmd A) (k : A -> Cmd B) : Cmd B :=
  fun s =>
    let '(a, s1, t1) := m s in
    let '(b, s2, t2) := k a s1 in
    (b, s2, (t1 ++ t2)%list).

Local Notation "x <- c ;; k" := (bind c (fun x => k))
  (at level 61, c at next level, right associativity).
Local Notation "c ;; k" := (bind c (fun _ => k))
  (at level 61, right associativity).

Definition logr (lvl : LogLevel) (format : string) (args : list LogArg) : Cmd unit :=
  fun s => (tt, s, [Logr lvl format args]).

Definition lift_log {A : Type} (r : A * list Event) : Cmd A :=
  fun s => (fst r, s, snd r).

Definition sys_stat (path : string) : Cmd (option FileKind) :=
  fun s => (stat fs path, s, [SysStat path]).

Definition sys_opendir (path : string) : Cmd (option (list string)) :=
  fun s => (opendir fs path, s, [SysOpendir path]).

Definition sys_fopen (path : string) : Cmd (option string) :=
  fun s => (fopen fs path, s, [SysFopen path]).

(** [crawler->analysis_config.field]. *)
Definition get_config (field : AnalysisConfig -> Z) : Cmd Z :=
  fun s => (field (analysis_config (crawler s)), s, []).

Definition get_root_directories : Cmd (option (list (option string))) :=
  fun s => (root_directories (crawler s), s, []).

(** [crawler->dependency_graph], read and written. *)
Definition get_dependency_graph : Cmd ptr :=
  fun s => (dependency_graph (crawler s), s, []).

Definition set_dependency_graph (p : ptr) : Cmd unit :=
  fun s =>
    (tt,
     {| crawler := {| root_directories := root_directories (crawler s);
                      analysis_config := analysis_config (crawler s);
                      dependency_graph := p |};
        heap := heap s; registry := registry s |},
     []).

Definition on_heap {A : Type} (f : list Dependency -> A * list Dependency) : Cmd A :=
  fun s =>
    let '(a, h) := f (heap s) in
    (a, {| crawler := crawler s; heap := h; registry := registry s |}, []).

Definition on_registry {A : Type} (f : Registry -> A * Registry) : Cmd A :=
  fun s =>
    let '(a, r) := f (registry s) in
    (a, {| crawler := crawler s; heap := heap s; registry := r |}, []).

(** [dep->field = v] for a node of the heap. *)
Definition assign (dep : ptr) (f : Dependency -> Dependency) : Cmd unit :=
  on_heap (fun h => (tt, heap_update dep f h)).

Fixpoint foreach {A : Type} (l : list A) (body : A -> Cmd unit) : Cmd unit :=
  match l with
  | [] => ret tt
  | a :: r => body a ;; foreach r body
  end.

(** A loop that updates a local object [b] once per element. *)
Fixpoint fold_cmd {A B : Type} (body : A -> B -> Cmd B) (l : list A) (b : B) : Cmd B :=
  match l with
  | [] => ret b
  | a :: r => b' <- body a b ;; fold_cmd body r b'
  end.

Fixpoint map_cmd {A B : Type} (body : A -> Cmd B) (l : list A) : Cmd (list B) :=
  match l with
  | [] => ret []
  | a :: r => b <- body a ;; bs <- map_cmd body r ;; ret (b :: bs)
  end.

(** *** [graphMethods] *)

Definition graphMethods (crawler : CrawlerPtr) (file_path : option string)
    (methods : list Method) : Cmd unit :=
  match crawler, file_path, methods with
  | CrawlerAt, Some file_path, _ :: _ =>
      logr VERBOSE "[Crawler] Adding methods to dependency graph from %s"
           [ArgS (Some file_path)] ;;
      dep <- on_heap malloc_Dependency ;;
      assign dep (set_source (Some file_path)) ;;
      assign dep (set_level LAYER_METHOD) ;;
      assign dep (set_methods methods) ;;
      assign dep (set_method_count (countMethods X methods)) ;;
      assign dep (set_next NULL) ;;
      graph <- get_dependency_graph ;;
      (if (graph =? NULL)%nat then
         set_dependency_graph dep
       else
         assign dep (set_next graph) ;;
         set_dependency_graph dep) ;;
      logr DEBUG "[Crawler] Added %d methods from %s to dependency graph"
           [ArgD (countMethods X methods); ArgS (Some file_path)]
  | _, _, _ => ret tt
  end.

(** *** [processLayer] *)

(** The merge of a transient record into the graph, written out twice in
    [processLayer] (for module and for structure records):
    [if (!crawler->dependency_graph) crawler->dependency_graph =
     create_dependency_from_extracted(dep); else
     graphDependency(crawler->dependency_graph, dep);]
    with the message logged in each branch. *)
Definition merge_extracted (created added : string) (dep : ExtractedDependency)
  : Cmd unit :=
  graph <- get_dependency_graph ;;
  if (graph =? NULL)%nat then
    p <- on_heap (create_dependency_from_extracted X dep) ;;
    set_dependency_graph p ;;
    logr VERBOSE created []
  else
    on_heap (fun h => (tt, graphDependency X graph dep h)) ;;
    logr VERBOSE added [].

(** The body of the loop over the module records of a file. *)
Definition graph_module (filepath : string) (current_dep : ExtractedDependency)
  : Cmd unit :=
  logr VERBOSE "[Crawler] Processing module dependency: %s"
       [ArgS (Some (or_NULL (target current_dep)))] ;;
  let temp_dep :=
    {| file_path := Some filepath; target := target current_dep;
       module_name := None; structures := []; structure_count := 0;
       methods := []; e_method_count := 0; language := LANG_RUST;
       layer := LAYER_MODULE |} in
  logr VERBOSE "[Crawler] Adding module dependency to graph: %s -> %s"
       [ArgS (Some filepath); ArgS (Some (or_NULL (target temp_dep)))] ;;
  merge_extracted "[Crawler] Created new dependency graph"
                  "[Crawler] Added to existing dependency graph" temp_dep.

(** The body of the inner loop of the cross-reference pass: one module
    record [curr_dep] against the structure [curr_struct]. *)
Definition check_type_dependency (curr_dep : ExtractedDependency)
    (curr_struct : Structure) : Cmd Structure :=
  logr VERBOSE "[Crawler] Checking type dependency: %s"
       [ArgS (Some (or_NULL (target curr_dep)))] ;;
  match target curr_dep, s_dependencies curr_struct with
  | Some tgt, Some deps =>
      if strstr deps tgt then
        logr VERBOSE "[Crawler] Found type source: %s in %s"
             [ArgS (Some deps); ArgS (file_path curr_dep)] ;;
        let new_len := String.length (or_empty (file_path curr_dep))
                       + String.length deps + 2 in
        let full_dep :=
          snprintf_trunc new_len (or_empty (file_path curr_dep) ++ ":" ++ deps) in
        logr VERBOSE "[Crawler] Updated dependency info: %s" [ArgS (Some full_dep)] ;;
        ret (set_s_dependencies (Some full_dep) curr_struct)
      else ret curr_struct
  | _, _ => ret curr_struct
  end.

(** The loop over [type_deps] for one structure. *)
Definition resolve_type_sources (type_deps : list ExtractedDependency)
    (curr_struct : Structure) : Cmd Structure :=
  fold_cmd check_type_dependency type_deps curr_struct.

(** The body of the loop over the structures of a file: the module
    extractor is run again, then its records are checked in order. *)
Definition track_type_sources (content : string) (grammar : Grammar)
    (curr_struct : Structure) : Cmd Structure :=
  logr VERBOSE "[Crawler] Processing structure: %s"
       [ArgS (Some (or_NULL (s_name curr_struct)))] ;;
  type_deps <- on_registry (analyzeModule X content grammar) ;;
  resolve_type_sources type_deps curr_struct.

Definition process_modules (filepath content : string) (grammar : Grammar) : Cmd unit :=
  logr VERBOSE "[Crawler] Analyzing modules for file: %s" [ArgS (Some filepath)] ;;
  deps <- on_registry (analyzeModule X content grammar) ;;
  foreach deps (graph_module filepath).

(** The structures are rewritten in place before [struct_dep], which
    points to them, is merged. *)
Definition process_structures (filepath content : string) (grammar : Grammar)
  : Cmd unit :=
  logr VERBOSE "[Crawler] Analyzing structures in %s" [ArgS (Some filepath)] ;;
  structs <- on_registry (analyze_structure X content filepath grammar) ;;
  match structs with
  | [] => ret tt
  | _ :: _ =>
      logr VERBOSE "[Crawler] Found structure dependencies" [] ;;
      structs' <- map_cmd (track_type_sources content grammar) structs ;;
      let struct_dep :=
        {| file_path := Some filepath; target := None; module_name := None;
           structures := structs'; structure_count := 0; methods := [];
           e_method_count := 0; language := LANG_RUST; layer := LAYER_STRUCT |} in
      logr VERBOSE "[Crawler] Adding structure dependencies to graph" [] ;;
      merge_extracted "[Crawler] Created new dependency graph for structures"
                      "[Crawler] Added structures to existing dependency graph"
                      struct_dep
  end.

Definition process_methods (crawler : CrawlerPtr) (filepath content : string)
    (grammar : Grammar) : Cmd unit :=
  logr VERBOSE "[Crawler] Analyzing methods in %s" [ArgS (Some filepath)] ;;
  methods <- on_registry (analyzeMethod X filepath content grammar) ;;
  match methods with
  | [] => ret tt
  | _ :: _ =>
      graphMethods crawler (Some filepath) methods ;;
      logr VERBOSE "[Crawler] Added methods to dependency graph" []
  end.

Definition processLayer (crawler : CrawlerPtr) (filepath content : option string)
    (grammar : option Grammar) : Cmd unit :=
  match crawler, filepath, content, grammar with
  | CrawlerAt, Some filepath, Some content, Some grammar =>
      logr VERBOSE "[Crawler] Processing layer for file: %s" [ArgS (Some filepath)] ;;
      modules_on <- get_config analyzeModules ;;
      (if (modules_on =? 0)%Z then ret tt
       else process_modules filepath content grammar) ;;
      structures_on <- get_config analyze_structures ;;
      (if (structures_on =? 0)%Z then ret tt
       else process_structures filepath content grammar) ;;
      methods_on <- get_config analyzeMethods ;;
      (if (methods_on =? 0)%Z then ret tt
       else process_methods crawler filepath content grammar) ;;
      logr VERBOSE "[Crawler] Finished processing layer for file: %s"
           [ArgS (Some filepath)]
  | _, _, _, _ =>
      logr ERROR "[Crawler] Invalid parameters passed to processLayer" []
  end.

(** *** [processFile] *)

Definition processFile (crawler : CrawlerPtr) (file_path : option string) : Cmd unit :=
  match crawler, file_path with
  | CrawlerAt, Some file_path =>
      match strrchr file_path "." with
      | None =>
          logr DEBUG "[Crawler] Skipping file without extension: %s"
               [ArgS (Some file_path)]
      | Some ext =>
          let ext := skip1 ext in
          if skipped_extension ext then
            logr DEBUG "[Crawler] Skipping non-source file: %s" [ArgS (Some file_path)]
          else
            logr INFO "[Crawler] Attempting to process file: %s (extension: %s)"
                 [ArgS (Some file_path); ArgS (Some ext)] ;;
            file <- sys_fopen file_path ;;
            match file with
            | None =>
                logr ERROR "[Crawler] Failed to open file: %s" [ArgS (Some file_path)]
            | Some bytes =>
                let content := c_str bytes in
                lang_type <- lift_log (languageType (Some file_path)) ;;
                match languageGrammars X lang_type with
                | None => ret tt
                | Some grammar =>
                    processLayer crawler (Some file_path) (Some content) (Some grammar)
                end
            end
      end
  | _, _ => ret tt
  end.

(** *** [crawlDir] and [crawlDeps] *)

(** [crawlDir] recurses along the directory structure, which need not be
    well-founded (links can close a cycle): the model recurses on [fuel],
    the depth of calls allowed. *)
Inductive Run (A : Type) : Type :=
| OutOfFuel
| Undef
| Done (a : A) (s : Store Registry) (t : list Event).
Arguments OutOfFuel {A}.
Arguments Undef {A}.
Arguments Done {A} a s t.

Definition CmdF (A : Type) : Type := Store Registry -> Run A.

Definition liftF {A : Type} (m : Cmd A) : CmdF A :=
  fun s => let '(a, s', t) := m s in Done a s' t.

Definition bindF {A B : Type} (m : CmdF A) (k : A -> CmdF B) : CmdF B :=
  fun s =>
    match m s with
    | OutOfFuel => OutOfFuel
    | Undef => Undef
    | Done a s1 t1 =>
        match k a s1 with
        | OutOfFuel => OutOfFuel
        | Undef => Undef
        | Done b s2 t2 => Done b s2 (t1 ++ t2)%list
        end
    end.

(** The run [r], with the events [t] emitted before it. *)
Definition emit_before {A : Type} (t : list Event) (r : Run A) : Run A :=
  match r with
  | Done a s t' => Done a s (t ++ t')%list
  | OutOfFuel => OutOfFuel
  | Undef => Undef
  end.

(** The run [r], with [f] applied to the store it ends in. *)
Definition map_store {A : Type} (f : Store Registry -> Store Registry) (r : Run A)
  : Run A :=
  match r with
  | Done a s t => Done a (f s) t
  | OutOfFuel => OutOfFuel
  | Undef => Undef
  end.

Local Notation "x <-- c ;;; k" := (bindF c (fun x => k))
  (at level 61, c at next level, right associativity).
Local Notation "c ;;; k" := (bindF c (fun _ => k))
  (at level 61, right associativity).

Fixpoint foreachF {A : Type} (l : list A) (body : A -> CmdF unit) : CmdF unit :=
  match l with
  | [] => liftF (ret tt)
  | a :: r => body a ;;; foreachF r body
  end.

(** [dir_name]: what follows the last slash of [path], or [path]. *)
Definition last_component (path : string) : string :=
  match strrchr path "/" with
  | Some t => skip1 t
  | None => path
  end.

(** The body of the [readdir] loop, for the entry named [d_name] of the
    directory [path]; [recurse] is the recursive call of [crawlDir]. *)
Definition crawl_entry (recurse : option string -> CmdF unit) (path d_name : string)
  : CmdF unit :=
  if hidden_entry d_name then liftF (ret tt)
  else
    let full_path := snprintf_trunc 1024 (path ++ "/" ++ d_name) in
    liftF (logr DEBUG "[Crawler] Found entry: %s" [ArgS (Some full_path)]) ;;;
    recurse (Some full_path).

Fixpoint crawlDir (fuel : nat) (crawler : CrawlerPtr) (path : option string)
  : CmdF unit :=
  match fuel with
  | 0 => fun _ => OutOfFuel
  | S fuel' =>
      match crawler, path with
      | CrawlerAt, Some path =>
          path_stat <-- liftF (sys_stat path) ;;;
          match path_stat with
          | None =>
              liftF (logr ERROR "[Crawler] Failed to stat path: %s" [ArgS (Some path)])
          | Some S_IFREG =>
              liftF (logr DEBUG "[Crawler] Processing file: %s" [ArgS (Some path)] ;;
                     processFile crawler (Some path))
          | Some S_IFDIR =>
              liftF (logr INFO "[Crawler] Opening directory: %s" [ArgS (Some path)]) ;;;
              dir <-- liftF (sys_opendir path) ;;;
              match dir with
              | None =>
                  liftF (logr ERROR "[Crawler] Failed to open directory: %s"
                              [ArgS (Some path)])
              | Some entries =>
                  if skipped_directory (last_component path) then
                    liftF (logr DEBUG "[Crawler] Skipping non-source directory: %s"
                                [ArgS (Some path)])
                  else
                    foreachF entries (crawl_entry (crawlDir fuel' crawler) path)
              end
          | Some S_IFOTHER =>
              liftF (logr DEBUG "[Crawler] Skipping non-regular file/directory: %s"
                          [ArgS (Some path)])
          end
      | _, _ => liftF (logr ERROR "[Crawler] Invalid parameters in crawlDir" [])
      end
  end.

(** The loop of [crawlDeps] over [root_directories[i]], from index [i]. *)
Fixpoint crawl_roots (fuel : nat) (crawler : CrawlerPtr) (i : Z)
    (roots : list (option string)) : CmdF unit :=
  match roots with
  | [] => liftF (ret tt)
  | None :: rest =>
      liftF (logr ERROR "[Crawler] Invalid directory at index %d" [ArgD i]) ;;;
      crawl_roots fuel crawler (i + 1) rest
  | Some dir :: rest =>
      liftF (logr DEBUG "[Crawler] Processing directory %d: %s"
                  [ArgD i; ArgS (Some dir)]) ;;;
      crawlDir fuel crawler (Some dir) ;;;
      crawl_roots fuel crawler (i + 1) rest
  end.

(** [crawlDeps] reads [crawler->directory_count] for its first message
    before it tests [crawler]: on the null pointer that is undefined.  The
    count is the length of the list (0 for the null array). *)
Definition crawlDeps (fuel : nat) (crawler : CrawlerPtr) : CmdF unit :=
  match crawler with
  | CrawlerNull => fun _ => Undef
  | CrawlerAt =>
      roots <-- liftF get_root_directories ;;;
      liftF (logr INFO "[Crawler] Starting dependency crawl for %d directories"
                  [ArgD (Z.of_nat (length (match roots with
                                           | Some l => l
                                           | None => []
                                           end)))]) ;;;
      match roots with
      | None => liftF (logr ERROR "[Crawler] Invalid crawler instance" [])
      | Some roots => crawl_roots fuel crawler 0 roots
      end
  end.

(** *** [create_crawler] *)

(** The new crawler object (or the null pointer), the analyzers' tables
    after [initPatternCache], and the messages logged.  A null entry among
    [directories] makes [create_crawler] call [freeCrawler] on an object
    whose graph pointers are not yet set: undefined. *)
Definition create_crawler (directories : list (option string))
    (config : option AnalysisConfig) (reg : Registry)
  : result (option DependencyCrawler * Registry * list Event) :=
  let t0 := [Logr INFO "[Crawler] Creating new crawler instance with %d directories"
                  [ArgD (Z.of_nat (length directories))];
             Logr DEBUG "[Crawler] Initializing crawler patterns" []] in
  let '(ok, reg1) := initPatternCache X reg in
  if negb ok then
    Returns (None, reg1,
             (t0 ++ [Logr ERROR "[Crawler] Failed to initialize pattern cache" []])%list)
  else
    let cfg := match config with
               | Some config => config
               | None => default_config
               end in
    if existsb is_null directories then Undefined
    else
      Returns
        (Some {| root_directories := Some directories; analysis_config := cfg;
                 dependency_graph := NULL |},
         reg1,
         (t0 ++ map (fun d => Logr VERBOSE "[Crawler] Added directory: %s" [ArgS d])
                    directories
             ++ [Logr VERBOSE "[Crawler] Crawler instance created successfully" []])%list).

(** *** [printMethods] *)

(** The branch drawn before the last item of a list and before the others,
    and the indentation below each. *)
Definition branch (is_last : bool) : string := if is_last then "└──" else "├──".

Definition indent (is_last : bool) : string := if is_last then "    " else "│   ".

(** [p->next == NULL], for the element in front of [rest]. *)
Definition no_next {A : Type} (rest : list A) : bool :=
  match rest with
  | [] => true
  | _ :: _ => false
  end.

Fixpoint print_calls (dep_header_prefix : string) (dep : list (option string))
  : Cmd unit :=
  match dep with
  | [] => ret tt
  | name :: rest =>
      logr INFO "  %s │     %s %s"
           [ArgS (Some dep_header_prefix); ArgS (Some (branch (no_next rest)));
            ArgS name] ;;
      print_calls dep_header_prefix rest
  end.

(** The loop that counts the references that have a [called_in]. *)
Fixpoint count_references (count_ref : list (option string)) (ref_count : Z) : Z :=
  match count_ref with
  | [] => ref_count
  | Some _ :: rest => count_references rest (ref_count + 1)
  | None :: rest => count_references rest ref_count
  end.

Fixpoint print_references (ref_header_prefix : string) (ref_count : Z)
    (ref : list (option string)) (current_ref : Z) : Cmd unit :=
  match ref with
  | [] => ret tt
  | Some called_in :: rest =>
      let current_ref := (current_ref + 1)%Z in
      logr INFO "  %s       %s %s"
           [ArgS (Some ref_header_prefix);
            ArgS (Some (branch (current_ref =? ref_count)%Z));
            ArgS (Some called_in)] ;;
      print_references ref_header_prefix ref_count rest current_ref
  | None :: rest => print_references ref_header_prefix ref_count rest current_ref
  end.

(** The body of the loop of [printMethods], for a method that is the last
    of its list or not. *)
Definition print_method (method : Method) (is_last_method : bool) : Cmd unit :=
  signature <- on_registry (formatMethodSignature W method) ;;
  logr INFO "  %s %s" [ArgS (Some (branch is_last_method)); ArgS signature] ;;
  def <- on_registry (findMethodDefinition W (m_name method)) ;;
  match def with
  | None => ret tt
  | Some def =>
      (match def_dependencies def with
       | [] => ret tt
       | _ :: _ =>
           logr INFO "  %s ├── calls:" [ArgS (Some (indent is_last_method))] ;;
           print_calls (indent is_last_method) (def_dependencies def)
       end) ;;
      match def_references def with
      | [] => ret tt
      | _ :: _ =>
          logr INFO "  %s └── called by:" [ArgS (Some (indent is_last_method))] ;;
          print_references (indent is_last_method)
                           (count_references (def_references def) 0)
                           (def_references def) 0
      end
  end.

Fixpoint printMethods (method : list Method) (source_file : option string) : Cmd unit :=
  match method with
  | [] => ret tt
  | m :: rest => print_method m (no_next rest) ;; printMethods rest source_file
  end.

(** *** [printDependencies] *)

(** The nodes a loop [while (dep) ... dep = dep->next] goes through, from
    [p]: [None] when [fuel] steps do not reach the null pointer, as on a
    graph with a cycle, and [Undefined] at an address that holds no
    node. *)
Fixpoint graph_nodes (fuel : nat) (h : list Dependency) (p : ptr)
  : option (result (list Dependency)) :=
  match fuel with
  | 0 => None
  | S fuel' =>
      if (p =? NULL)%nat then Some (Returns [])
      else
        match heap_get h p with
        | None => Some Undefined
        | Some dep =>
            match graph_nodes fuel' h (next dep) with
            | Some (Returns nodes) => Some (Returns (dep :: nodes))
            | r => r
            end
        end
  end.

(** The functions the report calls leave the heap alone, so each of its
    loops over the graph meets the same nodes. *)
Definition read_graph (fuel : nat) (p : ptr) : CmdF (list Dependency) :=
  fun s =>
    match graph_nodes fuel (heap s) p with
    | None => OutOfFuel
    | Some Undefined => Undef
    | Some (Returns nodes) => Done nodes s []
    end.

(** The inner loop of the module section: is there a node from
    [next_with_same_source] on whose source is [current_file]?  [strcmp]
    on a null source is undefined. *)
Fixpoint next_with_same_source (current_file : string) (nodes : list Dependency)
  : result bool :=
  match nodes with
  | [] => Returns false
  | n :: rest =>
      match source n with
      | None => Undefined
      | Some src =>
          if (strcmp src current_file =? 0)%Z then Returns true
          else next_with_same_source current_file rest
      end
  end.

(** The loop of the module section, over every node of the graph. *)
Fixpoint print_modules (current_file : option string) (nodes : list Dependency)
    (module_count : Z) : CmdF Z :=
  match nodes with
  | [] => liftF (ret module_count)
  | dep :: rest =>
      match source dep with
      | None => fun _ => Undef
      | Some src =>
          liftF (match current_file with
                 | Some file =>
                     if (strcmp file src =? 0)%Z then ret tt
                     else logr INFO "  %s" [ArgS (Some src)]
                 | None => logr INFO "  %s" [ArgS (Some src)]
                 end) ;;;
          match next_with_same_source src rest with
          | Undefined => fun _ => Undef
          | Returns found =>
              liftF (logr INFO "    %s %s"
                          [ArgS (Some (branch (negb found))); ArgS (d_target dep)]) ;;;
              print_modules (Some src) rest (module_count + 1)
          end
      end
  end.

Fixpoint print_referenced_in (refs : list (option string)) : Cmd unit :=
  match refs with
  | [] => ret tt
  | name :: rest =>
      logr INFO "      %s %s" [ArgS (Some (branch (no_next rest))); ArgS name] ;;
      print_referenced_in rest
  end.

(** The structure section.  Its count is a variable of its own block. *)
Definition print_structures : Cmd unit :=
  logr INFO "Structure Dependencies:" [] ;;
  logr INFO "--------------------" [] ;;
  defs <- on_registry (get_structure_definitions W) ;;
  struct_count <-
    fold_cmd (fun def struct_count =>
                logr INFO "  %s %s (defined in %s)"
                     [ArgS (sd_type def); ArgS (sd_name def); ArgS (sd_defined_in def)] ;;
                match referenced_in def with
                | [] => ret struct_count
                | _ :: _ =>
                    logr INFO "    Referenced in:" [] ;;
                    print_referenced_in (referenced_in def) ;;
                    ret (struct_count + 1)%Z
                end)
             defs 0%Z ;;
  logr INFO ("Total Structure Dependencies: %zu" ++ nl) [ArgD struct_count].

(** The first pass of the method section: the sources of the method-layer
    nodes, each once, in the order met. *)
Fixpoint collect_files (nodes : list Dependency) (processed_files : list string)
  : list string :=
  match nodes with
  | [] => processed_files
  | current :: rest =>
      match level current, source current with
      | LAYER_METHOD, Some src =>
          if existsb (fun file => (strcmp file src =? 0)%Z) processed_files
          then collect_files rest processed_files
          else collect_files rest (processed_files ++ [src])%list
      | _, _ => collect_files rest processed_files
      end
  end.

(** The body of the loop of the second pass, for the node [current]. *)
Definition print_node_methods (file : string) (current : Dependency) (method_count : Z)
  : Cmd Z :=
  match level current, source current with
  | LAYER_METHOD, Some src =>
      if (strcmp src file =? 0)%Z then
        printMethods (d_methods current) (source current) ;;
        ret (method_count + 1)%Z
      else ret method_count
  | _, _ => ret method_count
  end.

(** The second pass, for one file; [method_count] is never reset. *)
Definition print_file_methods (nodes : list Dependency) (file : string)
    (method_count : Z) : Cmd Z :=
  logr INFO "Method Dependencies for %s:" [ArgS (Some file)] ;;
  logr INFO "-----------------------------" [] ;;
  method_count <- fold_cmd (print_node_methods file) nodes method_count ;;
  logr INFO (nl ++ "Total Method Dependencies for %s: %d" ++ nl)
       [ArgS (Some file); ArgD method_count] ;;
  ret method_count.

(** The module section and the method section; each gives its count. *)
Definition report_modules (fuel : nat) (graph : ptr) : CmdF Z :=
  liftF (logr INFO "Module Dependencies:" [] ;;
         logr INFO "-----------------" []) ;;;
  nodes <-- read_graph fuel graph ;;;
  module_count <-- print_modules None nodes 0 ;;;
  liftF (logr INFO ("Total Module Dependencies: %d" ++ nl) [ArgD module_count] ;;
         ret module_count).

Definition report_methods (fuel : nat) (graph : ptr) : CmdF Z :=
  liftF (logr INFO "Method Dependencies:" [] ;;
         logr INFO "-----------------" []) ;;;
  nodes <-- read_graph fuel graph ;;;
  liftF (method_count <-
           fold_cmd (print_file_methods nodes) (collect_files nodes []) 0%Z ;;
         logr INFO (nl ++ "Total Method Dependencies: %d" ++ nl) [ArgD method_count] ;;
         ret method_count).

(** [printDependencies] reads [crawler->dependency_graph] without testing
    [crawler].  The last message adds the three counts of the function's
    outer block, of which the structure section leaves its own at 0. *)
Definition printDependencies (fuel : nat) (crawler : CrawlerPtr) : CmdF unit :=
  match crawler with
  | CrawlerNull => fun _ => Undef
  | CrawlerAt =>
      graph <-- liftF get_dependency_graph ;;;
      if (graph =? NULL)%nat then
        liftF (logr INFO "[Crawler] No dependencies found." [])
      else
        let struct_count := 0%Z in
        liftF (logr INFO "[Crawler] Dependencies by Layer" [] ;;
               logr INFO ("==========================" ++ nl) []) ;;;
        modules_on <-- liftF (get_config analyzeModules) ;;;
        module_count <--
          (if (modules_on =? 0)%Z then liftF (ret 0%Z)
           else report_modules fuel graph) ;;;
        structures_on <-- liftF (get_config analyze_structures) ;;;
        (if (structures_on =? 0)%Z then liftF (ret tt) else liftF print_structures) ;;;
        methods_on <-- liftF (get_config analyzeMethods) ;;;
        method_count <--
          (if (methods_on =? 0)%Z then liftF (ret 0%Z)
           else report_methods fuel graph) ;;;
        liftF (logr INFO (nl ++ "Total Dependencies: %zu")
                    [ArgD (module_count + struct_count + method_count)])
  end.

(** *** [exportDeps] *)

(** [strcmp] on a null format is undefined. *)
Definition exportDeps (fuel : nat) (crawler : CrawlerPtr) (output_format : option string)
  : CmdF unit :=
  match output_format with
  | None => fun _ => Undef
  | Some output_format =>
      if (strcmp output_format "json" =? 0)%Z then
        liftF (logr INFO "[Crawler] JSON export not yet implemented" [])
      else if (strcmp output_format "graphviz" =? 0)%Z then
        liftF (logr INFO "[Crawler] GraphViz export not yet implemented" [])
      else printDependencies fuel crawler
  end.

(** * The vocabulary of the statements *)

(** The extensions [languageType] knows, in lower case. *)
Definition known_extensions : list string :=
  ["rs"; "c"; "h"; "cpp"; "hpp"; "js"; "jsx"; "ts"; "tsx"; "go"; "py"; "java";
   "php"; "rb"].

(** The line of the DOT file for one relationship. *)
Definition dot_line (rel : Relationship) : string :=
  "  " ++ dq ++ from rel ++ dq ++ " -> " ++ dq ++ to rel ++ dq
       ++ " [label=" ++ dq ++ relationship_type rel ++ dq ++ "];" ++ nl.

(** The kind of relationship each layer gives. *)
Definition kind_of_layer (l : AnalysisLayer) : string :=
  match l with
  | LAYER_MODULE => "imports"
  | LAYER_STRUCT => "inherits"
  | LAYER_METHOD => "calls"
  end.

(** The relationship a record of layer [l] gives, from its name [f] to the
    text [t] it depends on. *)
Definition relationship_from (l : AnalysisLayer) (f t : option string)
  : list Relationship :=
  match f, t with
  | Some f, Some t =>
      [{| from := f; to := t; relationship_type := kind_of_layer l; r_layer := l |}]
  | _, _ => []
  end.

Definition relationships_of (dep : option ExtractedDependency) : list Relationship :=
  match dep with
  | None => []
  | Some dep =>
      (relationship_from LAYER_MODULE (file_path dep) (module_name dep)
       ++ flat_map (fun st => relationship_from LAYER_STRUCT (s_name st) (s_dependencies st))
                   (structures dep)
       ++ flat_map (fun m => relationship_from LAYER_METHOD (m_name m) (m_dependencies m))
                   (methods dep))%list
  end.

(** No [strdup] of a null name: a record that has the text it depends on
    has its name. *)
Definition named (dep : option ExtractedDependency) : Prop :=
  match dep with
  | None => True
  | Some dep =>
      (module_name dep <> None -> file_path dep <> None)
      /\ Forall (fun st => s_dependencies st <> None -> s_name st <> None) (structures dep)
      /\ Forall (fun m => m_dependencies m <> None -> m_name m <> None) (methods dep)
  end.

(** The object of the JSON file for one relationship, without what
    separates it from the next. *)
Definition json_object (rel : Relationship) : string :=
  "    {" ++ nl
  ++ "      " ++ dq ++ "from" ++ dq ++ ": " ++ dq ++ from rel ++ dq ++ "," ++ nl
  ++ "      " ++ dq ++ "to" ++ dq ++ ": " ++ dq ++ to rel ++ dq ++ "," ++ nl
  ++ "      " ++ dq ++ "type" ++ dq ++ ": " ++ dq ++ relationship_type rel ++ dq ++ "," ++ nl
  ++ "      " ++ dq ++ "layer" ++ dq ++ ": " ++ fmt_d (layer_number (r_layer rel)) ++ nl
  ++ "    }".

(** The elements of a JSON array, one per relationship, joined by a comma
    and a line break, and the line break that ends the last one. *)
Definition json_elements (rels : list Relationship) : string :=
  match rels with
  | [] => ""
  | _ :: _ => String.concat ("," ++ nl) (map json_object rels) ++ nl
  end.

(** [curr_dep]'s target is not null and occurs in [text]. *)
Definition target_occurs (text : string) (curr_dep : ExtractedDependency) : bool :=
  match target curr_dep with
  | Some tgt => strstr text tgt
  | None => false
  end.

(** [text] with the path of [curr_dep] in front: "<path>:<text>". *)
Definition stamped (curr_dep : ExtractedDependency) (text : string) : string :=
  or_empty (file_path curr_dep) ++ ":" ++ text.

(** The node [graphMethods] builds. *)
Definition method_node (file_path : string) (methods : list Method) (graph : ptr)
  : Dependency :=
  {| source := Some file_path; d_target := None; d_language := LANG_RUST;
     level := LAYER_METHOD; d_methods := methods;
     method_count := countMethods X methods; next := graph |}.

(** The extensions refused by [processFile], in lower case. *)
Definition non_source_extensions : list string :=
  ["txt"; "md"; "json"; "yml"; "yaml"; "xml"; "csv"; "log"; "license";
   "gitignore"; "lock"].

(** [path] cannot be stat'ed, or is a directory that cannot be opened, or
    is a regular file that cannot be opened. *)
Definition unreadable (path : string) : Prop :=
  stat fs path = None
  \/ (stat fs path = Some S_IFDIR /\ opendir fs path = None)
  \/ (stat fs path = Some S_IFREG /\ fopen fs path = None).

(** Some call of [logr] in [t] has [path] as its first argument. *)
Definition logged (path : string) (t : list Event) : Prop :=
  exists lvl format args, In (Logr lvl format (ArgS (Some path) :: args)) t.

(** An event that is not the opening of a file with a refused extension
    (or with none). *)
Definition opens_source (e : Event) : Prop :=
  match e with
  | SysFopen path =>
      exists ext, strrchr path "." = Some ext /\ skipped_extension (skip1 ext) = false
  | _ => True
  end.

(** A command, and a walk that ends, whose events are all [opens_source]. *)
Definition selective {A : Type} (m : Cmd A) : Prop :=
  forall s : Store Registry, Forall opens_source (events (m s)).

Definition selectiveF {A : Type} (m : CmdF A) : Prop :=
  forall (s s' : Store Registry) (a : A) (t : list Event),
    m s = Done a s' t -> Forall opens_source t.

Definition visible_entry (d_name : string) : bool := negb (hidden_entry d_name).

Definition crawler_with_max_depth (d : Z) (c : DependencyCrawler) : DependencyCrawler :=
  {| root_directories := root_directories c;
     analysis_config := set_max_depth d (analysis_config c);
     dependency_graph := dependency_graph c |}.

(** The store [s] with [max_depth] set to [d] in its crawler's
    configuration, and nothing else changed. *)
Definition with_max_depth (d : Z) (s : Store Registry) : Store Registry :=
  {| crawler := crawler_with_max_depth d (crawler s);
     heap := heap s; registry := registry s |}.

(** A command that runs the same way whatever [max_depth] is. *)
Definition depth_blind {A : Type} (m : Cmd A) : Prop :=
  forall (d : Z) (s : Store Registry),
    m (with_max_depth d s) =
    (value (m s), with_max_depth d (store_of (m s)), events (m s)).

Definition depth_blindF {A : Type} (m : CmdF A) : Prop :=
  forall (d : Z) (s : Store Registry),
    m (with_max_depth d s) = map_store (with_max_depth d) (m s).

(** A node of the method layer owns a list of methods that is not empty,
    and records its length. *)
Definition method_node_ok (d : Dependency) : Prop :=
  level d = LAYER_METHOD ->
  d_methods d <> [] /\ method_count d = Z.of_nat (length (d_methods d)).

Definition graph_ok (s : Store Registry) : Prop := Forall method_node_ok (heap s).

(** A command that keeps every node as [method_node_ok] wants it. *)
Definition keeps {A : Type} (m : Cmd A) : Prop :=
  forall s : Store Registry, graph_ok s -> graph_ok (store_of (m s)).

(** The same for the walk: if it ends, it ends in a good store. *)
Definition keepsF {A : Type} (m : CmdF A) : Prop :=
  forall (s s' : Store Registry) (a : A) (t : list Event),
    graph_ok s -> m s = Done a s' t -> graph_ok s'.

(** "The record [processLayer] merges is prepended": the head afterwards
    is a node that was not there before, and its [next] is the previous
    head. *)
Definition merge_prepends (dep : ExtractedDependency) (s : Store Registry) : Prop :=
  let s' := store_of (merge_extracted "created" "added" dep s) in
  let head' := dependency_graph (crawler s') in
  ~ allocated (heap s) head'
  /\ option_map next (heap_get (heap s') head') = Some (dependency_graph (crawler s)).

(** The names of the directories [crawlDir] does not enter. *)
Definition skipped_names : list string :=
  ["node_modules"; ".git"; "build"; "dist"; "target"; "vendor"].

(** [crawlDir] enters the directory [path], which lists [entries]: it goes
    on with the loop over the entries, and in a run that ends every entry
    that is not hidden is announced and has its path examined. *)
Definition entered (fuel : nat) (path : string) (entries : list string)
    (s : Store Registry) : Prop :=
  crawlDir (S fuel) CrawlerAt (Some path) s =
  emit_before
    [SysStat path;
     Logr INFO "[Crawler] Opening directory: %s" [ArgS (Some path)];
     SysOpendir path]
    (foreachF entries (crawl_entry (crawlDir fuel CrawlerAt) path) s)
  /\ forall (s' : Store Registry) (t : list Event) (d_name : string),
       crawlDir (S fuel) CrawlerAt (Some path) s = Done tt s' t ->
       In d_name entries -> hidden_entry d_name = false ->
       In (Logr DEBUG "[Crawler] Found entry: %s"
                [ArgS (Some (snprintf_trunc 1024 (path ++ "/" ++ d_name)))]) t
       /\ In (SysStat (snprintf_trunc 1024 (path ++ "/" ++ d_name))) t.

(** [rank] goes down from every directory that [crawlDir] enters to each
    of the paths it builds for the visible entries: along them the
    directory structure has no cycle. *)
Definition descends (rank : string -> nat) : Prop :=
  forall (dir : string) (entries : list string) (d_name : string),
    stat fs dir = Some S_IFDIR -> opendir fs dir = Some entries ->
    skipped_directory (last_component dir) = false ->
    In d_name entries -> hidden_entry d_name = false ->
    rank (snprintf_trunc 1024 (dir ++ "/" ++ d_name)) < rank dir.

(** A command, and a walk that ends, all of whose events are in [Q]. *)
Definition emits (Q : Event -> Prop) {A : Type} (m : Cmd A) : Prop :=
  forall s : Store Registry, Forall Q (events (m s)).

Definition emitsF (Q : Event -> Prop) {A : Type} (m : CmdF A) : Prop :=
  forall (s s' : Store Registry) (a : A) (t : list Event),
    m s = Done a s' t -> Forall Q t.

(** A call that the [stat] of its path allows: [fopen] of a regular file,
    [opendir] of a directory; the other events are not restricted. *)
Definition allowed_by_stat (e : Event) : Prop :=
  match e with
  | SysFopen path => stat fs path = Some S_IFREG
  | SysOpendir path => stat fs path = Some S_IFDIR
  | _ => True
  end.

(** What a crawler is set up with: its roots and its configuration. *)
Definition settings (s : Store Registry)
  : option (list (option string)) * AnalysisConfig :=
  (root_directories (crawler s), analysis_config (crawler s)).

(** A command, and a walk that ends, that leave the settings alone. *)
Definition steady {A : Type} (m : Cmd A) : Prop :=
  forall s : Store Registry, settings (store_of (m s)) = settings s.

Definition steadyF {A : Type} (m : CmdF A) : Prop :=
  forall (s s' : Store Registry) (a : A) (t : list Event),
    m s = Done a s' t -> settings s' = settings s.

(** Two configurations that switch the same layers on: each of the three
    switches is zero in both or in neither. *)
Definition same_switches (c1 c2 : AnalysisConfig) : Prop :=
  (analyzeModules c1 =? 0)%Z = (analyzeModules c2 =? 0)%Z
  /\ (analyze_structures c1 =? 0)%Z = (analyze_structures c2 =? 0)%Z
  /\ (analyzeMethods c1 =? 0)%Z = (analyzeMethods c2 =? 0)%Z.

(** Two stores that differ at most in their configurations, and these
    switch the same layers on. *)
Definition agree (s1 s2 : Store Registry) : Prop :=
  root_directories (crawler s1) = root_directories (crawler s2)
  /\ dependency_graph (crawler s1) = dependency_graph (crawler s2)
  /\ heap s1 = heap s2
  /\ registry s1 = registry s2
  /\ same_switches (analysis_config (crawler s1)) (analysis_config (crawler s2)).

(** Two commands that do the same from stores that agree. *)
Definition alike {A : Type} (m1 m2 : Cmd A) : Prop :=
  forall s1 s2 : Store Registry,
    agree s1 s2 ->
    value (m1 s1) = value (m2 s2)
    /\ events (m1 s1) = events (m2 s2)
    /\ agree (store_of (m1 s1)) (store_of (m2 s2)).

(** Two runs with the same outcome: neither ends, or both are undefined,
    or both end, with the same value and events, in stores that agree. *)
Definition agree_runs {A : Type} (r1 r2 : Run A) : Prop :=
  match r1, r2 with
  | OutOfFuel, OutOfFuel => True
  | Undef, Undef => True
  | Done a1 s1 t1, Done a2 s2 t2 => a1 = a2 /\ t1 = t2 /\ agree s1 s2
  | _, _ => False
  end.

Definition alikeF {A : Type} (m1 m2 : CmdF A) : Prop :=
  forall s1 s2 : Store Registry, agree s1 s2 -> agree_runs (m1 s1) (m2 s2).

(** A message logged at the level [INFO]. *)
Definition info_log (e : Event) : Prop :=
  match e with
  | Logr INFO _ _ => True
  | _ => False
  end.

(** A command, and a run that ends, that only log at [INFO], and leave the
    crawler object and the heap of nodes as they are. *)
Definition quiet {A : Type} (m : Cmd A) : Prop :=
  forall s : Store Registry,
    crawler (store_of (m s)) = crawler s
    /\ heap (store_of (m s)) = heap s
    /\ Forall info_log (events (m s)).

Definition quietF {A : Type} (m : CmdF A) : Prop :=
  forall (s s' : Store Registry) (a : A) (t : list Event),
    m s = Done a s' t ->
    crawler s' = crawler s /\ heap s' = heap s /\ Forall info_log t.

(** The nodes the method section of the report counts, and those it
    prints under [file]. *)
Definition is_method_node (d : Dependency) : bool :=
  match level d, source d with
  | LAYER_METHOD, Some _ => true
  | _, _ => false
  end.

Definition is_method_node_of (file : string) (d : Dependency) : bool :=
  match level d, source d with
  | LAYER_METHOD, Some src => (strcmp src file =? 0)%Z
  | _, _ => false
  end.

(** The number the last line of the report gives for a graph of [nodes]
    under the configuration [cfg]. *)
Definition report_total (cfg : AnalysisConfig) (nodes : list Dependency) : Z :=
  (if (analyzeModules cfg =? 0)%Z then 0 else Z.of_nat (length nodes))
  + 0
  + (if (analyzeMethods cfg =? 0)%Z then 0
     else Z.of_nat (length (filter is_method_node nodes))).

(** * Properties *)

(** ** C strings *)

Lemma compare_same (a : string) : String.compare a a = Eq.
Proof.
  pose proof (String.compare_antisym a a) as H.
  destruct (String.compare a a); simpl in H; congruence.
Qed.

Lemma strcmp_eq_0 (a b : string) : (strcmp a b =? 0)%Z = true <-> a = b.
Proof.
  unfold strcmp. destruct (String.compare a b) eqn:E; simpl.
  - apply String.compare_eq_iff in E. split; auto.
  - split; [discriminate|]. intros ->. rewrite compare_same in E. discriminate.
  - split; [discriminate|]. intros ->. rewrite compare_same in E. discriminate.
Qed.

Lemma strcmp_neq_0 (a b : string) : (strcmp a b =? 0)%Z = false <-> a <> b.
Proof.
  rewrite <- strcmp_eq_0. destruct (strcmp a b =? 0)%Z; split; congruence.
Qed.

Lemma strcmp_refl (a : string) : (strcmp a a =? 0)%Z = true.
Proof. now apply strcmp_eq_0. Qed.

Lemma tolower_dot (c : ascii) : tolower c = "."%char <-> c = "."%char.
Proof.
  destruct c as [[] [] [] [] [] [] [] []]; vm_compute; split; congruence.
Qed.

Lemma strlower_length (s : string) : String.length (strlower s) = String.length s.
Proof. induction s; simpl; congruence. Qed.

Lemma strrchr_strlower_None (s : string) :
  strrchr (strlower s) "." = None <-> strrchr s "." = None.
Proof.
  induction s as [|c s IH]; simpl; [tauto|].
  destruct (strrchr (strlower s) ".") eqn:E1, (strrchr s ".") eqn:E2.
  - split; discriminate.
  - destruct IH as [_ IH]. specialize (IH eq_refl). discriminate.
  - destruct IH as [IH _]. specialize (IH eq_refl). discriminate.
  - destruct (Ascii.eqb_spec (tolower c) "."), (Ascii.eqb_spec c ".");
      try tauto; try (split; discriminate).
    + apply (proj1 (tolower_dot c)) in e. contradiction.
    + apply (proj2 (tolower_dot c)) in e. contradiction.
Qed.

(** The last dot of [base.ext] is the one written, when [ext] has none. *)
Lemma strrchr_final_extension (base ext : string) :
  strrchr ext "." = None ->
  strrchr (base ++ "." ++ ext) "." = Some ("." ++ ext).
Proof.
  intros H. induction base as [|c base IH]; simpl.
  - now rewrite H.
  - simpl in IH. now rewrite IH.
Qed.

Lemma lower_copy_strlower (n : nat) (e1 e2 : string) :
  strlower e1 = strlower e2 -> lower_copy n e1 = lower_copy n e2.
Proof.
  revert e1 e2. induction n as [|n IH]; intros [|c1 r1] [|c2 r2] H;
    simpl in *; try reflexivity; try discriminate.
  injection H as Hc Hr. rewrite Hc. f_equal. now apply IH.
Qed.

Lemma lower_copy_short (n : nat) (e : string) :
  String.length e <= n -> lower_copy n e = strlower e.
Proof.
  revert e. induction n as [|n IH]; intros [|c r] H; simpl in *;
    try reflexivity; try lia.
  f_equal. apply IH. lia.
Qed.

Lemma lower_copy_length (n : nat) (e : string) :
  String.length (lower_copy n e) = Nat.min n (String.length e).
Proof.
  revert e. induction n as [|n IH]; intros [|c r]; simpl; try reflexivity.
  now rewrite IH.
Qed.

Lemma snprintf_trunc_fits (size : nat) (s : string) :
  String.length s < size -> snprintf_trunc size s = s.
Proof.
  unfold snprintf_trunc. intros H.
  assert (G : forall n t, String.length t <= n -> substring 0 n t = t).
  { intros n t. revert n. induction t as [|c t IH]; intros [|n] L; simpl in *;
      try reflexivity; try lia.
    f_equal. apply IH. lia. }
  apply G. lia.
Qed.

Lemma strrchr_app_some (a b t : string) (c : ascii) :
  strrchr b c = Some t -> strrchr (a ++ b) c = Some t.
Proof.
  intros H. induction a as [|x a IH]; simpl; [exact H|now rewrite IH].
Qed.

Lemma strrchr_app_none (a b : string) (c : ascii) :
  strrchr b c = None ->
  strrchr (a ++ b) c = option_map (fun t => t ++ b) (strrchr a c).
Proof.
  intros H. induction a as [|x a IH]; simpl; [exact H|].
  rewrite IH. destruct (strrchr a c); simpl; [reflexivity|].
  destruct (Ascii.eqb x c); reflexivity.
Qed.

(** What [strrchr] finds starts with the character and has no other. *)
Lemma strrchr_split (s t : string) (c : ascii) :
  strrchr s c = Some t ->
  exists pre rest, s = pre ++ String c rest /\ t = String c rest /\ strrchr rest c = None.
Proof.
  revert t. induction s as [|x s IH]; intros t H; simpl in H; [discriminate|].
  destruct (strrchr s c) as [t'|] eqn:E.
  - injection H as <-. destruct (IH t' eq_refl) as (pre & rest & -> & -> & N).
    exists (String x pre), rest. repeat split. exact N.
  - destruct (Ascii.eqb_spec x c) as [->|_]; [|discriminate].
    injection H as <-. exists "", s. repeat split. exact E.
Qed.

Lemma tolower_slash (c : ascii) : tolower c = "/"%char <-> c = "/"%char.
Proof.
  destruct c as [[] [] [] [] [] [] [] []]; vm_compute; split; congruence.
Qed.

Lemma strrchr_strlower_slash (s : string) :
  strrchr (strlower s) "/" = None -> strrchr s "/" = None.
Proof.
  induction s as [|c s IH]; simpl; [tauto|].
  destruct (strrchr (strlower s) "/") eqn:E1; [discriminate|].
  rewrite (IH eq_refl).
  destruct (Ascii.eqb_spec (tolower c) "/"), (Ascii.eqb_spec c "/");
    try tauto; try discriminate.
  intros _. apply (proj2 (tolower_slash c)) in e. contradiction.
Qed.

(** ** The language classifier *)

Lemma lower_copy_known (ext k : string) :
  lower_copy 31 ext = k -> String.length k < 31 -> strlower ext = k.
Proof.
  intros H L. rewrite <- H. symmetry. apply lower_copy_short.
  pose proof (lower_copy_length 31 ext) as G. rewrite H in G. lia.
Qed.

Lemma unknown_extension_differs (ext k : string) :
  ~ In (strlower ext) known_extensions -> In k known_extensions ->
  (strcmp (lower_copy 31 ext) k =? 0)%Z = false.
Proof.
  intros U K. apply strcmp_neq_0. intros E. apply U.
  rewrite (lower_copy_known ext k E); [exact K|].
  simpl in K. repeat (destruct K as [<-|K]; [simpl; lia|]). contradiction.
Qed.

Lemma languageType_lower (base ext k : string) :
  strlower ext = k -> String.length k <= 31 -> strrchr k "." = None ->
  fst (languageType (Some (base ++ "." ++ ext))) =
  fst (languageType (Some ("." ++ k))).
Proof.
  intros E L D. unfold languageType.
  assert (D' : strrchr ext "." = None).
  { apply strrchr_strlower_None. now rewrite E. }
  rewrite (strrchr_final_extension base ext D').
  assert (Dk : strrchr ("." ++ k) "." = Some ("." ++ k))
    by exact (strrchr_final_extension "" k D).
  rewrite Dk.
  cbn [skip1 append].
  rewrite (lower_copy_short 31 ext) by (rewrite <- strlower_length, E; exact L).
  rewrite (lower_copy_short 31 k) by exact L.
  rewrite E.
  assert (I : strlower k = k).
  { rewrite <- E. clear. induction ext as [|c r IH]; simpl; [reflexivity|].
    rewrite IH. f_equal.
    destruct c as [[] [] [] [] [] [] [] []]; reflexivity. }
  now rewrite I.
Qed.

Lemma languageType_unknown (path ext : string) :
  strrchr path "." = Some (String "." ext) ->
  ~ In (strlower ext) known_extensions ->
  fst (languageType (Some path)) = LANG_RUST.
Proof.
  intros D U. unfold languageType. rewrite D. cbn [skip1].
  repeat match goal with
         | |- context [(strcmp (lower_copy 31 ext) ?k =? 0)%Z] =>
             rewrite (unknown_extension_differs ext k U) by (simpl; tauto)
         end.
  reflexivity.
Qed.

Lemma extension_with_slash_unknown (ext : string) :
  strrchr ext "/" <> None -> ~ In (strlower ext) known_extensions.
Proof.
  intros H I. apply H. apply strrchr_strlower_slash.
  simpl in I. repeat (destruct I as [<-|I]; [reflexivity|]). contradiction.
Qed.

(** X1: the language of a path is the language of its last component: a
    dot in a directory name never counts. *)
Theorem languageType_of_file_name (path : string) :
  fst (languageType (Some path)) = fst (languageType (Some (last_component path))).
Proof.
  unfold last_component. destruct (strrchr path "/") as [t|] eqn:Sl; [|reflexivity].
  apply strrchr_split in Sl. destruct Sl as (pre & name & -> & -> & Hn).
  cbn [skip1].
  assert (Hs : strrchr (String "/" name) "/" = Some (String "/" name)).
  { simpl. now rewrite Hn. }
  destruct (strrchr name ".") as [e|] eqn:D.
  - assert (Hd : strrchr (String "/" name) "." = Some e) by (simpl; now rewrite D).
    unfold languageType. rewrite (strrchr_app_some pre _ e "." Hd), D. reflexivity.
  - assert (Hd : strrchr (String "/" name) "." = None) by (simpl; now rewrite D).
    transitivity LANG_RUST; [|unfold languageType; now rewrite D].
    pose proof (strrchr_app_none pre _ "." Hd) as E.
    destruct (strrchr pre ".") as [t0|] eqn:P; simpl in E.
    + apply strrchr_split in P. destruct P as (pre1 & rest & _ & -> & Hr).
      apply (languageType_unknown _ (rest ++ String "/" name)); [exact E|].
      apply extension_with_slash_unknown.
      rewrite (strrchr_app_some rest _ _ "/" Hs). discriminate.
    + unfold languageType. now rewrite E.
Qed.

(** C3: [languageType] is a total function of the text after the last dot
    of the path, compared without regard to case: two paths whose final
    extensions agree up to case get the same language; the known extensions
    get their language; an unknown extension, a path with no dot and the
    null pointer all get [LANG_RUST], the default. *)
Theorem languageType_final_extension :
  (forall base1 base2 ext1 ext2 : string,
      strrchr ext1 "." = None -> strrchr ext2 "." = None ->
      strlower ext1 = strlower ext2 ->
      fst (languageType (Some (base1 ++ "." ++ ext1))) =
      fst (languageType (Some (base2 ++ "." ++ ext2))))
  /\ (forall base ext : string,
      let lang := fst (languageType (Some (base ++ "." ++ ext))) in
      (strlower ext = "rs" -> lang = LANG_RUST)
      /\ (In (strlower ext) ["c"; "h"; "cpp"; "hpp"] -> lang = LANG_C)
      /\ (In (strlower ext) ["js"; "jsx"; "ts"; "tsx"] -> lang = LANG_JAVASCRIPT)
      /\ (strlower ext = "go" -> lang = LANG_GO)
      /\ (strlower ext = "py" -> lang = LANG_PYTHON)
      /\ (strlower ext = "java" -> lang = LANG_JAVA)
      /\ (strlower ext = "php" -> lang = LANG_PHP)
      /\ (strlower ext = "rb" -> lang = LANG_RUBY)
      /\ (strrchr ext "." = None -> ~ In (strlower ext) known_extensions ->
          lang = LANG_RUST))
  /\ (forall filename : string,
      strrchr filename "." = None -> fst (languageType (Some filename)) = LANG_RUST)
  /\ fst (languageType None) = LANG_RUST.
Proof.
  split; [|split; [|split]].
  - intros base1 base2 ext1 ext2 D1 D2 E. unfold languageType.
    rewrite (strrchr_final_extension base1 ext1 D1).
    rewrite (strrchr_final_extension base2 ext2 D2).
    cbn [skip1 append].
    now rewrite (lower_copy_strlower 31 ext1 ext2 E).
  - intros base ext lang. subst lang.
    assert (K : forall k, strlower ext = k -> In k known_extensions ->
                fst (languageType (Some (base ++ "." ++ ext))) =
                fst (languageType (Some ("." ++ k)))).
    { intros k E I. apply languageType_lower; [exact E| |];
        simpl in I; repeat (destruct I as [<-|I]; [simpl; first [lia|reflexivity]|]);
        contradiction. }
    repeat split.
    + intros E. rewrite (K _ E); [reflexivity|simpl; tauto].
    + intros I. simpl in I.
      repeat (destruct I as [E|I];
              [symmetry in E; rewrite (K _ E); [reflexivity|simpl; tauto]|]).
      contradiction.
    + intros I. simpl in I.
      repeat (destruct I as [E|I];
              [symmetry in E; rewrite (K _ E); [reflexivity|simpl; tauto]|]).
      contradiction.
    + intros E. rewrite (K _ E); [reflexivity|simpl; tauto].
    + intros E. rewrite (K _ E); [reflexivity|simpl; tauto].
    + intros E. rewrite (K _ E); [reflexivity|simpl; tauto].
    + intros E. rewrite (K _ E); [reflexivity|simpl; tauto].
    + intros E. rewrite (K _ E); [reflexivity|simpl; tauto].
    + intros D U. apply (languageType_unknown _ ext); [|exact U].
      exact (strrchr_final_extension base ext D).
  - intros filename D. unfold languageType. now rewrite D.
  - reflexivity.
Qed.

Lemma languageType_final_extension_witness :
  fst (languageType (Some "src/Main.RS")) = fst (languageType (Some "lib.rs"))
  /\ fst (languageType (Some "a/b.Cpp")) = LANG_C
  /\ fst (languageType (Some "notes.xyz")) = LANG_RUST
  /\ fst (languageType (Some "Makefile")) = LANG_RUST.
Proof.
  destruct languageType_final_extension as (H1 & H2 & H3 & _).
  split; [exact (H1 "src/Main" "lib" "RS" "rs" eq_refl eq_refl eq_refl)|].
  split; [apply (H2 "a/b" "Cpp"); simpl; tauto|].
  split; [|exact (H3 "Makefile" eq_refl)].
  apply (H2 "notes" "xyz"); [reflexivity|].
  simpl. intuition discriminate.
Defined.

(** ** The DOT export *)

Lemma append_assoc (a b c : string) : (a ++ b) ++ c = a ++ b ++ c.
Proof. induction a as [|x a IH]; simpl; [reflexivity|now rewrite IH]. Qed.

Lemma append_empty_r (a : string) : a ++ "" = a.
Proof. induction a as [|x a IH]; simpl; [reflexivity|now rewrite IH]. Qed.

Lemma dot_relationships_lines (rels : list Relationship) (output : string) :
  dot_relationships rels output = output ++ String.concat "" (map dot_line rels).
Proof.
  revert output. induction rels as [|rel rest IH]; intros output.
  - simpl. now rewrite append_empty_r.
  - cbn [dot_relationships]. rewrite IH.
    assert (C : String.concat "" (map dot_line (rel :: rest)) =
                dot_line rel ++ String.concat "" (map dot_line rest)).
    { simpl. destruct (map dot_line rest) eqn:M; simpl.
      - now rewrite append_empty_r.
      - reflexivity. }
    rewrite C. unfold dot_line. now rewrite !append_assoc.
Qed.

(** C5: with the format "dot", and when the output file can be opened,
    [exportGraph] writes the header line, one line per relationship in
    stored order, and the closing brace line; for the single relationship
    (A, B, "imports", 0) these are exactly the bytes of the specification. *)
Theorem exportGraph_dot (fopen_w : string -> bool) (graph : DependencyGraph)
    (output_path : string) :
  fopen_w output_path = true ->
  exportGraph fopen_w (Some graph) (Some "dot") (Some output_path) =
  Some ("digraph Dependencies {" ++ nl
        ++ String.concat "" (map dot_line (relationships graph))
        ++ "}" ++ nl)
  /\ (relationships graph =
        [{| from := "A"; to := "B"; relationship_type := "imports";
            r_layer := LAYER_MODULE |}] ->
      exportGraph fopen_w (Some graph) (Some "dot") (Some output_path) =
      Some ("digraph Dependencies {" ++ nl
            ++ "  " ++ dq ++ "A" ++ dq ++ " -> " ++ dq ++ "B" ++ dq
            ++ " [label=" ++ dq ++ "imports" ++ dq ++ "];" ++ nl
            ++ "}" ++ nl)).
Proof.
  intros O.
  assert (G : exportGraph fopen_w (Some graph) (Some "dot") (Some output_path) =
              Some ("digraph Dependencies {" ++ nl
                    ++ String.concat "" (map dot_line (relationships graph))
                    ++ "}" ++ nl)).
  { unfold exportGraph. rewrite O. rewrite strcmp_refl.
    rewrite dot_relationships_lines. cbn [append]. now rewrite !append_assoc. }
  split; [exact G|].
  intros R. rewrite G, R. reflexivity.
Qed.

Lemma exportGraph_dot_witness :
  exportGraph (fun _ => true)
    (Some {| relationships :=
               [{| from := "A"; to := "B"; relationship_type := "imports";
                   r_layer := LAYER_MODULE |}];
             current_layer := LAYER_MODULE |})
    (Some "dot") (Some "deps.dot") =
  Some ("digraph Dependencies {" ++ nl
        ++ "  " ++ dq ++ "A" ++ dq ++ " -> " ++ dq ++ "B" ++ dq
        ++ " [label=" ++ dq ++ "imports" ++ dq ++ "];" ++ nl
        ++ "}" ++ nl).
Proof.
  apply (exportGraph_dot (fun _ => true) _ "deps.dot" eq_refl).
  reflexivity.
Defined.

(** ** The JSON export *)

Lemma json_relationships_elements (rels : list Relationship) (output : string) :
  json_relationships rels output = output ++ json_elements rels.
Proof.
  revert output. induction rels as [|rel rest IH]; intros output.
  - simpl. now rewrite append_empty_r.
  - cbn [json_relationships]. rewrite IH. unfold json_elements.
    destruct rest as [|rel' rest'].
    + cbn [map String.concat]. unfold json_object.
      rewrite !append_assoc. now rewrite append_empty_r.
    + change (String.concat ("," ++ nl) (map json_object (rel :: rel' :: rest')))
        with (json_object rel ++ ("," ++ nl)
              ++ String.concat ("," ++ nl) (map json_object (rel' :: rest'))).
      unfold json_object. now rewrite !append_assoc.
Qed.

(** X3: with the format "json", and when the output file can be opened,
    [exportGraph] writes an object with the one key "relationships", whose
    value is an array with one object per relationship in stored order; the
    objects are separated by a comma, and no comma follows the last, so the
    array is well formed for any number of relationships (none included). *)
Theorem exportGraph_json (fopen_w : string -> bool) (graph : DependencyGraph)
    (output_path : string) :
  fopen_w output_path = true ->
  exportGraph fopen_w (Some graph) (Some "json") (Some output_path) =
  Some ("{" ++ nl ++ "  " ++ dq ++ "relationships" ++ dq ++ ": [" ++ nl
        ++ json_elements (relationships graph)
        ++ "  ]" ++ nl ++ "}" ++ nl).
Proof.
  intros O. unfold exportGraph. rewrite O.
  change (strcmp "json" "dot" =? 0)%Z with false.
  rewrite strcmp_refl. cbn [append]. rewrite json_relationships_elements.
  now rewrite !append_assoc.
Qed.

Lemma exportGraph_json_witness :
  exportGraph (fun _ => true)
    (Some {| relationships :=
               [{| from := "A"; to := "B"; relationship_type := "imports";
                   r_layer := LAYER_MODULE |};
                {| from := "f"; to := "g"; relationship_type := "calls";
                   r_layer := LAYER_METHOD |}];
             current_layer := LAYER_MODULE |})
    (Some "json") (Some "deps.json") =
  Some ("{" ++ nl ++ "  " ++ dq ++ "relationships" ++ dq ++ ": [" ++ nl
        ++ "    {" ++ nl
        ++ "      " ++ dq ++ "from" ++ dq ++ ": " ++ dq ++ "A" ++ dq ++ "," ++ nl
        ++ "      " ++ dq ++ "to" ++ dq ++ ": " ++ dq ++ "B" ++ dq ++ "," ++ nl
        ++ "      " ++ dq ++ "type" ++ dq ++ ": " ++ dq ++ "imports" ++ dq ++ "," ++ nl
        ++ "      " ++ dq ++ "layer" ++ dq ++ ": 0" ++ nl
        ++ "    }," ++ nl
        ++ "    {" ++ nl
        ++ "      " ++ dq ++ "from" ++ dq ++ ": " ++ dq ++ "f" ++ dq ++ "," ++ nl
        ++ "      " ++ dq ++ "to" ++ dq ++ ": " ++ dq ++ "g" ++ dq ++ "," ++ nl
        ++ "      " ++ dq ++ "type" ++ dq ++ ": " ++ dq ++ "calls" ++ dq ++ "," ++ nl
        ++ "      " ++ dq ++ "layer" ++ dq ++ ": 2" ++ nl
        ++ "    }" ++ nl
        ++ "  ]" ++ nl ++ "}" ++ nl).
Proof.
  exact (exportGraph_json (fun _ => true) _ "deps.json" eq_refl).
Defined.

Lemma append_eq_empty (a b : string) : a ++ b = "" -> b = "".
Proof. destruct a; simpl; [tauto|discriminate]. Qed.

(** X4: [exportGraph] opens the output file for writing before it looks at
    the format.  Whatever the format, a file that can be opened is written
    (and so loses what it held); it is left empty exactly when the format
    is neither "dot" nor "json", which are compared as they are written:
    "DOT" is not "dot". *)
Theorem exportGraph_other_format (fopen_w : string -> bool) (graph : DependencyGraph)
    (format output_path : string) :
  fopen_w output_path = true ->
  exists content : string,
    exportGraph fopen_w (Some graph) (Some format) (Some output_path) = Some content
    /\ (content = "" <-> format <> "dot" /\ format <> "json").
Proof.
  intros O. unfold exportGraph. rewrite O.
  destruct (strcmp format "dot" =? 0)%Z eqn:D.
  - apply strcmp_eq_0 in D. subst format. eexists. split; [reflexivity|].
    split; [|intros [N _]; now elim N].
    intros E. apply append_eq_empty in E. discriminate E.
  - apply strcmp_neq_0 in D.
    destruct (strcmp format "json" =? 0)%Z eqn:J.
    + apply strcmp_eq_0 in J. subst format. eexists. split; [reflexivity|].
      split; [|intros [_ N]; now elim N].
      intros E. apply append_eq_empty in E. discriminate E.
    + apply strcmp_neq_0 in J. exists "". split; [reflexivity|]. tauto.
Qed.

Lemma exportGraph_other_format_witness :
  exists content : string,
    exportGraph (fun _ => true)
      (Some {| relationships :=
                 [{| from := "A"; to := "B"; relationship_type := "imports";
                     r_layer := LAYER_MODULE |}];
               current_layer := LAYER_MODULE |})
      (Some "DOT") (Some "deps.dot") = Some content
    /\ (content = "" <-> "DOT" <> "dot" /\ "DOT" <> "json").
Proof.
  exact (exportGraph_other_format (fun _ => true) _ "DOT" "deps.dot" eq_refl).
Defined.

(** ** The relationship graph *)

Lemma store_relationship_returns (capacity : nat) (rel : Relationship)
    (rels rels' : list Relationship) :
  store_relationship capacity rel rels = Returns rels' ->
  rels' = (rels ++ [rel])%list.
Proof.
  unfold store_relationship. destruct (length rels <? capacity)%nat; congruence.
Qed.

Lemma graph_structures_returns (capacity : nat) (sts : list Structure) :
  forall rels rels',
    graph_structures capacity sts rels = Returns rels' ->
    rels' = (rels ++ flat_map (fun st => relationship_from LAYER_STRUCT (s_name st)
                                           (s_dependencies st)) sts)%list.
Proof.
  induction sts as [|st rest IH]; intros rels rels' H; simpl in H.
  - injection H as <-. simpl. now rewrite app_nil_r.
  - cbn [flat_map].
    destruct (s_dependencies st) as [d|] eqn:D, (s_name st) as [n|] eqn:N;
      simpl in H; try discriminate.
    + destruct (store_relationship capacity _ rels) as [|r1] eqn:S1;
        simpl in H; [discriminate|].
      apply store_relationship_returns in S1. subst r1.
      apply IH in H. rewrite H, <- app_assoc. reflexivity.
    + apply IH in H. exact H.
    + apply IH in H. exact H.
Qed.

Lemma graph_methods_returns (capacity : nat) (ms : list Method) :
  forall rels rels',
    graph_methods capacity ms rels = Returns rels' ->
    rels' = (rels ++ flat_map (fun m => relationship_from LAYER_METHOD (m_name m)
                                          (m_dependencies m)) ms)%list.
Proof.
  induction ms as [|m rest IH]; intros rels rels' H; simpl in H.
  - injection H as <-. simpl. now rewrite app_nil_r.
  - cbn [flat_map].
    destruct (m_dependencies m) as [d|] eqn:D, (m_name m) as [n|] eqn:N;
      simpl in H; try discriminate.
    + destruct (store_relationship capacity _ rels) as [|r1] eqn:S1;
        simpl in H; [discriminate|].
      apply store_relationship_returns in S1. subst r1.
      apply IH in H. rewrite H, <- app_assoc. reflexivity.
    + apply IH in H. exact H.
    + apply IH in H. exact H.
Qed.

Lemma graph_dep_returns (capacity : nat) (dep : option ExtractedDependency)
    (rels rels' : list Relationship) :
  graph_dep capacity dep rels = Returns rels' ->
  rels' = (rels ++ relationships_of dep)%list.
Proof.
  destruct dep as [dep|]; cbn [graph_dep relationships_of]; intros H.
  - destruct (module_name dep) as [mn|] eqn:M, (file_path dep) as [fp|] eqn:F;
      simpl in H; try discriminate.
    + destruct (store_relationship capacity _ rels) as [|r1] eqn:S1;
        simpl in H; [discriminate|].
      apply store_relationship_returns in S1. subst r1.
      destruct (graph_structures capacity (structures dep) _) as [|r2] eqn:S2;
        simpl in H; [discriminate|].
      apply graph_structures_returns in S2. apply graph_methods_returns in H.
      subst. simpl. now rewrite <- !app_assoc.
    + destruct (graph_structures capacity (structures dep) rels) as [|r2] eqn:S2;
        simpl in H; [discriminate|].
      apply graph_structures_returns in S2. apply graph_methods_returns in H.
      subst. simpl. now rewrite <- !app_assoc.
    + destruct (graph_structures capacity (structures dep) rels) as [|r2] eqn:S2;
        simpl in H; [discriminate|].
      apply graph_structures_returns in S2. apply graph_methods_returns in H.
      subst. simpl. now rewrite <- !app_assoc.
  - injection H as <-. now rewrite app_nil_r.
Qed.

Lemma graph_deps_returns (capacity : nat) (deps : list (option ExtractedDependency)) :
  forall rels rels',
    graph_deps capacity deps rels = Returns rels' ->
    rels' = (rels ++ flat_map relationships_of deps)%list.
Proof.
  induction deps as [|dep rest IH]; intros rels rels' H; simpl in H.
  - injection H as <-. simpl. now rewrite app_nil_r.
  - destruct (graph_dep capacity dep rels) as [|r1] eqn:S1; simpl in H; [discriminate|].
    apply graph_dep_returns in S1. apply IH in H. subst.
    simpl. now rewrite <- app_assoc.
Qed.

Lemma relationship_from_kind (l : AnalysisLayer) (f t : option string) :
  Forall (fun r => r_layer r = l /\ relationship_type r = kind_of_layer l)
         (relationship_from l f t).
Proof.
  destruct f, t; simpl; repeat constructor.
Qed.

Lemma graph_structures_defined (capacity : nat) (sts : list Structure) :
  forall rels,
    Forall (fun st => s_dependencies st <> None -> s_name st <> None) sts ->
    length rels
    + length (flat_map (fun st => relationship_from LAYER_STRUCT (s_name st)
                                    (s_dependencies st)) sts) <= capacity ->
    exists rels', graph_structures capacity sts rels = Returns rels'.
Proof.
  induction sts as [|st rest IH]; intros rels N L; simpl.
  - eauto.
  - inversion N as [|? ? N1 N2]; subst. cbn [flat_map] in L.
    rewrite length_app in L.
    destruct (s_dependencies st) as [d|] eqn:D.
    + destruct (s_name st) as [n|] eqn:Nm; [|exfalso; now apply N1].
      cbn [relationship_from length] in L.
      cbn [strdup result_bind]. unfold store_relationship.
      destruct (Nat.ltb_spec (length rels) capacity) as [_|G]; [|lia].
      cbn [result_bind]. apply IH; [exact N2|]. rewrite length_app. simpl. lia.
    + apply IH; [exact N2|]. destruct (s_name st); simpl in L; lia.
Qed.

Lemma graph_methods_defined (capacity : nat) (ms : list Method) :
  forall rels,
    Forall (fun m => m_dependencies m <> None -> m_name m <> None) ms ->
    length rels
    + length (flat_map (fun m => relationship_from LAYER_METHOD (m_name m)
                                   (m_dependencies m)) ms) <= capacity ->
    exists rels', graph_methods capacity ms rels = Returns rels'.
Proof.
  induction ms as [|m rest IH]; intros rels N L; simpl.
  - eauto.
  - inversion N as [|? ? N1 N2]; subst. cbn [flat_map] in L.
    rewrite length_app in L.
    destruct (m_dependencies m) as [d|] eqn:D.
    + destruct (m_name m) as [n|] eqn:Nm; [|exfalso; now apply N1].
      cbn [relationship_from length] in L.
      cbn [strdup result_bind]. unfold store_relationship.
      destruct (Nat.ltb_spec (length rels) capacity) as [_|G]; [|lia].
      cbn [result_bind]. apply IH; [exact N2|]. rewrite length_app. simpl. lia.
    + apply IH; [exact N2|]. destruct (m_name m); simpl in L; lia.
Qed.

Lemma graph_dep_defined (capacity : nat) (dep : option ExtractedDependency)
    (rels : list Relationship) :
  named dep ->
  length rels + length (relationships_of dep) <= capacity ->
  exists rels', graph_dep capacity dep rels = Returns rels'.
Proof.
  destruct dep as [dep|]; cbn [graph_dep relationships_of named]; [|eauto].
  intros (N1 & N2 & N3) L. rewrite !length_app in L.
  assert (M : exists r1,
             match module_name dep with
             | Some _ =>
                 f <-r strdup (file_path dep) ;;
                 t <-r strdup (module_name dep) ;;
                 store_relationship capacity
                   {| from := f; to := t; relationship_type := "imports";
                      r_layer := LAYER_MODULE |} rels
             | None => Returns rels
             end = Returns r1
             /\ length r1 = length rels
                 + length (relationship_from LAYER_MODULE (file_path dep)
                                             (module_name dep))).
  { destruct (module_name dep) as [mn|] eqn:M.
    - destruct (file_path dep) as [fp|] eqn:F; [|exfalso; apply N1; congruence].
      simpl in *. unfold store_relationship.
      destruct (Nat.ltb_spec (length rels) capacity) as [_|G]; [|lia].
      eexists. split; [reflexivity|]. rewrite length_app. reflexivity.
    - exists rels. split; [reflexivity|]. destruct (file_path dep); simpl; lia. }
  destruct M as (r1 & -> & L1). simpl.
  destruct (graph_structures_defined capacity (structures dep) r1 N2) as [r2 S2];
    [lia|].
  rewrite S2. simpl.
  apply graph_methods_defined; [exact N3|].
  apply graph_structures_returns in S2. subst r2. rewrite length_app. lia.
Qed.

Lemma graph_deps_defined (capacity : nat) (deps : list (option ExtractedDependency)) :
  forall rels,
    Forall named deps ->
    length rels + length (flat_map relationships_of deps) <= capacity ->
    exists rels', graph_deps capacity deps rels = Returns rels'.
Proof.
  induction deps as [|dep rest IH]; intros rels N L; simpl.
  - eauto.
  - inversion N as [|? ? N1 N2]; subst. cbn [flat_map] in L.
    rewrite length_app in L.
    destruct (graph_dep_defined capacity dep rels N1) as [r1 S1]; [lia|].
    rewrite S1. simpl. apply IH; [exact N2|].
    apply graph_dep_returns in S1. subst r1. rewrite length_app. lia.
Qed.

(** C4: every relationship [create_dependency_graph] produces comes from a
    module-level, structure-level or method-level record, in that order for
    each entry of [deps]; its kind is "imports", "inherits" or "calls"
    accordingly and its layer is the layer of that record.  The call
    returns a graph whenever no name it copies is null and the
    relationships fit the array it allocates. *)
Theorem create_dependency_graph_kinds (deps : list (option ExtractedDependency)) :
  (forall g : DependencyGraph,
      create_dependency_graph (Some deps) = Returns (Some g) ->
      relationships g = flat_map relationships_of deps
      /\ Forall (fun r => relationship_type r = kind_of_layer (r_layer r))
                (relationships g))
  /\ (deps <> [] -> Forall named deps ->
      length (flat_map relationships_of deps) <= length deps * MAX_DEPENDENCIES ->
      exists g : DependencyGraph,
        create_dependency_graph (Some deps) = Returns (Some g)).
Proof.
  split.
  - intros g H. unfold create_dependency_graph in H.
    destruct deps as [|d0 rest]; [discriminate|].
    destruct (graph_deps _ (d0 :: rest) []) as [|rels] eqn:G; simpl in H;
      [discriminate|].
    injection H as <-. cbn [relationships].
    apply graph_deps_returns in G. rewrite app_nil_l in G. subst rels.
    split; [reflexivity|].
    apply Forall_flat_map. apply Forall_forall. intros [dep|] _; simpl; [|constructor].
    repeat (apply Forall_app; split).
    + eapply Forall_impl; [|apply relationship_from_kind].
      intros r [-> ->]. reflexivity.
    + apply Forall_flat_map. apply Forall_forall. intros st _.
      eapply Forall_impl; [|apply relationship_from_kind].
      intros r [-> ->]. reflexivity.
    + apply Forall_flat_map. apply Forall_forall. intros m _.
      eapply Forall_impl; [|apply relationship_from_kind].
      intros r [-> ->]. reflexivity.
  - intros NE N L. unfold create_dependency_graph.
    destruct deps as [|d0 rest]; [contradiction|].
    destruct (graph_deps_defined (length (d0 :: rest) * MAX_DEPENDENCIES)
                                 (d0 :: rest) [] N) as [rels G]; [simpl in *; lia|].
    rewrite G. simpl. eauto.
Qed.

Lemma create_dependency_graph_kinds_witness :
  exists g : DependencyGraph,
    create_dependency_graph (Some [Some Sample.extracted; None]) = Returns (Some g)
    /\ relationships g =
       [{| from := "proj/main.c"; to := "stdio.h"; relationship_type := "imports";
           r_layer := LAYER_MODULE |};
        {| from := "Derived"; to := "Base"; relationship_type := "inherits";
           r_layer := LAYER_STRUCT |};
        {| from := "main"; to := "helper"; relationship_type := "calls";
           r_layer := LAYER_METHOD |}].
Proof.
  destruct (create_dependency_graph_kinds [Some Sample.extracted; None]) as [A B].
  destruct B as [g G].
  - discriminate.
  - repeat constructor; simpl; congruence.
  - simpl. lia.
  - exists g. split; [exact G|]. rewrite (proj1 (A g G)). reflexivity.
Defined.

(** *** When the call is defined *)

Lemma store_relationship_fits (capacity : nat) (rel : Relationship)
    (rels rels' : list Relationship) :
  store_relationship capacity rel rels = Returns rels' -> length rels' <= capacity.
Proof.
  unfold store_relationship.
  destruct (Nat.ltb_spec (length rels) capacity) as [L|L]; [|discriminate].
  intros H. injection H as <-. rewrite length_app. simpl. lia.
Qed.

Lemma graph_structures_fits (capacity : nat) (sts : list Structure) :
  forall rels rels',
    graph_structures capacity sts rels = Returns rels' ->
    (length rels <= capacity -> length rels' <= capacity)
    /\ Forall (fun st => s_dependencies st <> None -> s_name st <> None) sts.
Proof.
  induction sts as [|st rest IH]; intros rels rels' H; simpl in H.
  - injection H as <-. split; [tauto|constructor].
  - destruct (s_dependencies st) as [d|] eqn:D.
    + destruct (s_name st) as [n|] eqn:N; simpl in H; [|discriminate].
      destruct (store_relationship capacity _ rels) as [|r1] eqn:S1;
        simpl in H; [discriminate|].
      apply store_relationship_fits in S1. destruct (IH _ _ H) as [B F].
      split; [intros _; now apply B|].
      constructor; [rewrite N; discriminate|exact F].
    + destruct (IH _ _ H) as [B F]. split; [exact B|].
      constructor; [intros C; now elim C|exact F].
Qed.

Lemma graph_methods_fits (capacity : nat) (ms : list Method) :
  forall rels rels',
    graph_methods capacity ms rels = Returns rels' ->
    (length rels <= capacity -> length rels' <= capacity)
    /\ Forall (fun m => m_dependencies m <> None -> m_name m <> None) ms.
Proof.
  induction ms as [|m rest IH]; intros rels rels' H; simpl in H.
  - injection H as <-. split; [tauto|constructor].
  - destruct (m_dependencies m) as [d|] eqn:D.
    + destruct (m_name m) as [n|] eqn:N; simpl in H; [|discriminate].
      destruct (store_relationship capacity _ rels) as [|r1] eqn:S1;
        simpl in H; [discriminate|].
      apply store_relationship_fits in S1. destruct (IH _ _ H) as [B F].
      split; [intros _; now apply B|].
      constructor; [rewrite N; discriminate|exact F].
    + destruct (IH _ _ H) as [B F]. split; [exact B|].
      constructor; [intros C; now elim C|exact F].
Qed.

Lemma graph_dep_fits (capacity : nat) (dep : option ExtractedDependency)
    (rels rels' : list Relationship) :
  graph_dep capacity dep rels = Returns rels' ->
  (length rels <= capacity -> length rels' <= capacity) /\ named dep.
Proof.
  destruct dep as [dep|]; cbn [graph_dep named]; intros H.
  - destruct (match module_name dep with
              | Some _ => _
              | None => Returns rels
              end) as [|r1] eqn:M; simpl in H; [discriminate|].
    destruct (graph_structures capacity (structures dep) r1) as [|r2] eqn:S2;
      simpl in H; [discriminate|].
    destruct (graph_structures_fits _ _ _ _ S2) as [B2 F2].
    destruct (graph_methods_fits _ _ _ _ H) as [B3 F3].
    assert (M1 : (length rels <= capacity -> length r1 <= capacity)
                 /\ (module_name dep <> None -> file_path dep <> None)).
    { destruct (module_name dep) as [mn|].
      - destruct (file_path dep) as [fp|]; simpl in M; [|discriminate].
        apply store_relationship_fits in M. split; [tauto|discriminate].
      - injection M as <-. split; [tauto|]. intros C. now elim C. }
    destruct M1 as [B1 F1]. repeat split; auto.
  - injection H as <-. tauto.
Qed.

Lemma graph_deps_fits (capacity : nat) (deps : list (option ExtractedDependency)) :
  forall rels rels',
    graph_deps capacity deps rels = Returns rels' ->
    (length rels <= capacity -> length rels' <= capacity) /\ Forall named deps.
Proof.
  induction deps as [|dep rest IH]; intros rels rels' H; simpl in H.
  - injection H as <-. split; [tauto|constructor].
  - destruct (graph_dep capacity dep rels) as [|r1] eqn:S1; simpl in H; [discriminate|].
    destruct (graph_dep_fits _ _ _ _ S1) as [B1 F1].
    destruct (IH _ _ H) as [B F]. split; [tauto|]. now constructor.
Qed.

(** X5: the array [create_dependency_graph] allocates has 64 slots per
    entry of [deps], shared by all entries, and nothing checks the index it
    writes to.  The call returns a graph exactly when [deps] has an entry,
    every record that has the text it depends on has its name, and the
    relationships fit the array; in every other case with an entry it
    writes past the array or copies a null name, which is undefined. *)
Theorem create_dependency_graph_defined (deps : list (option ExtractedDependency)) :
  ((exists g : DependencyGraph, create_dependency_graph (Some deps) = Returns (Some g))
   <-> deps <> [] /\ Forall named deps
       /\ length (flat_map relationships_of deps) <= length deps * MAX_DEPENDENCIES)
  /\ (deps <> [] ->
      ~ (Forall named deps
         /\ length (flat_map relationships_of deps) <= length deps * MAX_DEPENDENCIES) ->
      create_dependency_graph (Some deps) = Undefined).
Proof.
  assert (R : forall g, create_dependency_graph (Some deps) = Returns (Some g) ->
              deps <> [] /\ Forall named deps
              /\ length (flat_map relationships_of deps)
                 <= length deps * MAX_DEPENDENCIES).
  { intros g H. unfold create_dependency_graph in H.
    destruct deps as [|d0 rest]; [discriminate|].
    destruct (graph_deps _ (d0 :: rest) []) as [|rels] eqn:G; simpl in H;
      [discriminate|].
    split; [discriminate|].
    destruct (graph_deps_fits _ _ _ _ G) as [B F]. split; [exact F|].
    apply graph_deps_returns in G. rewrite app_nil_l in G. subst rels.
    apply B. simpl. lia. }
  split; [split|].
  - intros [g H]. exact (R g H).
  - intros (NE & N & L). unfold create_dependency_graph.
    destruct deps as [|d0 rest]; [contradiction|].
    destruct (graph_deps_defined (length (d0 :: rest) * MAX_DEPENDENCIES)
                                 (d0 :: rest) [] N) as [rels G]; [simpl in *; lia|].
    rewrite G. simpl. eauto.
  - intros NE C.
    destruct (create_dependency_graph (Some deps)) as [|[g|]] eqn:H; [reflexivity| |].
    + exfalso. apply C. destruct (R g eq_refl) as (_ & N & L). now split.
    + exfalso. unfold create_dependency_graph in H.
      destruct deps as [|d0 rest]; [contradiction|].
      destruct (graph_deps _ (d0 :: rest) []); simpl in H; discriminate.
Qed.

(** ** Commands *)

Lemma bind_run {A B : Type} (m : Cmd A) (k : A -> Cmd B) (s : Store Registry) :
  bind m k s =
  (value (k (value (m s)) (store_of (m s))),
   store_of (k (value (m s)) (store_of (m s))),
   (events (m s) ++ events (k (value (m s)) (store_of (m s))))%list).
Proof.
  unfold bind, value, store_of, events.
  destruct (m s) as [[a s1] t1]. simpl.
  destruct (k a s1) as [[b s2] t2]. reflexivity.
Qed.

Lemma string_length_append (a b : string) :
  String.length (a ++ b) = String.length a + String.length b.
Proof. induction a as [|c a IH]; simpl; [reflexivity|now rewrite IH]. Qed.

Lemma value_bind {A B : Type} (m : Cmd A) (k : A -> Cmd B) (s : Store Registry) :
  value (bind m k s) = value (k (value (m s)) (store_of (m s))).
Proof. now rewrite bind_run. Qed.

Lemma store_bind {A B : Type} (m : Cmd A) (k : A -> Cmd B) (s : Store Registry) :
  store_of (bind m k s) = store_of (k (value (m s)) (store_of (m s))).
Proof. now rewrite bind_run. Qed.

Lemma events_bind {A B : Type} (m : Cmd A) (k : A -> Cmd B) (s : Store Registry) :
  events (bind m k s) =
  (events (m s) ++ events (k (value (m s)) (store_of (m s))))%list.
Proof. now rewrite bind_run. Qed.

Lemma store_logr (lvl : LogLevel) (format : string) (args : list LogArg)
    (s : Store Registry) :
  store_of (logr lvl format args s) = s.
Proof. reflexivity. Qed.

Lemma value_ret {A : Type} (a : A) (s : Store Registry) : value (ret a s) = a.
Proof. reflexivity. Qed.

Lemma store_ret {A : Type} (a : A) (s : Store Registry) : store_of (ret a s) = s.
Proof. reflexivity. Qed.

Lemma events_ret {A : Type} (a : A) (s : Store Registry) : events (ret a s) = [].
Proof. reflexivity. Qed.

Lemma events_logr (lvl : LogLevel) (format : string) (args : list LogArg)
    (s : Store Registry) :
  events (logr lvl format args s) = [Logr lvl format args].
Proof. reflexivity. Qed.

Create Rewrite HintDb cmd.
#[local] Hint Rewrite @value_bind @store_bind @events_bind store_logr @value_ret
  @store_ret @events_ret events_logr : cmd.

(** ** The cross-reference pass *)

Lemma check_type_dependency_step (curr_dep : ExtractedDependency)
    (curr_struct : Structure) (text : string) (s : Store Registry) :
  s_dependencies curr_struct = Some text ->
  value (check_type_dependency curr_dep curr_struct s) =
    (if target_occurs text curr_dep
     then set_s_dependencies (Some (stamped curr_dep text)) curr_struct
     else curr_struct)
  /\ store_of (check_type_dependency curr_dep curr_struct s) = s.
Proof.
  intros D. unfold check_type_dependency, target_occurs.
  autorewrite with cmd. rewrite D.
  destruct (target curr_dep) as [tgt|]; [|split; reflexivity].
  destruct (strstr text tgt); [|split; reflexivity].
  autorewrite with cmd.
  rewrite snprintf_trunc_fits; [split; reflexivity|].
  rewrite !string_length_append. simpl. lia.
Qed.

Lemma resolve_type_sources_unmatched (type_deps : list ExtractedDependency)
    (curr_struct : Structure) (text : string) (s : Store Registry) :
  s_dependencies curr_struct = Some text ->
  Forall (fun m => target_occurs text m = false) type_deps ->
  value (resolve_type_sources type_deps curr_struct s) = curr_struct
  /\ store_of (resolve_type_sources type_deps curr_struct s) = s.
Proof.
  intros D F. unfold resolve_type_sources.
  induction F as [|m rest M F IH]; [split; reflexivity|].
  cbn [fold_cmd]. autorewrite with cmd.
  destruct (check_type_dependency_step m curr_struct text s D) as [V S].
  rewrite V, S, M. exact IH.
Qed.

(** C2, as amended: the pass checks the module records in order, each
    against the text the previous ones left.  A record whose target is not
    null and occurs in the text replaces it by "<path>:<text>" (the path
    read as empty when null); so when no record before it matches the
    original text and no record after it matches the stamped text, the pass
    leaves "<path>:<original text>", and nothing of the store changes. *)
Theorem resolve_type_sources_stamp
    (before after : list ExtractedDependency) (curr_dep : ExtractedDependency)
    (curr_struct : Structure) (text tgt : string) (s : Store Registry) :
  s_dependencies curr_struct = Some text ->
  target curr_dep = Some tgt ->
  strstr text tgt = true ->
  Forall (fun m => target_occurs text m = false) before ->
  Forall (fun m => target_occurs (stamped curr_dep text) m = false) after ->
  s_dependencies (value (check_type_dependency curr_dep curr_struct s)) =
    Some (or_empty (file_path curr_dep) ++ ":" ++ text)
  /\ s_dependencies
       (value (resolve_type_sources (before ++ curr_dep :: after) curr_struct s)) =
     Some (or_empty (file_path curr_dep) ++ ":" ++ text)
  /\ store_of (resolve_type_sources (before ++ curr_dep :: after) curr_struct s) = s.
Proof.
  intros D T M B Af.
  assert (O : target_occurs text curr_dep = true).
  { unfold target_occurs. now rewrite T. }
  destruct (check_type_dependency_step curr_dep curr_struct text s D) as [V S].
  rewrite O in V.
  split; [rewrite V; reflexivity|].
  unfold resolve_type_sources.
  induction B as [|m rest Mm B IH]; cbn [app fold_cmd]; autorewrite with cmd.
  - rewrite V, S.
    destruct (resolve_type_sources_unmatched after
                (set_s_dependencies (Some (stamped curr_dep text)) curr_struct)
                (stamped curr_dep text) s eq_refl Af) as [V' S'].
    unfold resolve_type_sources in V', S'.
    rewrite V', S'. split; reflexivity.
  - destruct (check_type_dependency_step m curr_struct text s D) as [Vm Sm].
    rewrite Vm, Sm, Mm. exact IH.
Qed.

(** ** Merging into the graph *)

Lemma update_nth_last (f : Dependency -> Dependency) (h : list Dependency)
    (d : Dependency) :
  update_nth (length h) f (h ++ [d]) = (h ++ [f d])%list.
Proof. induction h as [|x h IH]; simpl; [reflexivity|now rewrite IH]. Qed.

Lemma heap_get_last (h : list Dependency) (d : Dependency) :
  heap_get (h ++ [d]) (S (length h)) = Some d.
Proof.
  simpl. rewrite nth_error_app2 by lia. now rewrite Nat.sub_diag.
Qed.

Lemma heap_get_old (h : list Dependency) (d : Dependency) (p : ptr) :
  allocated h p -> heap_get (h ++ [d]) p = heap_get h p.
Proof.
  unfold allocated. destruct p as [|i]; [lia|]. intros [_ L]. simpl.
  apply nth_error_app1. lia.
Qed.

Lemma graphMethods_run (file_path : string) (m : Method) (ms : list Method)
    (s : Store Registry) :
  graphMethods CrawlerAt (Some file_path) (m :: ms) s =
  (tt,
   {| crawler := {| root_directories := root_directories (crawler s);
                    analysis_config := analysis_config (crawler s);
                    dependency_graph := S (length (heap s)) |};
      heap := (heap s ++ [method_node file_path (m :: ms)
                                      (dependency_graph (crawler s))])%list;
      registry := registry s |},
   [Logr VERBOSE "[Crawler] Adding methods to dependency graph from %s"
         [ArgS (Some file_path)];
    Logr DEBUG "[Crawler] Added %d methods from %s to dependency graph"
         [ArgD (countMethods X (m :: ms)); ArgS (Some file_path)]]).
Proof.
  destruct s as [c h r]. unfold graphMethods, bind, logr, on_heap, assign,
    get_dependency_graph, set_dependency_graph, malloc_Dependency.
  cbn -[update_nth Nat.eqb]. rewrite !update_nth_last.
  unfold NULL. destruct (dependency_graph c) as [|g]; cbn -[update_nth].
  - reflexivity.
  - rewrite update_nth_last. reflexivity.
Qed.

Lemma merge_extracted_empty (created added : string) (dep : ExtractedDependency)
    (s : Store Registry) :
  dependency_graph (crawler s) = NULL ->
  merge_extracted created added dep s =
  (tt,
   {| crawler := {| root_directories := root_directories (crawler s);
                    analysis_config := analysis_config (crawler s);
                    dependency_graph :=
                      fst (create_dependency_from_extracted X dep (heap s)) |};
      heap := snd (create_dependency_from_extracted X dep (heap s));
      registry := registry s |},
   [Logr VERBOSE created []]).
Proof.
  intros G. unfold merge_extracted, bind, get_dependency_graph, on_heap,
    set_dependency_graph, logr.
  rewrite G. cbn [Nat.eqb NULL].
  destruct (create_dependency_from_extracted X dep (heap s)) as [p h']. reflexivity.
Qed.

Lemma merge_extracted_nonempty (created added : string) (dep : ExtractedDependency)
    (s : Store Registry) :
  dependency_graph (crawler s) <> NULL ->
  merge_extracted created added dep s =
  (tt,
   {| crawler := crawler s;
      heap := graphDependency X (dependency_graph (crawler s)) dep (heap s);
      registry := registry s |},
   [Logr VERBOSE added []]).
Proof.
  intros G. unfold merge_extracted, bind, get_dependency_graph, on_heap, logr.
  destruct (Nat.eqb_spec (dependency_graph (crawler s)) NULL) as [E|_];
    [contradiction|reflexivity].
Qed.

(** C1, as amended: [graphMethods] puts its new node, at an address not in
    use before, at the head of the graph, with the previous head (null for
    an empty graph) as its [next], and leaves the other nodes as they
    were.  A module or structure record merged by [processLayer] into an
    empty graph makes the node [create_dependency_from_extracted] returns
    the root; into a graph that is not empty, the head is handed to
    [graphDependency] by value and [crawler->dependency_graph] keeps
    pointing to the same node. *)
Theorem graph_merge_head :
  (forall (file_path : string) (m : Method) (ms : list Method) (s : Store Registry),
      let s' := store_of (graphMethods CrawlerAt (Some file_path) (m :: ms) s) in
      let dep := dependency_graph (crawler s') in
      ~ allocated (heap s) dep
      /\ heap_get (heap s') dep =
         Some (method_node file_path (m :: ms) (dependency_graph (crawler s)))
      /\ (forall p : ptr, allocated (heap s) p ->
                          heap_get (heap s') p = heap_get (heap s) p))
  /\ (forall (created added : string) (dep : ExtractedDependency) (s : Store Registry),
      let s' := store_of (merge_extracted created added dep s) in
      (dependency_graph (crawler s) = NULL ->
       dependency_graph (crawler s') =
         fst (create_dependency_from_extracted X dep (heap s))
       /\ heap s' = snd (create_dependency_from_extracted X dep (heap s)))
      /\ (dependency_graph (crawler s) <> NULL ->
          dependency_graph (crawler s') = dependency_graph (crawler s)
          /\ heap s' = graphDependency X (dependency_graph (crawler s)) dep (heap s))).
Proof.
  split.
  - intros file_path m ms s s' dep. subst dep s'.
    rewrite graphMethods_run. cbn [store_of fst snd crawler heap dependency_graph].
    split; [unfold allocated; lia|]. split.
    + apply heap_get_last.
    + intros p A. now apply heap_get_old.
  - intros created added dep s s'. subst s'. split; intros G.
    + rewrite (merge_extracted_empty created added dep s G). split; reflexivity.
    + rewrite (merge_extracted_nonempty created added dep s G). split; reflexivity.
Qed.

(** ** Files that are not processed *)

Lemma non_source_extension_skipped (ext : string) :
  In (strlower ext) non_source_extensions ->
  skipped_extension ext = true /\ strrchr ext "." = None.
Proof.
  intros I. split.
  - unfold skipped_extension, strcasecmp. simpl in I.
    repeat (destruct I as [<-|I]; [vm_compute; reflexivity|]). contradiction.
  - apply strrchr_strlower_None. simpl in I.
    repeat (destruct I as [<-|I]; [reflexivity|]). contradiction.
Qed.

Lemma processFile_no_extension (path : string) (s : Store Registry) :
  strrchr path "." = None ->
  processFile CrawlerAt (Some path) s =
  (tt, s, [Logr DEBUG "[Crawler] Skipping file without extension: %s"
                [ArgS (Some path)]]).
Proof. intros D. unfold processFile. now rewrite D. Qed.

Lemma processFile_skipped_extension (base ext : string) (s : Store Registry) :
  strrchr ext "." = None -> skipped_extension ext = true ->
  processFile CrawlerAt (Some (base ++ "." ++ ext)) s =
  (tt, s, [Logr DEBUG "[Crawler] Skipping non-source file: %s"
                [ArgS (Some (base ++ "." ++ ext))]]).
Proof.
  intros D K. unfold processFile.
  rewrite (strrchr_final_extension base ext D). cbn [skip1 append].
  now rewrite K.
Qed.

Lemma processFile_source (path ext bytes : string) (grammar : Grammar)
    (s : Store Registry) :
  strrchr path "." = Some ext -> skipped_extension (skip1 ext) = false ->
  fopen fs path = Some bytes ->
  languageGrammars X (fst (languageType (Some path))) = Some grammar ->
  store_of (processFile CrawlerAt (Some path) s) =
  store_of (processLayer CrawlerAt (Some path) (Some (c_str bytes)) (Some grammar) s).
Proof.
  intros D K O G. unfold processFile. rewrite D, K.
  autorewrite with cmd.
  assert (V : value (sys_fopen path s) = Some bytes) by exact O.
  rewrite V. autorewrite with cmd.
  assert (L : value (lift_log (languageType (Some path)) (store_of (sys_fopen path s)))
              = fst (languageType (Some path))) by reflexivity.
  rewrite L, G. reflexivity.
Qed.

Lemma skipped_extension_in (ext : string) :
  skipped_extension ext = true -> In (strlower ext) non_source_extensions.
Proof.
  unfold skipped_extension, strcasecmp. intros H.
  repeat (apply orb_true_iff in H; destruct H as [H|H]);
    apply strcmp_eq_0 in H; rewrite H; vm_compute; tauto.
Qed.

(** X2: the test for a missing extension looks at the whole path.  Below a
    directory whose name has a dot (the root "." is one), a file with no
    dot in its name is not skipped: [processFile] goes on to open it. *)
Theorem processFile_below_dotted_directory (dir name : string) (s : Store Registry) :
  strrchr dir "." <> None -> strrchr name "." = None ->
  In (SysFopen (dir ++ "/" ++ name))
     (events (processFile CrawlerAt (Some (dir ++ "/" ++ name)) s)).
Proof.
  intros Hdir Hname.
  assert (Hd : strrchr ("/" ++ name) "." = None) by (simpl; now rewrite Hname).
  pose proof (strrchr_app_none dir _ "." Hd) as E.
  destruct (strrchr dir ".") as [t0|] eqn:P; [|now elim Hdir].
  cbn [option_map] in E.
  apply strrchr_split in P. destruct P as (pre & rest & _ & -> & Hr).
  assert (K : skipped_extension (rest ++ "/" ++ name) = false).
  { destruct (skipped_extension (rest ++ "/" ++ name)) eqn:K; [|reflexivity].
    apply skipped_extension_in in K. exfalso.
    assert (N : strrchr (strlower (rest ++ "/" ++ name)) "/" = None).
    { unfold non_source_extensions in K. cbn [In] in K.
      repeat (destruct K as [<-|K]; [reflexivity|]). contradiction. }
    apply strrchr_strlower_slash in N.
    assert (Hs : strrchr ("/" ++ name) "/" <> None).
    { simpl. destruct (strrchr name "/"); discriminate. }
    destruct (strrchr ("/" ++ name) "/") as [t|] eqn:Q; [|contradiction].
    rewrite (strrchr_app_some rest _ t "/" Q) in N. discriminate. }
  unfold processFile. rewrite E.
  change (skip1 (String "." rest ++ "/" ++ name)) with (rest ++ "/" ++ name).
  rewrite K.
  rewrite !events_bind. apply in_or_app. right. apply in_or_app. left.
  left. reflexivity.
Qed.

(** C9: for a path with no dot, [processFile] logs that it skips the file
    and returns: the store (graph, heap, analyzers' tables) is unchanged
    and no file is opened; [languageType] on the same path would give the
    default language. *)
Theorem processFile_without_extension (path : string) (s : Store Registry) :
  strrchr path "." = None ->
  processFile CrawlerAt (Some path) s =
    (tt, s, [Logr DEBUG "[Crawler] Skipping file without extension: %s"
                  [ArgS (Some path)]])
  /\ ~ In (SysFopen path) (events (processFile CrawlerAt (Some path) s))
  /\ fst (languageType (Some path)) = LANG_RUST.
Proof.
  intros D. rewrite (processFile_no_extension path s D).
  split; [reflexivity|]. split.
  - simpl. intros [E|[]]. discriminate.
  - unfold languageType. now rewrite D.
Qed.

(** ** The walk *)

Lemma bindF_lift {A B : Type} (m : Cmd A) (k : A -> CmdF B) (s : Store Registry) :
  bindF (liftF m) k s = emit_before (events (m s)) (k (value (m s)) (store_of (m s))).
Proof.
  unfold bindF, liftF, emit_before, events, value, store_of.
  destruct (m s) as [[a s1] t1]. simpl. destruct (k a s1); reflexivity.
Qed.

Lemma liftF_run {A : Type} (m : Cmd A) (s : Store Registry) :
  liftF m s = Done (value (m s)) (store_of (m s)) (events (m s)).
Proof.
  unfold liftF, events, value, store_of. destruct (m s) as [[a s1] t1]. reflexivity.
Qed.

Lemma emit_before_app {A : Type} (t1 t2 : list Event) (r : Run A) :
  emit_before t1 (emit_before t2 r) = emit_before (t1 ++ t2) r.
Proof. destruct r; simpl; [reflexivity|reflexivity|now rewrite app_assoc]. Qed.

Lemma emit_before_nil {A : Type} (r : Run A) : emit_before [] r = r.
Proof. destruct r; reflexivity. Qed.

Lemma bindF_done {A B : Type} (m : CmdF A) (k : A -> CmdF B) (s s1 : Store Registry)
    (a : A) (t1 : list Event) :
  m s = Done a s1 t1 -> bindF m k s = emit_before t1 (k a s1).
Proof. intros H. unfold bindF. rewrite H. destruct (k a s1); reflexivity. Qed.

Lemma crawlDir_unstatable (fuel : nat) (path : string) (s : Store Registry) :
  stat fs path = None ->
  crawlDir (S fuel) CrawlerAt (Some path) s =
  Done tt s [SysStat path;
             Logr ERROR "[Crawler] Failed to stat path: %s" [ArgS (Some path)]].
Proof.
  intros H. cbn [crawlDir]. rewrite bindF_lift.
  unfold sys_stat at 2 3. cbn [value store_of fst snd]. rewrite H.
  reflexivity.
Qed.

Lemma crawlDir_regular (fuel : nat) (path : string) (s : Store Registry) :
  stat fs path = Some S_IFREG ->
  crawlDir (S fuel) CrawlerAt (Some path) s =
  Done tt (store_of (processFile CrawlerAt (Some path) s))
       (SysStat path
        :: Logr DEBUG "[Crawler] Processing file: %s" [ArgS (Some path)]
        :: events (processFile CrawlerAt (Some path) s)).
Proof.
  intros H. cbn [crawlDir]. rewrite bindF_lift.
  unfold sys_stat at 2 3. cbn [value store_of fst snd]. rewrite H.
  rewrite liftF_run. autorewrite with cmd.
  destruct (processFile CrawlerAt (Some path) s) as [[[] s1] t1]. reflexivity.
Qed.

Lemma crawlDir_other (fuel : nat) (path : string) (s : Store Registry) :
  stat fs path = Some S_IFOTHER ->
  crawlDir (S fuel) CrawlerAt (Some path) s =
  Done tt s [SysStat path;
             Logr DEBUG "[Crawler] Skipping non-regular file/directory: %s"
                  [ArgS (Some path)]].
Proof.
  intros H. cbn [crawlDir]. rewrite bindF_lift.
  unfold sys_stat at 2 3. cbn [value store_of fst snd]. rewrite H.
  reflexivity.
Qed.

Lemma crawlDir_unopenable (fuel : nat) (path : string) (s : Store Registry) :
  stat fs path = Some S_IFDIR -> opendir fs path = None ->
  crawlDir (S fuel) CrawlerAt (Some path) s =
  Done tt s [SysStat path;
             Logr INFO "[Crawler] Opening directory: %s" [ArgS (Some path)];
             SysOpendir path;
             Logr ERROR "[Crawler] Failed to open directory: %s" [ArgS (Some path)]].
Proof.
  intros H O. cbn [crawlDir]. rewrite bindF_lift.
  unfold sys_stat at 2 3. cbn [value store_of fst snd]. rewrite H.
  rewrite !bindF_lift. unfold sys_opendir at 2 3.
  cbn [value store_of fst snd logr]. rewrite O. reflexivity.
Qed.

Lemma crawlDir_directory (fuel : nat) (path : string) (entries : list string)
    (s : Store Registry) :
  stat fs path = Some S_IFDIR -> opendir fs path = Some entries ->
  skipped_directory (last_component path) = false ->
  crawlDir (S fuel) CrawlerAt (Some path) s =
  emit_before
    [SysStat path;
     Logr INFO "[Crawler] Opening directory: %s" [ArgS (Some path)];
     SysOpendir path]
    (foreachF entries (crawl_entry (crawlDir fuel CrawlerAt) path) s).
Proof.
  intros H O K. cbn [crawlDir]. rewrite bindF_lift.
  unfold sys_stat at 2 3. cbn [value store_of fst snd]. rewrite H.
  rewrite !bindF_lift. unfold sys_opendir at 2 3.
  cbn [value store_of fst snd logr]. rewrite O, K.
  cbn [events snd sys_stat sys_opendir logr].
  now rewrite !emit_before_app.
Qed.

Lemma foreachF_cons {A : Type} (a : A) (rest : list A) (body : A -> CmdF unit)
    (s s1 : Store Registry) (t1 : list Event) :
  body a s = Done tt s1 t1 ->
  foreachF (a :: rest) body s = emit_before t1 (foreachF rest body s1).
Proof.
  intros H. cbn [foreachF].
  exact (bindF_done (body a) (fun _ => foreachF rest body) s s1 tt t1 H).
Qed.

Lemma crawl_entry_hidden (recurse : option string -> CmdF unit) (path d_name : string)
    (s : Store Registry) :
  hidden_entry d_name = true -> crawl_entry recurse path d_name s = Done tt s [].
Proof. intros H. unfold crawl_entry. now rewrite H. Qed.

Lemma crawl_entry_visible (recurse : option string -> CmdF unit) (path d_name : string)
    (s : Store Registry) :
  hidden_entry d_name = false ->
  crawl_entry recurse path d_name s =
  emit_before
    [Logr DEBUG "[Crawler] Found entry: %s"
          [ArgS (Some (snprintf_trunc 1024 (path ++ "/" ++ d_name)))]]
    (recurse (Some (snprintf_trunc 1024 (path ++ "/" ++ d_name))) s).
Proof.
  intros H. unfold crawl_entry. rewrite H. now rewrite bindF_lift.
Qed.

(** ** Paths that cannot be read *)

Lemma processFile_unopenable (path : string) (s : Store Registry) :
  fopen fs path = None ->
  store_of (processFile CrawlerAt (Some path) s) = s
  /\ logged path (events (processFile CrawlerAt (Some path) s))
  /\ (forall ext, strrchr path "." = Some ext -> skipped_extension (skip1 ext) = false ->
      In (Logr ERROR "[Crawler] Failed to open file: %s" [ArgS (Some path)])
         (events (processFile CrawlerAt (Some path) s))).
Proof.
  intros O. unfold processFile.
  destruct (strrchr path ".") as [ext|] eqn:D.
  - destruct (skipped_extension (skip1 ext)) eqn:K.
    + split; [reflexivity|]. split.
      * do 3 eexists. left. reflexivity.
      * intros ext' E K'. injection E as <-. congruence.
    + autorewrite with cmd.
      assert (V : value (sys_fopen path s) = None) by exact O.
      rewrite V. autorewrite with cmd.
      split; [reflexivity|]. split.
      * do 3 eexists. left. reflexivity.
      * intros _ _ _. cbn. right. right. left. reflexivity.
  - split; [reflexivity|]. split.
    + do 3 eexists. left. reflexivity.
    + intros ext' E. discriminate.
Qed.

Lemma crawlDir_unreadable (fuel : nat) (path : string) (s : Store Registry) :
  unreadable path ->
  exists t, crawlDir (S fuel) CrawlerAt (Some path) s = Done tt s t /\ logged path t.
Proof.
  intros [H|[[H O]|[H O]]].
  - rewrite (crawlDir_unstatable fuel path s H). eexists. split; [reflexivity|].
    do 3 eexists. right. left. reflexivity.
  - rewrite (crawlDir_unopenable fuel path s H O). eexists. split; [reflexivity|].
    do 3 eexists. right. left. reflexivity.
  - rewrite (crawlDir_regular fuel path s H).
    destruct (processFile_unopenable path s O) as (S1 & L & _).
    rewrite S1. eexists. split; [reflexivity|].
    do 3 eexists. right. left. reflexivity.
Qed.

(** C6: a path that cannot be stat'ed, a directory that cannot be opened and
    a regular file that cannot be opened each make [crawlDir] log the path
    and return with the store unchanged, so what earlier files merged is
    still there; the loop of [crawlDeps] then goes on with the next root,
    and the loop over a directory with its next entry, exactly as if they
    had started there. *)
Theorem unreadable_path_skipped (fuel : nat) (path : string) (s : Store Registry) :
  (stat fs path = None ->
   crawlDir (S fuel) CrawlerAt (Some path) s =
   Done tt s [SysStat path;
              Logr ERROR "[Crawler] Failed to stat path: %s" [ArgS (Some path)]])
  /\ (stat fs path = Some S_IFDIR -> opendir fs path = None ->
      crawlDir (S fuel) CrawlerAt (Some path) s =
      Done tt s [SysStat path;
                 Logr INFO "[Crawler] Opening directory: %s" [ArgS (Some path)];
                 SysOpendir path;
                 Logr ERROR "[Crawler] Failed to open directory: %s"
                      [ArgS (Some path)]])
  /\ (stat fs path = Some S_IFREG -> fopen fs path = None ->
      exists t,
        crawlDir (S fuel) CrawlerAt (Some path) s = Done tt s t
        /\ logged path t
        /\ (forall ext, strrchr path "." = Some ext ->
                        skipped_extension (skip1 ext) = false ->
            In (Logr ERROR "[Crawler] Failed to open file: %s" [ArgS (Some path)]) t))
  /\ (unreadable path ->
      forall (i : Z) (rest : list (option string)),
      exists t,
        logged path t
        /\ crawl_roots (S fuel) CrawlerAt i (Some path :: rest) s =
           emit_before t (crawl_roots (S fuel) CrawlerAt (i + 1) rest s))
  /\ (forall (dir d_name : string) (rest : list string),
      hidden_entry d_name = false ->
      path = snprintf_trunc 1024 (dir ++ "/" ++ d_name) ->
      unreadable path ->
      exists t,
        logged path t
        /\ foreachF (d_name :: rest) (crawl_entry (crawlDir (S fuel) CrawlerAt) dir) s =
           emit_before t
             (foreachF rest (crawl_entry (crawlDir (S fuel) CrawlerAt) dir) s)).
Proof.
  split; [apply crawlDir_unstatable|]. split; [apply crawlDir_unopenable|].
  split; [|split].
  - intros H O. rewrite (crawlDir_regular fuel path s H).
    destruct (processFile_unopenable path s O) as (S1 & L & E).
    rewrite S1. eexists. split; [reflexivity|]. split.
    + do 3 eexists. right. left. reflexivity.
    + intros ext D K. right. right. now apply (E ext).
  - intros U i rest.
    destruct (crawlDir_unreadable fuel path s U) as (t & R & L).
    exists (Logr DEBUG "[Crawler] Processing directory %d: %s"
                 [ArgD i; ArgS (Some path)] :: t).
    split.
    + destruct L as (lvl & format & args & I). do 3 eexists. right. exact I.
    + cbn [crawl_roots]. rewrite bindF_lift. cbn [events value store_of fst snd logr].
      rewrite (bindF_done _ _ s s tt t R). now rewrite emit_before_app.
  - intros dir d_name rest Hd -> U.
    destruct (crawlDir_unreadable fuel _ s U) as (t & R & L).
    eexists. split; [|apply foreachF_cons; rewrite crawl_entry_visible by exact Hd;
                       rewrite R; reflexivity].
    destruct L as (lvl & format & args & I). do 3 eexists. right. exact I.
Qed.

(** ** Files that are not source files *)

Lemma foreachF_visible (recurse : option string -> CmdF unit) (path : string)
    (entries : list string) (s : Store Registry) :
  foreachF entries (crawl_entry recurse path) s =
  foreachF (filter visible_entry entries) (crawl_entry recurse path) s.
Proof.
  revert s. induction entries as [|d rest IH]; intros s; [reflexivity|].
  cbn [filter]. unfold visible_entry at 1.
  destruct (hidden_entry d) eqn:H; cbn [negb].
  - rewrite (foreachF_cons d rest _ s s [] (crawl_entry_hidden recurse path d s H)).
    rewrite emit_before_nil. apply IH.
  - cbn [foreachF]. unfold bindF.
    destruct (crawl_entry recurse path d s) as [| |[] s1 t1]; try reflexivity.
    now rewrite IH.
Qed.

Lemma crawl_entry_non_source (fuel : nat) (dir d_name base ext : string)
    (s : Store Registry) :
  hidden_entry d_name = false ->
  snprintf_trunc 1024 (dir ++ "/" ++ d_name) = base ++ "." ++ ext ->
  In (strlower ext) non_source_extensions ->
  stat fs (base ++ "." ++ ext) = Some S_IFREG ->
  crawl_entry (crawlDir (S fuel) CrawlerAt) dir d_name s =
  Done tt s
    [Logr DEBUG "[Crawler] Found entry: %s" [ArgS (Some (base ++ "." ++ ext))];
     SysStat (base ++ "." ++ ext);
     Logr DEBUG "[Crawler] Processing file: %s" [ArgS (Some (base ++ "." ++ ext))];
     Logr DEBUG "[Crawler] Skipping non-source file: %s"
          [ArgS (Some (base ++ "." ++ ext))]].
Proof.
  intros H P I R. rewrite (crawl_entry_visible _ dir d_name s H), P.
  rewrite (crawlDir_regular fuel _ s R).
  destruct (non_source_extension_skipped ext I) as [K D].
  rewrite (processFile_skipped_extension base ext s D K). reflexivity.
Qed.

Lemma crawl_entry_regular (fuel : nat) (dir d_name : string) (s : Store Registry) :
  hidden_entry d_name = false ->
  String.length (dir ++ "/" ++ d_name) < 1024 ->
  stat fs (dir ++ "/" ++ d_name) = Some S_IFREG ->
  exists t,
    crawl_entry (crawlDir (S fuel) CrawlerAt) dir d_name s =
    Done tt (store_of (processFile CrawlerAt (Some (dir ++ "/" ++ d_name)) s)) t.
Proof.
  intros H L R. rewrite (crawl_entry_visible _ dir d_name s H).
  rewrite (snprintf_trunc_fits 1024 _ L).
  rewrite (crawlDir_regular fuel _ s R). eexists. reflexivity.
Qed.

Lemma selective_ret {A : Type} (a : A) : selective (ret a).
Proof. intros s. constructor. Qed.

Lemma selective_bind {A B : Type} (m : Cmd A) (k : A -> Cmd B) :
  selective m -> (forall a, selective (k a)) -> selective (bind m k).
Proof.
  intros Hm Hk s. rewrite events_bind. apply Forall_app. split; [apply Hm|apply Hk].
Qed.

Lemma selective_logr (lvl : LogLevel) (format : string) (args : list LogArg) :
  selective (logr lvl format args).
Proof. intros s. repeat constructor. Qed.

Lemma selective_get_config (field : AnalysisConfig -> Z) : selective (get_config field).
Proof. intros s. constructor. Qed.

Lemma selective_get_dependency_graph : selective get_dependency_graph.
Proof. intros s. constructor. Qed.

Lemma selective_set_dependency_graph (p : ptr) : selective (set_dependency_graph p).
Proof. intros s. constructor. Qed.

Lemma selective_on_heap {A : Type} (f : list Dependency -> A * list Dependency) :
  selective (on_heap f).
Proof.
  intros s. unfold on_heap, events. destruct (f (heap s)). constructor.
Qed.

Lemma selective_on_registry {A : Type} (f : Registry -> A * Registry) :
  selective (on_registry f).
Proof.
  intros s. unfold on_registry, events. destruct (f (registry s)). constructor.
Qed.

Lemma selective_assign (dep : ptr) (f : Dependency -> Dependency) :
  selective (assign dep f).
Proof. apply selective_on_heap. Qed.

Lemma selective_languageType (filename : option string) :
  selective (lift_log (languageType filename)).
Proof.
  intros s. unfold lift_log, events, languageType. cbn [snd].
  destruct filename as [f|]; [|constructor].
  destruct (strrchr f "."); [|repeat constructor].
  repeat match goal with
         | |- context [if ?b then _ else _] => destruct b
         end; repeat constructor.
Qed.

Lemma selective_foreach {A : Type} (l : list A) (body : A -> Cmd unit) :
  (forall a, selective (body a)) -> selective (foreach l body).
Proof.
  intros H. induction l as [|a r IH]; cbn [foreach].
  - apply selective_ret.
  - apply selective_bind; [apply H|intros _; exact IH].
Qed.

Lemma selective_fold_cmd {A B : Type} (body : A -> B -> Cmd B) (l : list A) (b : B) :
  (forall a b, selective (body a b)) -> selective (fold_cmd body l b).
Proof.
  intros H. revert b. induction l as [|a r IH]; intros b; cbn [fold_cmd].
  - apply selective_ret.
  - apply selective_bind; [apply H|intros b'; apply IH].
Qed.

Lemma selective_map_cmd {A B : Type} (body : A -> Cmd B) (l : list A) :
  (forall a, selective (body a)) -> selective (map_cmd body l).
Proof.
  intros H. induction l as [|a r IH]; cbn [map_cmd].
  - apply selective_ret.
  - apply selective_bind; [apply H|intros b].
    apply selective_bind; [exact IH|intros bs; apply selective_ret].
Qed.

Create HintDb selective discriminated.
#[local] Hint Resolve selective_ret selective_logr selective_get_config
  selective_get_dependency_graph selective_set_dependency_graph selective_on_heap
  selective_on_registry selective_assign selective_languageType : selective.

Ltac selective_step :=
  match goal with
  | |- selective (bind _ _) => apply selective_bind; [|intros ?]
  | |- selective (foreach _ _) => apply selective_foreach; intros ?
  | |- selective (fold_cmd _ _ _) => apply selective_fold_cmd; intros ? ?
  | |- selective (map_cmd _ _) => apply selective_map_cmd; intros ?
  | |- selective (if ?b then _ else _) => destruct b
  | |- selective (match ?x with _ => _ end) => destruct x
  | |- selective _ => solve [auto with selective]
  end.

Lemma selective_processLayer (c : CrawlerPtr) (filepath content : option string)
    (grammar : option Grammar) :
  selective (processLayer c filepath content grammar).
Proof.
  unfold processLayer, process_modules, process_structures, process_methods,
    graph_module, track_type_sources, resolve_type_sources, check_type_dependency,
    merge_extracted, graphMethods.
  repeat selective_step.
Qed.

Lemma selective_processFile (c : CrawlerPtr) (file_path : option string) :
  selective (processFile c file_path).
Proof.
  unfold processFile. destruct c; [apply selective_ret|].
  destruct file_path as [path|]; [|apply selective_ret].
  destruct (strrchr path ".") as [ext|] eqn:D; [|apply selective_logr].
  destruct (skipped_extension (skip1 ext)) eqn:K; [apply selective_logr|].
  apply selective_bind; [apply selective_logr|]. intros _.
  apply selective_bind.
  - intros s. constructor; [|constructor]. exists ext. split; assumption.
  - intros [bytes|]; [|apply selective_logr].
    apply selective_bind; [apply selective_languageType|]. intros lang.
    destruct (languageGrammars X lang); [apply selective_processLayer|].
    apply selective_ret.
Qed.

Lemma selectiveF_lift {A : Type} (m : Cmd A) : selective m -> selectiveF (liftF m).
Proof.
  intros H s s' a t R. rewrite liftF_run in R. injection R as _ _ <-. apply H.
Qed.

Lemma selectiveF_bind {A B : Type} (m : CmdF A) (k : A -> CmdF B) :
  selectiveF m -> (forall a, selectiveF (k a)) -> selectiveF (bindF m k).
Proof.
  intros Hm Hk s s' b t R. unfold bindF in R.
  destruct (m s) as [| |a s1 t1] eqn:M; try discriminate.
  destruct (k a s1) as [| |b' s2 t2] eqn:K; try discriminate.
  injection R as _ _ <-. apply Forall_app. split.
  - eapply Hm. exact M.
  - eapply Hk. exact K.
Qed.

Lemma selectiveF_foreach {A : Type} (l : list A) (body : A -> CmdF unit) :
  (forall a, selectiveF (body a)) -> selectiveF (foreachF l body).
Proof.
  intros H. induction l as [|a r IH]; cbn [foreachF].
  - apply selectiveF_lift, selective_ret.
  - apply selectiveF_bind; [apply H|intros _; exact IH].
Qed.

Lemma selectiveF_crawlDir (fuel : nat) (c : CrawlerPtr) (path : option string) :
  selectiveF (crawlDir fuel c path).
Proof.
  revert path. induction fuel as [|fuel IH]; intros path; cbn [crawlDir].
  - intros s s' a t R. discriminate.
  - destruct c; [apply selectiveF_lift, selective_logr|].
    destruct path as [path|]; [|apply selectiveF_lift, selective_logr].
    apply selectiveF_bind; [apply selectiveF_lift; intros s; repeat constructor|].
    intros [[| |]|].
    + apply selectiveF_lift. apply selective_bind; [apply selective_logr|].
      intros _. apply selective_processFile.
    + apply selectiveF_bind; [apply selectiveF_lift, selective_logr|]. intros _.
      apply selectiveF_bind; [apply selectiveF_lift; intros s; repeat constructor|].
      intros [entries|]; [|apply selectiveF_lift, selective_logr].
      destruct (skipped_directory (last_component path));
        [apply selectiveF_lift, selective_logr|].
      apply selectiveF_foreach. intros d_name. unfold crawl_entry.
      destruct (hidden_entry d_name); [apply selectiveF_lift, selective_ret|].
      apply selectiveF_bind; [apply selectiveF_lift, selective_logr|]. intros _.
      apply IH.
    + apply selectiveF_lift, selective_logr.
    + apply selectiveF_lift, selective_logr.
Qed.

Lemma selectiveF_crawlDeps (fuel : nat) (c : CrawlerPtr) : selectiveF (crawlDeps fuel c).
Proof.
  unfold crawlDeps. destruct c; [intros s s' a t R; discriminate|].
  apply selectiveF_bind; [apply selectiveF_lift; intros s; constructor|].
  intros roots.
  apply selectiveF_bind; [apply selectiveF_lift, selective_logr|]. intros _.
  destruct roots as [roots|]; [|apply selectiveF_lift, selective_logr].
  generalize 0%Z. induction roots as [|[dir|] rest IH]; intros i; cbn [crawl_roots].
  - apply selectiveF_lift, selective_ret.
  - apply selectiveF_bind; [apply selectiveF_lift, selective_logr|]. intros _.
    apply selectiveF_bind; [apply selectiveF_crawlDir|]. intros _. apply IH.
  - apply selectiveF_bind; [apply selectiveF_lift, selective_logr|]. intros _. apply IH.
Qed.

Lemma non_source_never_opened (base ext : string) (t : list Event) :
  In (strlower ext) non_source_extensions ->
  Forall opens_source t -> ~ In (SysFopen (base ++ "." ++ ext)) t.
Proof.
  intros I F O. rewrite Forall_forall in F. apply F in O.
  destruct O as (e & D & K).
  destruct (non_source_extension_skipped ext I) as [K' D'].
  rewrite (strrchr_final_extension base ext D') in D. injection D as <-.
  cbn [skip1 append] in K. congruence.
Qed.

(** ** The configured depth *)

Lemma depth_blind_ret {A : Type} (a : A) : depth_blind (ret a).
Proof. intros d s. reflexivity. Qed.

Lemma depth_blind_bind {A B : Type} (m : Cmd A) (k : A -> Cmd B) :
  depth_blind m -> (forall a, depth_blind (k a)) -> depth_blind (bind m k).
Proof.
  intros Hm Hk d s. rewrite bind_run, Hm. cbn [value store_of events fst snd].
  rewrite Hk. cbn [value store_of events fst snd].
  rewrite bind_run. reflexivity.
Qed.

Lemma depth_blind_logr (lvl : LogLevel) (format : string) (args : list LogArg) :
  depth_blind (logr lvl format args).
Proof. intros d s. reflexivity. Qed.

Lemma depth_blind_lift_log {A : Type} (r : A * list Event) : depth_blind (lift_log r).
Proof. intros d s. reflexivity. Qed.

Lemma depth_blind_sys_fopen (path : string) : depth_blind (sys_fopen path).
Proof. intros d s. reflexivity. Qed.

Lemma depth_blind_sys_stat (path : string) : depth_blind (sys_stat path).
Proof. intros d s. reflexivity. Qed.

Lemma depth_blind_sys_opendir (path : string) : depth_blind (sys_opendir path).
Proof. intros d s. reflexivity. Qed.

Lemma depth_blind_get_config (field : AnalysisConfig -> Z) :
  (forall d c, field (set_max_depth d c) = field c) ->
  depth_blind (get_config field).
Proof.
  intros F d s. unfold get_config. cbn [value store_of events fst snd].
  cbn [with_max_depth crawler crawler_with_max_depth analysis_config].
  now rewrite F.
Qed.

Lemma depth_blind_get_root_directories : depth_blind get_root_directories.
Proof. intros d s. reflexivity. Qed.

Lemma depth_blind_get_dependency_graph : depth_blind get_dependency_graph.
Proof. intros d s. reflexivity. Qed.

Lemma depth_blind_set_dependency_graph (p : ptr) : depth_blind (set_dependency_graph p).
Proof. intros d s. reflexivity. Qed.

Lemma depth_blind_on_heap {A : Type} (f : list Dependency -> A * list Dependency) :
  depth_blind (on_heap f).
Proof.
  intros d s. unfold on_heap. cbn [with_max_depth heap].
  destruct (f (heap s)) as [a h]. reflexivity.
Qed.

Lemma depth_blind_on_registry {A : Type} (f : Registry -> A * Registry) :
  depth_blind (on_registry f).
Proof.
  intros d s. unfold on_registry. cbn [with_max_depth registry].
  destruct (f (registry s)) as [a r]. reflexivity.
Qed.

Lemma depth_blind_assign (dep : ptr) (f : Dependency -> Dependency) :
  depth_blind (assign dep f).
Proof. apply depth_blind_on_heap. Qed.

Lemma depth_blind_foreach {A : Type} (l : list A) (body : A -> Cmd unit) :
  (forall a, depth_blind (body a)) -> depth_blind (foreach l body).
Proof.
  intros H. induction l as [|a r IH]; cbn [foreach].
  - apply depth_blind_ret.
  - apply depth_blind_bind; [apply H|intros _; exact IH].
Qed.

Lemma depth_blind_fold_cmd {A B : Type} (body : A -> B -> Cmd B) (l : list A) (b : B) :
  (forall a b, depth_blind (body a b)) -> depth_blind (fold_cmd body l b).
Proof.
  intros H. revert b. induction l as [|a r IH]; intros b; cbn [fold_cmd].
  - apply depth_blind_ret.
  - apply depth_blind_bind; [apply H|intros b'; apply IH].
Qed.

Lemma depth_blind_map_cmd {A B : Type} (body : A -> Cmd B) (l : list A) :
  (forall a, depth_blind (body a)) -> depth_blind (map_cmd body l).
Proof.
  intros H. induction l as [|a r IH]; cbn [map_cmd].
  - apply depth_blind_ret.
  - apply depth_blind_bind; [apply H|intros b].
    apply depth_blind_bind; [exact IH|intros bs; apply depth_blind_ret].
Qed.

Create HintDb blind discriminated.
#[local] Hint Resolve depth_blind_ret depth_blind_logr depth_blind_lift_log
  depth_blind_sys_fopen depth_blind_sys_stat depth_blind_sys_opendir
  depth_blind_get_root_directories depth_blind_get_dependency_graph
  depth_blind_set_dependency_graph depth_blind_on_heap depth_blind_on_registry
  depth_blind_assign : blind.

(** One step through a command: a primitive, a sequence, a loop or a
    branch. *)
Ltac blind_step :=
  match goal with
  | |- depth_blind (bind _ _) => apply depth_blind_bind; [|intros ?]
  | |- depth_blind (foreach _ _) => apply depth_blind_foreach; intros ?
  | |- depth_blind (fold_cmd _ _ _) => apply depth_blind_fold_cmd; intros ? ?
  | |- depth_blind (map_cmd _ _) => apply depth_blind_map_cmd; intros ?
  | |- depth_blind (get_config _) => apply depth_blind_get_config; reflexivity
  | |- depth_blind (if ?b then _ else _) => destruct b
  | |- depth_blind (match ?x with _ => _ end) => destruct x
  | |- depth_blind _ => solve [auto with blind]
  end.

Lemma depth_blind_graphMethods (c : CrawlerPtr) (file_path : option string)
    (ms : list Method) :
  depth_blind (graphMethods c file_path ms).
Proof. unfold graphMethods. repeat blind_step. Qed.

Lemma depth_blind_merge_extracted (created added : string) (dep : ExtractedDependency) :
  depth_blind (merge_extracted created added dep).
Proof. unfold merge_extracted. repeat blind_step. Qed.

Lemma depth_blind_check_type_dependency (curr_dep : ExtractedDependency)
    (curr_struct : Structure) :
  depth_blind (check_type_dependency curr_dep curr_struct).
Proof. unfold check_type_dependency. repeat blind_step. Qed.

#[local] Hint Resolve depth_blind_graphMethods depth_blind_merge_extracted
  depth_blind_check_type_dependency : blind.

Lemma depth_blind_processLayer (c : CrawlerPtr) (filepath content : option string)
    (grammar : option Grammar) :
  depth_blind (processLayer c filepath content grammar).
Proof.
  unfold processLayer, process_modules, process_structures, process_methods,
    graph_module, track_type_sources, resolve_type_sources.
  repeat blind_step.
Qed.

#[local] Hint Resolve depth_blind_processLayer : blind.

Lemma depth_blind_processFile (c : CrawlerPtr) (file_path : option string) :
  depth_blind (processFile c file_path).
Proof. unfold processFile. repeat blind_step. Qed.

Lemma depth_blindF_lift {A : Type} (m : Cmd A) : depth_blind m -> depth_blindF (liftF m).
Proof.
  intros H d s. unfold liftF. rewrite H.
  unfold value, store_of, events. destruct (m s) as [[a s1] t1]. reflexivity.
Qed.

Lemma depth_blindF_bind {A B : Type} (m : CmdF A) (k : A -> CmdF B) :
  depth_blindF m -> (forall a, depth_blindF (k a)) -> depth_blindF (bindF m k).
Proof.
  intros Hm Hk d s. unfold bindF. rewrite Hm.
  destruct (m s) as [| |a s1 t1]; cbn [map_store]; try reflexivity.
  rewrite Hk. destruct (k a s1); reflexivity.
Qed.

Lemma depth_blindF_foreach {A : Type} (l : list A) (body : A -> CmdF unit) :
  (forall a, depth_blindF (body a)) -> depth_blindF (foreachF l body).
Proof.
  intros H. induction l as [|a r IH]; cbn [foreachF].
  - apply depth_blindF_lift, depth_blind_ret.
  - apply depth_blindF_bind; [apply H|intros _; exact IH].
Qed.

Lemma depth_blindF_crawl_entry (recurse : option string -> CmdF unit)
    (path d_name : string) :
  (forall p, depth_blindF (recurse p)) -> depth_blindF (crawl_entry recurse path d_name).
Proof.
  intros H. unfold crawl_entry. destruct (hidden_entry d_name).
  - apply depth_blindF_lift, depth_blind_ret.
  - apply depth_blindF_bind; [apply depth_blindF_lift, depth_blind_logr|].
    intros _. apply H.
Qed.

Lemma depth_blindF_crawlDir (fuel : nat) (c : CrawlerPtr) (path : option string) :
  depth_blindF (crawlDir fuel c path).
Proof.
  revert path. induction fuel as [|fuel IH]; intros path; cbn [crawlDir].
  - intros d s. reflexivity.
  - destruct c; [apply depth_blindF_lift, depth_blind_logr|].
    destruct path as [path|]; [|apply depth_blindF_lift, depth_blind_logr].
    apply depth_blindF_bind; [apply depth_blindF_lift, depth_blind_sys_stat|].
    intros [[| |]|].
    + apply depth_blindF_lift. apply depth_blind_bind; [apply depth_blind_logr|].
      intros _. apply depth_blind_processFile.
    + apply depth_blindF_bind; [apply depth_blindF_lift, depth_blind_logr|]. intros _.
      apply depth_blindF_bind; [apply depth_blindF_lift, depth_blind_sys_opendir|].
      intros [entries|]; [|apply depth_blindF_lift, depth_blind_logr].
      destruct (skipped_directory (last_component path));
        [apply depth_blindF_lift, depth_blind_logr|].
      apply depth_blindF_foreach. intros d_name.
      apply depth_blindF_crawl_entry. exact IH.
    + apply depth_blindF_lift, depth_blind_logr.
    + apply depth_blindF_lift, depth_blind_logr.
Qed.

Lemma depth_blindF_crawl_roots (fuel : nat) (c : CrawlerPtr)
    (roots : list (option string)) :
  forall i : Z, depth_blindF (crawl_roots fuel c i roots).
Proof.
  induction roots as [|[dir|] rest IH]; intros i; cbn [crawl_roots].
  - apply depth_blindF_lift, depth_blind_ret.
  - apply depth_blindF_bind; [apply depth_blindF_lift, depth_blind_logr|]. intros _.
    apply depth_blindF_bind; [apply depth_blindF_crawlDir|]. intros _. apply IH.
  - apply depth_blindF_bind; [apply depth_blindF_lift, depth_blind_logr|]. intros _.
    apply IH.
Qed.

Lemma depth_blindF_crawlDeps (fuel : nat) (c : CrawlerPtr) :
  depth_blindF (crawlDeps fuel c).
Proof.
  unfold crawlDeps. destruct c; [intros d s; reflexivity|].
  apply depth_blindF_bind;
    [apply depth_blindF_lift, depth_blind_get_root_directories|].
  intros roots.
  apply depth_blindF_bind; [apply depth_blindF_lift, depth_blind_logr|]. intros _.
  destruct roots as [roots|]; [apply depth_blindF_crawl_roots|].
  apply depth_blindF_lift, depth_blind_logr.
Qed.

(** C8: the crawl never reads [max_depth].  Started from two stores that
    differ only in that field of the configuration, [crawlDeps] (and
    [crawlDir] on any path) makes the same calls, logs the same messages,
    and ends in stores that again differ only in that field: the same
    heap of nodes, the same graph head, the same analyzers' tables; it runs
    out of fuel for the one exactly when it does for the other.
    [create_crawler] copies the configuration it is given, so two
    configurations that differ only in [max_depth] give such crawlers. *)
Theorem crawl_ignores_max_depth :
  (forall (fuel : nat) (c : CrawlerPtr) (d : Z) (s : Store Registry),
      crawlDeps fuel c (with_max_depth d s) =
      map_store (with_max_depth d) (crawlDeps fuel c s))
  /\ (forall (fuel : nat) (c : CrawlerPtr) (path : option string) (d : Z)
             (s : Store Registry),
      crawlDir fuel c path (with_max_depth d s) =
      map_store (with_max_depth d) (crawlDir fuel c path s))
  /\ (forall (directories : list (option string)) (config : AnalysisConfig) (d : Z)
             (reg : Registry),
      create_crawler directories (Some (set_max_depth d config)) reg =
      match create_crawler directories (Some config) reg with
      | Undefined => Undefined
      | Returns (c, reg', t) => Returns (option_map (crawler_with_max_depth d) c, reg', t)
      end).
Proof.
  split; [|split].
  - intros fuel c d s. apply depth_blindF_crawlDeps.
  - intros fuel c path d s. apply depth_blindF_crawlDir.
  - intros directories config d reg. unfold create_crawler.
    destruct (initPatternCache X reg) as [[|] reg1]; cbn [negb]; [|reflexivity].
    destruct (existsb is_null directories); reflexivity.
Qed.

(** ** Method-layer nodes *)

Lemma graphMethods_null (c : CrawlerPtr) (file_path : option string)
    (ms : list Method) (s : Store Registry) :
  c = CrawlerNull \/ file_path = None \/ ms = [] ->
  graphMethods c file_path ms s = (tt, s, []).
Proof.
  intros [->|[->| ->]]; [reflexivity| |].
  - destruct c; reflexivity.
  - destruct c, file_path; reflexivity.
Qed.

Lemma keeps_ret {A : Type} (a : A) : keeps (ret a).
Proof. intros s H. exact H. Qed.

Lemma keeps_bind {A B : Type} (m : Cmd A) (k : A -> Cmd B) :
  keeps m -> (forall a, keeps (k a)) -> keeps (bind m k).
Proof. intros Hm Hk s H. rewrite store_bind. apply Hk, Hm, H. Qed.

Lemma keeps_logr (lvl : LogLevel) (format : string) (args : list LogArg) :
  keeps (logr lvl format args).
Proof. intros s H. exact H. Qed.

Lemma keeps_lift_log {A : Type} (r : A * list Event) : keeps (lift_log r).
Proof. intros s H. exact H. Qed.

Lemma keeps_sys_fopen (path : string) : keeps (sys_fopen path).
Proof. intros s H. exact H. Qed.

Lemma keeps_get_config (field : AnalysisConfig -> Z) : keeps (get_config field).
Proof. intros s H. exact H. Qed.

Lemma keeps_get_dependency_graph : keeps get_dependency_graph.
Proof. intros s H. exact H. Qed.

Lemma keeps_set_dependency_graph (p : ptr) : keeps (set_dependency_graph p).
Proof. intros s H. exact H. Qed.

Lemma keeps_on_registry {A : Type} (f : Registry -> A * Registry) :
  keeps (on_registry f).
Proof.
  intros s H. unfold on_registry, store_of.
  destruct (f (registry s)) as [a r]. exact H.
Qed.

Lemma keeps_foreach {A : Type} (l : list A) (body : A -> Cmd unit) :
  (forall a, keeps (body a)) -> keeps (foreach l body).
Proof.
  intros H. induction l as [|a r IH]; cbn [foreach].
  - apply keeps_ret.
  - apply keeps_bind; [apply H|intros _; exact IH].
Qed.

Lemma keeps_fold_cmd {A B : Type} (body : A -> B -> Cmd B) (l : list A) (b : B) :
  (forall a b, keeps (body a b)) -> keeps (fold_cmd body l b).
Proof.
  intros H. revert b. induction l as [|a r IH]; intros b; cbn [fold_cmd].
  - apply keeps_ret.
  - apply keeps_bind; [apply H|intros b'; apply IH].
Qed.

Lemma keeps_map_cmd {A B : Type} (body : A -> Cmd B) (l : list A) :
  (forall a, keeps (body a)) -> keeps (map_cmd body l).
Proof.
  intros H. induction l as [|a r IH]; cbn [map_cmd].
  - apply keeps_ret.
  - apply keeps_bind; [apply H|intros b].
    apply keeps_bind; [exact IH|intros bs; apply keeps_ret].
Qed.

Create HintDb keeps discriminated.
#[local] Hint Resolve keeps_ret keeps_logr keeps_lift_log keeps_sys_fopen
  keeps_get_config keeps_get_dependency_graph keeps_set_dependency_graph
  keeps_on_registry : keeps.

Ltac keeps_step :=
  match goal with
  | |- keeps (bind _ _) => apply keeps_bind; [|intros ?]
  | |- keeps (foreach _ _) => apply keeps_foreach; intros ?
  | |- keeps (fold_cmd _ _ _) => apply keeps_fold_cmd; intros ? ?
  | |- keeps (map_cmd _ _) => apply keeps_map_cmd; intros ?
  | |- keeps (if ?b then _ else _) => destruct b
  | |- keeps (match ?x with _ => _ end) => destruct x
  | |- keeps _ => solve [auto with keeps]
  end.

Lemma keeps_check_type_dependency (curr_dep : ExtractedDependency)
    (curr_struct : Structure) :
  keeps (check_type_dependency curr_dep curr_struct).
Proof. unfold check_type_dependency. repeat keeps_step. Qed.

Section MethodNodes.

(** Modelled from the spec: [countMethods], [create_dependency_from_extracted]
    and [graphDependency] are defined outside the sources at hand.
    "Count of merged method nodes is tracked per Dependency": [countMethods]
    gives the length of the list.  "A record's Layer always matches the
    bucket it is stored in": the two graph helpers, called for a record
    that is not of the method layer, leave every node, old and new, as
    [method_node_ok] wants it. *)
Hypothesis countMethods_length :
  forall ms : list Method, countMethods X ms = Z.of_nat (length ms).
Hypothesis create_keeps :
  forall (e : ExtractedDependency) (h : list Dependency),
    layer e <> LAYER_METHOD -> Forall method_node_ok h ->
    Forall method_node_ok (snd (create_dependency_from_extracted X e h)).
Hypothesis graphDependency_keeps :
  forall (graph : ptr) (e : ExtractedDependency) (h : list Dependency),
    layer e <> LAYER_METHOD -> Forall method_node_ok h ->
    Forall method_node_ok (graphDependency X graph e h).

Lemma keeps_graphMethods (c : CrawlerPtr) (file_path : option string)
    (ms : list Method) :
  keeps (graphMethods c file_path ms).
Proof.
  intros s H. destruct c; [exact H|]. destruct file_path as [fp|]; [|exact H].
  destruct ms as [|m ms]; [exact H|].
  rewrite graphMethods_run. unfold graph_ok. cbn [store_of fst snd heap].
  apply Forall_app. split; [exact H|]. constructor; [|constructor].
  intros _. cbn [method_node d_methods method_count]. split; [discriminate|].
  apply countMethods_length.
Qed.

Lemma keeps_merge_extracted (created added : string) (dep : ExtractedDependency) :
  layer dep <> LAYER_METHOD -> keeps (merge_extracted created added dep).
Proof.
  intros L s H.
  destruct (Nat.eq_dec (dependency_graph (crawler s)) NULL) as [E|E].
  - rewrite (merge_extracted_empty created added dep s E).
    apply create_keeps; assumption.
  - rewrite (merge_extracted_nonempty created added dep s E).
    apply graphDependency_keeps; assumption.
Qed.

Lemma keeps_processLayer (c : CrawlerPtr) (filepath content : option string)
    (grammar : option Grammar) :
  keeps (processLayer c filepath content grammar).
Proof.
  unfold processLayer, process_modules, process_structures, process_methods,
    graph_module, track_type_sources, resolve_type_sources.
  repeat first [ apply keeps_graphMethods
               | apply keeps_check_type_dependency
               | apply keeps_merge_extracted; discriminate
               | keeps_step ].
Qed.

Lemma keeps_processFile (c : CrawlerPtr) (file_path : option string) :
  keeps (processFile c file_path).
Proof.
  unfold processFile.
  repeat first [ apply keeps_processLayer | keeps_step ].
Qed.

Lemma keepsF_lift {A : Type} (m : Cmd A) : keeps m -> keepsF (liftF m).
Proof.
  intros H s s' a t G R. rewrite liftF_run in R. injection R as _ <- _.
  now apply H.
Qed.

Lemma keepsF_bind {A B : Type} (m : CmdF A) (k : A -> CmdF B) :
  keepsF m -> (forall a, keepsF (k a)) -> keepsF (bindF m k).
Proof.
  intros Hm Hk s s' b t G R. unfold bindF in R.
  destruct (m s) as [| |a s1 t1] eqn:M; try discriminate.
  destruct (k a s1) as [| |b' s2 t2] eqn:K; try discriminate.
  injection R as _ <- _. eapply Hk; [|exact K]. eapply Hm; [exact G|exact M].
Qed.

Lemma keepsF_foreach {A : Type} (l : list A) (body : A -> CmdF unit) :
  (forall a, keepsF (body a)) -> keepsF (foreachF l body).
Proof.
  intros H. induction l as [|a r IH]; cbn [foreachF].
  - apply keepsF_lift, keeps_ret.
  - apply keepsF_bind; [apply H|intros _; exact IH].
Qed.

Lemma keepsF_crawlDir (fuel : nat) (c : CrawlerPtr) (path : option string) :
  keepsF (crawlDir fuel c path).
Proof.
  revert path. induction fuel as [|fuel IH]; intros path; cbn [crawlDir].
  - intros s s' a t _ R. discriminate.
  - destruct c; [apply keepsF_lift, keeps_logr|].
    destruct path as [path|]; [|apply keepsF_lift, keeps_logr].
    apply keepsF_bind; [apply keepsF_lift; intros s H; exact H|].
    intros [[| |]|].
    + apply keepsF_lift. apply keeps_bind; [apply keeps_logr|].
      intros _. apply keeps_processFile.
    + apply keepsF_bind; [apply keepsF_lift, keeps_logr|]. intros _.
      apply keepsF_bind; [apply keepsF_lift; intros s H; exact H|].
      intros [entries|]; [|apply keepsF_lift, keeps_logr].
      destruct (skipped_directory (last_component path));
        [apply keepsF_lift, keeps_logr|].
      apply keepsF_foreach. intros d_name. unfold crawl_entry.
      destruct (hidden_entry d_name); [apply keepsF_lift, keeps_ret|].
      apply keepsF_bind; [apply keepsF_lift, keeps_logr|]. intros _. apply IH.
    + apply keepsF_lift, keeps_logr.
    + apply keepsF_lift, keeps_logr.
Qed.

Lemma keepsF_crawlDeps (fuel : nat) (c : CrawlerPtr) : keepsF (crawlDeps fuel c).
Proof.
  unfold crawlDeps. destruct c; [intros s s' a t _ R; discriminate|].
  apply keepsF_bind; [apply keepsF_lift; intros s H; exact H|]. intros roots.
  apply keepsF_bind; [apply keepsF_lift, keeps_logr|]. intros _.
  destruct roots as [roots|]; [|apply keepsF_lift, keeps_logr].
  generalize 0%Z. induction roots as [|[dir|] rest IH]; intros i; cbn [crawl_roots].
  - apply keepsF_lift, keeps_ret.
  - apply keepsF_bind; [apply keepsF_lift, keeps_logr|]. intros _.
    apply keepsF_bind; [apply keepsF_crawlDir|]. intros _. apply IH.
  - apply keepsF_bind; [apply keepsF_lift, keeps_logr|]. intros _. apply IH.
Qed.

(** C10: [graphMethods] does nothing for a null crawler, a null path or an
    empty list of methods; otherwise the one node it adds is of the method
    layer, owns the list it was given, which is not empty, and records
    [countMethods] of it, the length of the list.  So, the graph helpers
    being called only for module and structure records, every method-layer
    node stays well formed through [graphMethods], [processFile] and a
    whole crawl. *)
Theorem method_nodes_well_formed :
  (forall (c : CrawlerPtr) (file_path : option string) (ms : list Method)
          (s : Store Registry),
      c = CrawlerNull \/ file_path = None \/ ms = [] ->
      graphMethods c file_path ms s = (tt, s, []))
  /\ (forall (file_path : string) (m : Method) (ms : list Method) (s : Store Registry),
      exists node : Dependency,
        heap (store_of (graphMethods CrawlerAt (Some file_path) (m :: ms) s)) =
          (heap s ++ [node])%list
        /\ level node = LAYER_METHOD
        /\ d_methods node = m :: ms
        /\ method_count node = Z.of_nat (length (m :: ms)))
  /\ (forall (c : CrawlerPtr) (file_path : option string) (ms : list Method)
             (s : Store Registry),
      graph_ok s -> graph_ok (store_of (graphMethods c file_path ms s)))
  /\ (forall (c : CrawlerPtr) (file_path : option string) (s : Store Registry),
      graph_ok s -> graph_ok (store_of (processFile c file_path s)))
  /\ (forall (fuel : nat) (c : CrawlerPtr) (s s' : Store Registry) (t : list Event),
      graph_ok s -> crawlDeps fuel c s = Done tt s' t -> graph_ok s').
Proof.
  split; [exact graphMethods_null|]. split; [|split; [|split]].
  - intros file_path m ms s. rewrite graphMethods_run.
    eexists. split; [reflexivity|]. split; [reflexivity|]. split; [reflexivity|].
    apply countMethods_length.
  - intros c file_path ms s. apply keeps_graphMethods.
  - intros c file_path s. apply keeps_processFile.
  - intros fuel c s s' t G R. exact (keepsF_crawlDeps fuel c s s' tt t G R).
Qed.

End MethodNodes.

(** ** The depth of the walk *)

Lemma emit_before_done {A : Type} (t0 : list Event) (r : Run A) (a : A)
    (s' : Store Registry) (t : list Event) :
  emit_before t0 r = Done a s' t -> exists t1, r = Done a s' t1 /\ t = (t0 ++ t1)%list.
Proof.
  destruct r as [| |a1 s1 t1]; simpl; try discriminate.
  intros H. injection H as -> -> <-. eauto.
Qed.

Lemma foreachF_more {A : Type} (l : list A) (body1 body2 : A -> CmdF unit) :
  (forall a s u s' t, body1 a s = Done u s' t -> body2 a s = Done u s' t) ->
  forall s u s' t,
    foreachF l body1 s = Done u s' t -> foreachF l body2 s = Done u s' t.
Proof.
  intros M. induction l as [|a rest IH]; intros s u s' t H; cbn [foreachF] in *.
  - exact H.
  - unfold bindF in *.
    destruct (body1 a s) as [| |u1 s1 t1] eqn:E; try discriminate.
    rewrite (M _ _ _ _ _ E).
    destruct (foreachF rest body1 s1) as [| |u2 s2 t2] eqn:F; try discriminate.
    rewrite (IH _ _ _ _ F). exact H.
Qed.

Lemma crawl_entry_more (recurse1 recurse2 : option string -> CmdF unit)
    (path : string) :
  (forall p s u s' t, recurse1 p s = Done u s' t -> recurse2 p s = Done u s' t) ->
  forall d_name s u s' t,
    crawl_entry recurse1 path d_name s = Done u s' t ->
    crawl_entry recurse2 path d_name s = Done u s' t.
Proof.
  intros M d_name s u s' t H. unfold crawl_entry in *.
  destruct (hidden_entry d_name); [exact H|].
  rewrite bindF_lift in *. apply emit_before_done in H.
  destruct H as (t1 & R & ->). now rewrite (M _ _ _ _ _ R).
Qed.

Lemma crawlDir_skipped (fuel : nat) (path : string) (entries : list string)
    (s : Store Registry) :
  stat fs path = Some S_IFDIR -> opendir fs path = Some entries ->
  skipped_directory (last_component path) = true ->
  crawlDir (S fuel) CrawlerAt (Some path) s =
  Done tt s [SysStat path;
             Logr INFO "[Crawler] Opening directory: %s" [ArgS (Some path)];
             SysOpendir path;
             Logr DEBUG "[Crawler] Skipping non-source directory: %s"
                  [ArgS (Some path)]].
Proof.
  intros H O K. cbn [crawlDir]. rewrite bindF_lift.
  unfold sys_stat at 2 3. cbn [value store_of fst snd]. rewrite H.
  rewrite !bindF_lift. unfold sys_opendir at 2 3.
  cbn [value store_of fst snd logr]. rewrite O, K. reflexivity.
Qed.

Lemma crawlDir_S (fuel : nat) :
  forall (c : CrawlerPtr) (path : option string) (s : Store Registry) (u : unit)
         (s' : Store Registry) (t : list Event),
    crawlDir fuel c path s = Done u s' t -> crawlDir (S fuel) c path s = Done u s' t.
Proof.
  induction fuel as [|fuel IH]; intros c path s u s' t H; [discriminate|].
  destruct c; [exact H|]. destruct path as [path|]; [|exact H].
  destruct (stat fs path) as [[| |]|] eqn:St.
  - rewrite (crawlDir_regular fuel path s St) in H.
    now rewrite (crawlDir_regular (S fuel) path s St).
  - destruct (opendir fs path) as [entries|] eqn:O.
    + destruct (skipped_directory (last_component path)) eqn:K.
      * rewrite (crawlDir_skipped fuel path entries s St O K) in H.
        now rewrite (crawlDir_skipped (S fuel) path entries s St O K).
      * rewrite (crawlDir_directory fuel path entries s St O K) in H.
        rewrite (crawlDir_directory (S fuel) path entries s St O K).
        apply emit_before_done in H. destruct H as (t1 & F & ->).
        rewrite (foreachF_more entries _ (crawl_entry (crawlDir (S fuel) CrawlerAt) path)
                   (crawl_entry_more _ _ path (IH CrawlerAt)) _ _ _ _ F).
        reflexivity.
    + rewrite (crawlDir_unopenable fuel path s St O) in H.
      now rewrite (crawlDir_unopenable (S fuel) path s St O).
  - rewrite (crawlDir_other fuel path s St) in H.
    now rewrite (crawlDir_other (S fuel) path s St).
  - rewrite (crawlDir_unstatable fuel path s St) in H.
    now rewrite (crawlDir_unstatable (S fuel) path s St).
Qed.

Lemma crawlDir_more (fuel fuel' : nat) (c : CrawlerPtr) (path : option string)
    (s : Store Registry) (u : unit) (s' : Store Registry) (t : list Event) :
  fuel <= fuel' ->
  crawlDir fuel c path s = Done u s' t -> crawlDir fuel' c path s = Done u s' t.
Proof.
  intros L H. induction L as [|n L IH]; [exact H|]. now apply crawlDir_S.
Qed.

Lemma crawl_roots_more (fuel fuel' : nat) (c : CrawlerPtr)
    (roots : list (option string)) :
  fuel <= fuel' ->
  forall (i : Z) (s : Store Registry) (u : unit) (s' : Store Registry)
         (t : list Event),
    crawl_roots fuel c i roots s = Done u s' t ->
    crawl_roots fuel' c i roots s = Done u s' t.
Proof.
  intros L. induction roots as [|[dir|] rest IH]; intros i s u s' t H;
    cbn [crawl_roots] in *.
  - exact H.
  - rewrite bindF_lift in *. apply emit_before_done in H.
    destruct H as (t1 & H & ->). unfold bindF in *.
    cbn [value store_of fst snd logr] in *.
    destruct (crawlDir fuel c (Some dir) s) as [| |u1 s1 t2] eqn:E; try discriminate.
    rewrite (crawlDir_more fuel fuel' c (Some dir) s u1 s1 t2 L E).
    destruct (crawl_roots fuel c (i + 1) rest s1) as [| |u2 s2 t3] eqn:F;
      try discriminate.
    rewrite (IH _ _ _ _ _ F). injection H as -> -> ->. reflexivity.
  - rewrite bindF_lift in *. apply emit_before_done in H.
    destruct H as (t1 & H & ->). cbn [value store_of fst snd logr] in *.
    now rewrite (IH _ _ _ _ _ H).
Qed.

(** The fuel is a device of the model and does not show in the outcome: a
    walk that ends within some depth ends in the same store, with the same
    events, within any greater one. *)
Lemma crawl_depth_allowed (fuel fuel' : nat) (c : CrawlerPtr) (s s' : Store Registry)
    (t : list Event) :
  fuel <= fuel' ->
  (forall path : option string,
      crawlDir fuel c path s = Done tt s' t -> crawlDir fuel' c path s = Done tt s' t)
  /\ (crawlDeps fuel c s = Done tt s' t -> crawlDeps fuel' c s = Done tt s' t).
Proof.
  intros L. split.
  - intros path. now apply crawlDir_more.
  - unfold crawlDeps. destruct c; [tauto|].
    repeat (rewrite bindF_lift;
            cbn [value store_of events fst snd get_root_directories logr]).
    destruct (root_directories (crawler s)) as [roots|]; [|tauto].
    intros H. apply emit_before_done in H. destruct H as (t1 & H & ->).
    apply emit_before_done in H. destruct H as (t2 & H & ->).
    now rewrite (crawl_roots_more fuel fuel' CrawlerAt roots L _ _ _ _ _ H).
Qed.

Lemma foreachF_ends {A : Type} (l : list A) (body : A -> CmdF unit) :
  (forall a, In a l -> forall s, exists s' t, body a s = Done tt s' t) ->
  forall s, exists s' t, foreachF l body s = Done tt s' t.
Proof.
  induction l as [|a rest IH]; intros H s.
  - exists s, []. reflexivity.
  - destruct (H a (or_introl eq_refl) s) as (s1 & t1 & E).
    destruct (IH (fun b I => H b (or_intror I)) s1) as (s2 & t2 & F).
    exists s2, (t1 ++ t2)%list.
    rewrite (foreachF_cons a rest body s s1 t1 E), F. reflexivity.
Qed.

Lemma crawlDir_ends (rank : string -> nat) :
  descends rank ->
  forall (fuel : nat) (path : string) (s : Store Registry),
    rank path < fuel ->
    exists s' t, crawlDir fuel CrawlerAt (Some path) s = Done tt s' t.
Proof.
  intros D. induction fuel as [|fuel IH]; intros path s L; [lia|].
  destruct (stat fs path) as [[| |]|] eqn:St.
  - rewrite (crawlDir_regular fuel path s St). eauto.
  - destruct (opendir fs path) as [entries|] eqn:O.
    + destruct (skipped_directory (last_component path)) eqn:K.
      * rewrite (crawlDir_skipped fuel path entries s St O K). eauto.
      * rewrite (crawlDir_directory fuel path entries s St O K).
        destruct (foreachF_ends entries (crawl_entry (crawlDir fuel CrawlerAt) path))
          with (s := s) as (s' & t & F).
        { intros d_name I s0. destruct (hidden_entry d_name) eqn:Hd.
          - rewrite (crawl_entry_hidden _ path d_name s0 Hd). eauto.
          - rewrite (crawl_entry_visible _ path d_name s0 Hd).
            destruct (IH (snprintf_trunc 1024 (path ++ "/" ++ d_name)) s0)
              as (s1 & t1 & R).
            + pose proof (D path entries d_name St O K I Hd). lia.
            + rewrite R. simpl. eauto. }
        rewrite F. simpl. eauto.
    + rewrite (crawlDir_unopenable fuel path s St O). eauto.
  - rewrite (crawlDir_other fuel path s St). eauto.
  - rewrite (crawlDir_unstatable fuel path s St). eauto.
Qed.

Lemma crawl_roots_ends (rank : string -> nat) (fuel : nat)
    (roots : list (option string)) :
  descends rank ->
  (forall dir, In (Some dir) roots -> rank dir < fuel) ->
  forall (i : Z) (s : Store Registry),
    exists s' t, crawl_roots fuel CrawlerAt i roots s = Done tt s' t.
Proof.
  intros D. induction roots as [|[dir|] rest IH]; intros B i s; cbn [crawl_roots].
  - exists s, []. reflexivity.
  - rewrite bindF_lift. cbn [value store_of events fst snd logr].
    destruct (crawlDir_ends rank D fuel dir s (B dir (or_introl eq_refl)))
      as (s1 & t1 & R).
    destruct (IH (fun d I => B d (or_intror I)) (i + 1)%Z s1) as (s2 & t2 & F).
    rewrite (bindF_done _ _ s s1 tt t1 R), F. simpl. eauto.
  - rewrite bindF_lift. cbn [value store_of events fst snd logr].
    destruct (IH (fun d I => B d (or_intror I)) (i + 1)%Z s) as (s2 & t2 & F).
    rewrite F. simpl. eauto.
Qed.

(** X7: the walk has no depth limit of its own, and needs none on a
    directory structure without cycles.  If some measure of the paths goes
    down from each directory that is entered to the paths of its visible
    entries, [crawlDir] returns on every path, within a depth of calls one
    more than the measure of the path, and [crawlDeps] returns within a
    depth above the measures of the roots. *)
Theorem crawl_terminates (rank : string -> nat) :
  descends rank ->
  (forall (path : string) (s : Store Registry),
      exists s' t, crawlDir (S (rank path)) CrawlerAt (Some path) s = Done tt s' t)
  /\ (forall (fuel : nat) (s : Store Registry),
      (forall roots dir, root_directories (crawler s) = Some roots ->
                         In (Some dir) roots -> rank dir < fuel) ->
      exists s' t, crawlDeps fuel CrawlerAt s = Done tt s' t).
Proof.
  intros D. split.
  - intros path s. apply (crawlDir_ends rank D). lia.
  - intros fuel s B. unfold crawlDeps.
    repeat (rewrite bindF_lift;
            cbn [value store_of events fst snd get_root_directories logr]).
    destruct (root_directories (crawler s)) as [roots|]; [|simpl; eauto].
    destruct (crawl_roots_ends rank fuel roots D (fun d => B roots d eq_refl) 0%Z s)
      as (s' & t & R).
    rewrite R. simpl. eauto.
Qed.

(** ** Directories that are not entered *)

Lemma skipped_directory_names (dir_name : string) :
  skipped_directory dir_name = true <-> In dir_name skipped_names.
Proof.
  unfold skipped_directory, skipped_names. cbn [In].
  rewrite !orb_true_iff, !strcmp_eq_0. intuition congruence.
Qed.

Lemma last_component_app (base name : string) :
  strrchr name "/" = None -> last_component (base ++ "/" ++ name) = name.
Proof.
  intros N. unfold last_component.
  assert (S1 : strrchr ("/" ++ name) "/" = Some ("/" ++ name))
    by (simpl; now rewrite N).
  now rewrite (strrchr_app_some base _ _ "/" S1).
Qed.

Lemma last_component_slash (path : string) : last_component (path ++ "/") = "".
Proof.
  unfold last_component.
  now rewrite (strrchr_app_some path "/" "/" "/" eq_refl).
Qed.

Lemma foreachF_done_in {A : Type} (l : list A) (body : A -> CmdF unit) :
  forall (s : Store Registry) (u : unit) (s' : Store Registry) (t : list Event),
    foreachF l body s = Done u s' t ->
    forall a, In a l ->
    exists s0 u0 s1 t0, body a s0 = Done u0 s1 t0 /\ incl t0 t.
Proof.
  induction l as [|a rest IH]; intros s u s' t H b I; [destruct I|].
  cbn [foreachF] in H. unfold bindF in H.
  destruct (body a s) as [| |u1 s1 t1] eqn:E; try discriminate.
  destruct (foreachF rest body s1) as [| |u2 s2 t2] eqn:F; try discriminate.
  injection H as _ _ <-. destruct I as [<-|I].
  - exists s, u1, s1, t1. split; [exact E|apply incl_appl, incl_refl].
  - destruct (IH _ _ _ _ F b I) as (s0 & u0 & s3 & t0 & B & Inc).
    exists s0, u0, s3, t0. split; [exact B|now apply incl_appr].
Qed.

Lemma crawlDir_stats_first (fuel : nat) (path : string) (s : Store Registry)
    (u : unit) (s' : Store Registry) (t : list Event) :
  crawlDir fuel CrawlerAt (Some path) s = Done u s' t -> In (SysStat path) t.
Proof.
  destruct fuel as [|fuel]; [discriminate|]. cbn [crawlDir]. rewrite bindF_lift.
  intros H. apply emit_before_done in H. destruct H as (t1 & _ & ->).
  left. reflexivity.
Qed.

Lemma crawlDir_enters (fuel : nat) (path : string) (entries : list string)
    (s : Store Registry) :
  stat fs path = Some S_IFDIR -> opendir fs path = Some entries ->
  skipped_directory (last_component path) = false ->
  entered fuel path entries s.
Proof.
  intros St O K. split; [exact (crawlDir_directory fuel path entries s St O K)|].
  intros s' t d_name H I Hd.
  rewrite (crawlDir_directory fuel path entries s St O K) in H.
  apply emit_before_done in H. destruct H as (t1 & F & ->).
  destruct (foreachF_done_in _ _ _ _ _ _ F d_name I) as (s0 & u0 & s1 & t0 & B & Inc).
  rewrite (crawl_entry_visible _ path d_name s0 Hd) in B.
  apply emit_before_done in B. destruct B as (t2 & R & ->).
  split; apply in_or_app; right; apply Inc.
  - left. reflexivity.
  - right. exact (crawlDir_stats_first _ _ _ _ _ _ R).
Qed.

(** X8: [crawlDir] does not enter a directory exactly when what follows
    the last slash of its path (the whole path when it has none) is one of
    "node_modules", ".git", "build", "dist", "target", "vendor", compared
    as written.  Such a directory is opened and closed again: nothing in
    it is looked at and the store is unchanged.  Every other directory
    that can be opened is entered: the walk goes through its entries, and
    when it ends each entry that is not hidden has been announced and
    examined.  A path that ends in a slash has nothing after it, so
    "build/" is entered. *)
Theorem crawlDir_skipped_directories :
  (forall path : string,
      skipped_directory (last_component path) = true
      <-> exists name, In name skipped_names
                       /\ (path = name \/ exists base, path = base ++ "/" ++ name))
  /\ (forall (fuel : nat) (path name : string) (entries : list string)
             (s : Store Registry),
      In name skipped_names ->
      path = name \/ (exists base, path = base ++ "/" ++ name) ->
      stat fs path = Some S_IFDIR -> opendir fs path = Some entries ->
      crawlDir (S fuel) CrawlerAt (Some path) s =
      Done tt s [SysStat path;
                 Logr INFO "[Crawler] Opening directory: %s" [ArgS (Some path)];
                 SysOpendir path;
                 Logr DEBUG "[Crawler] Skipping non-source directory: %s"
                      [ArgS (Some path)]])
  /\ (forall (fuel : nat) (path : string) (entries : list string) (s : Store Registry),
      ~ (exists name, In name skipped_names
                      /\ (path = name \/ exists base, path = base ++ "/" ++ name)) ->
      stat fs path = Some S_IFDIR -> opendir fs path = Some entries ->
      entered fuel path entries s)
  /\ (forall (fuel : nat) (path : string) (entries : list string) (s : Store Registry),
      stat fs (path ++ "/") = Some S_IFDIR -> opendir fs (path ++ "/") = Some entries ->
      entered fuel (path ++ "/") entries s)
  /\ (forall path : string, skipped_directory (last_component (path ++ "/")) = false).
Proof.
  assert (N : forall name, In name skipped_names -> strrchr name "/" = None).
  { intros name I. unfold skipped_names in I. cbn [In] in I.
    repeat (destruct I as [<-|I]; [reflexivity|]). contradiction. }
  assert (B : forall path name, In name skipped_names ->
              path = name \/ (exists base, path = base ++ "/" ++ name) ->
              skipped_directory (last_component path) = true).
  { intros path name I [->|[base ->]]; apply skipped_directory_names.
    - unfold last_component. now rewrite (N name I).
    - now rewrite (last_component_app base name (N name I)). }
  assert (C : forall path,
              skipped_directory (last_component path) = true ->
              exists name, In name skipped_names
                           /\ (path = name \/ exists base, path = base ++ "/" ++ name)).
  { intros path K. apply skipped_directory_names in K.
    exists (last_component path). split; [exact K|].
    unfold last_component. destruct (strrchr path "/") as [t|] eqn:Sl.
    - right. apply strrchr_split in Sl. destruct Sl as (pre & rest & -> & -> & _).
      exists pre. reflexivity.
    - left. reflexivity. }
  split; [|split; [|split; [|split]]].
  - intros path. split; [apply C|].
    intros (name & I & P). exact (B path name I P).
  - intros fuel path name entries s I P St O.
    exact (crawlDir_skipped fuel path entries s St O (B path name I P)).
  - intros fuel path entries s NF St O. apply crawlDir_enters; [exact St|exact O|].
    destruct (skipped_directory (last_component path)) eqn:K; [|reflexivity].
    elim NF. exact (C path K).
  - intros fuel path entries s St O. apply crawlDir_enters; [exact St|exact O|].
    now rewrite last_component_slash.
  - intros path. now rewrite last_component_slash.
Qed.

(** ** What the walk opens *)

Section Traces.

Variable Q : Event -> Prop.
Hypothesis Q_logr : forall lvl format args, Q (Logr lvl format args).

Lemma emits_ret {A : Type} (a : A) : emits Q (ret a).
Proof. intros s. constructor. Qed.

Lemma emits_bind {A B : Type} (m : Cmd A) (k : A -> Cmd B) :
  emits Q m -> (forall a, emits Q (k a)) -> emits Q (bind m k).
Proof.
  intros Hm Hk s. rewrite events_bind. apply Forall_app. split; [apply Hm|apply Hk].
Qed.

Lemma emits_logr (lvl : LogLevel) (format : string) (args : list LogArg) :
  emits Q (logr lvl format args).
Proof. intros s. constructor; [apply Q_logr|constructor]. Qed.

Lemma emits_get_config (field : AnalysisConfig -> Z) : emits Q (get_config field).
Proof. intros s. constructor. Qed.

Lemma emits_get_dependency_graph : emits Q get_dependency_graph.
Proof. intros s. constructor. Qed.

Lemma emits_set_dependency_graph (p : ptr) : emits Q (set_dependency_graph p).
Proof. intros s. constructor. Qed.

Lemma emits_on_heap {A : Type} (f : list Dependency -> A * list Dependency) :
  emits Q (on_heap f).
Proof. intros s. unfold on_heap, events. destruct (f (heap s)). constructor. Qed.

Lemma emits_on_registry {A : Type} (f : Registry -> A * Registry) :
  emits Q (on_registry f).
Proof. intros s. unfold on_registry, events. destruct (f (registry s)). constructor. Qed.

Lemma emits_assign (dep : ptr) (f : Dependency -> Dependency) : emits Q (assign dep f).
Proof. apply emits_on_heap. Qed.

Lemma emits_languageType (filename : option string) :
  emits Q (lift_log (languageType filename)).
Proof.
  intros s. unfold lift_log, events, languageType. cbn [snd].
  destruct filename as [f|]; [|constructor].
  destruct (strrchr f "."); [|repeat constructor; apply Q_logr].
  repeat match goal with
         | |- context [if ?b then _ else _] => destruct b
         end; repeat constructor; apply Q_logr.
Qed.

Lemma emits_foreach {A : Type} (l : list A) (body : A -> Cmd unit) :
  (forall a, emits Q (body a)) -> emits Q (foreach l body).
Proof.
  intros H. induction l as [|a r IH]; cbn [foreach].
  - apply emits_ret.
  - apply emits_bind; [apply H|intros _; exact IH].
Qed.

Lemma emits_fold_cmd {A B : Type} (body : A -> B -> Cmd B) (l : list A) (b : B) :
  (forall a b, emits Q (body a b)) -> emits Q (fold_cmd body l b).
Proof.
  intros H. revert b. induction l as [|a r IH]; intros b; cbn [fold_cmd].
  - apply emits_ret.
  - apply emits_bind; [apply H|intros b'; apply IH].
Qed.

Lemma emits_map_cmd {A B : Type} (body : A -> Cmd B) (l : list A) :
  (forall a, emits Q (body a)) -> emits Q (map_cmd body l).
Proof.
  intros H. induction l as [|a r IH]; cbn [map_cmd].
  - apply emits_ret.
  - apply emits_bind; [apply H|intros b].
    apply emits_bind; [exact IH|intros bs; apply emits_ret].
Qed.

Ltac emits_step :=
  match goal with
  | |- emits _ (bind _ _) => apply emits_bind; [|intros ?]
  | |- emits _ (foreach _ _) => apply emits_foreach; intros ?
  | |- emits _ (fold_cmd _ _ _) => apply emits_fold_cmd; intros ? ?
  | |- emits _ (map_cmd _ _) => apply emits_map_cmd; intros ?
  | |- emits _ (if ?b then _ else _) => destruct b
  | |- emits _ (match ?x with _ => _ end) => destruct x
  | |- emits _ _ =>
      first [ apply emits_ret | apply emits_logr | apply emits_get_config
            | apply emits_get_dependency_graph | apply emits_set_dependency_graph
            | apply emits_assign | apply emits_on_heap | apply emits_on_registry
            | apply emits_languageType ]
  end.

(** [processLayer] makes no call to the file system. *)
Lemma emits_processLayer (c : CrawlerPtr) (filepath content : option string)
    (grammar : option Grammar) :
  emits Q (processLayer c filepath content grammar).
Proof.
  unfold processLayer, process_modules, process_structures, process_methods,
    graph_module, track_type_sources, resolve_type_sources, check_type_dependency,
    merge_extracted, graphMethods.
  repeat emits_step.
Qed.

(** [processFile] makes one at most: it opens the file it is given. *)
Lemma emits_processFile (c : CrawlerPtr) (path : string) :
  Q (SysFopen path) -> emits Q (processFile c (Some path)).
Proof.
  intros O. unfold processFile. destruct c; [apply emits_ret|].
  destruct (strrchr path ".") as [ext|]; [|apply emits_logr].
  destruct (skipped_extension (skip1 ext)); [apply emits_logr|].
  apply emits_bind; [apply emits_logr|]. intros _.
  apply emits_bind.
  - intros s. constructor; [exact O|constructor].
  - intros [bytes|]; [|apply emits_logr].
    apply emits_bind; [apply emits_languageType|]. intros lang.
    destruct (languageGrammars X lang); [apply emits_processLayer|apply emits_ret].
Qed.

Lemma emitsF_lift {A : Type} (m : Cmd A) : emits Q m -> emitsF Q (liftF m).
Proof.
  intros H s s' a t R. rewrite liftF_run in R. injection R as _ _ <-. apply H.
Qed.

Lemma emitsF_bind {A B : Type} (m : CmdF A) (k : A -> CmdF B) :
  emitsF Q m -> (forall a, emitsF Q (k a)) -> emitsF Q (bindF m k).
Proof.
  intros Hm Hk s s' b t R. unfold bindF in R.
  destruct (m s) as [| |a s1 t1] eqn:M; try discriminate.
  destruct (k a s1) as [| |b' s2 t2] eqn:K; try discriminate.
  injection R as _ _ <-. apply Forall_app. split.
  - eapply Hm. exact M.
  - eapply Hk. exact K.
Qed.

Lemma emitsF_foreach {A : Type} (l : list A) (body : A -> CmdF unit) :
  (forall a, emitsF Q (body a)) -> emitsF Q (foreachF l body).
Proof.
  intros H. induction l as [|a r IH]; cbn [foreachF].
  - apply emitsF_lift, emits_ret.
  - apply emitsF_bind; [apply H|intros _; exact IH].
Qed.

End Traces.

Lemma allowed_by_stat_crawlDir (fuel : nat) (c : CrawlerPtr) (path : option string) :
  emitsF allowed_by_stat (crawlDir fuel c path).
Proof.
  assert (L : forall lvl format args, allowed_by_stat (Logr lvl format args))
    by (intros; exact I).
  revert path. induction fuel as [|fuel IH]; intros path; cbn [crawlDir].
  - intros s s' a t R. discriminate.
  - destruct c; [apply emitsF_lift, emits_logr, L|].
    destruct path as [path|]; [|apply emitsF_lift, emits_logr, L].
    intros s s' a t R. rewrite bindF_lift in R.
    cbn [value store_of events fst snd sys_stat] in R.
    apply emit_before_done in R. destruct R as (t1 & R & ->).
    constructor; [exact I|]. revert s s' a t1 R.
    change (emitsF allowed_by_stat
              (match stat fs path with
               | Some S_IFREG =>
                   liftF (logr DEBUG "[Crawler] Processing file: %s" [ArgS (Some path)] ;;
                          processFile CrawlerAt (Some path))
               | Some S_IFDIR =>
                   liftF (logr INFO "[Crawler] Opening directory: %s"
                               [ArgS (Some path)]) ;;;
                   dir <-- liftF (sys_opendir path) ;;;
                   match dir with
                   | None =>
                       liftF (logr ERROR "[Crawler] Failed to open directory: %s"
                                   [ArgS (Some path)])
                   | Some entries =>
                       if skipped_directory (last_component path) then
                         liftF (logr DEBUG "[Crawler] Skipping non-source directory: %s"
                                     [ArgS (Some path)])
                       else
                         foreachF entries (crawl_entry (crawlDir fuel CrawlerAt) path)
                   end
               | Some S_IFOTHER =>
                   liftF (logr DEBUG "[Crawler] Skipping non-regular file/directory: %s"
                               [ArgS (Some path)])
               | None =>
                   liftF (logr ERROR "[Crawler] Failed to stat path: %s"
                               [ArgS (Some path)])
               end)).
    destruct (stat fs path) as [[| |]|] eqn:St.
    + apply emitsF_lift. apply emits_bind; [apply emits_logr, L|].
      intros _. apply emits_processFile; [exact L|exact St].
    + apply emitsF_bind; [apply emitsF_lift, emits_logr, L|]. intros _.
      apply emitsF_bind.
      { apply emitsF_lift. intros s. constructor; [exact St|constructor]. }
      intros [entries|]; [|apply emitsF_lift, emits_logr, L].
      destruct (skipped_directory (last_component path));
        [apply emitsF_lift, emits_logr, L|].
      apply emitsF_foreach. intros d_name. unfold crawl_entry.
      destruct (hidden_entry d_name); [apply emitsF_lift, emits_ret|].
      apply emitsF_bind; [apply emitsF_lift, emits_logr, L|]. intros _.
      apply IH.
    + apply emitsF_lift, emits_logr, L.
    + apply emitsF_lift, emits_logr, L.
Qed.

Lemma allowed_by_stat_crawlDeps (fuel : nat) (c : CrawlerPtr) :
  emitsF allowed_by_stat (crawlDeps fuel c).
Proof.
  unfold crawlDeps. destruct c; [intros s s' a t R; discriminate|].
  assert (L : forall lvl format args, allowed_by_stat (Logr lvl format args))
    by (intros; exact I).
  apply emitsF_bind; [apply emitsF_lift; intros s; constructor|].
  intros roots.
  apply emitsF_bind; [apply emitsF_lift, emits_logr, L|]. intros _.
  destruct roots as [roots|]; [|apply emitsF_lift, emits_logr, L].
  generalize 0%Z. induction roots as [|[dir|] rest IH]; intros i; cbn [crawl_roots].
  - apply emitsF_lift, emits_ret.
  - apply emitsF_bind; [apply emitsF_lift, emits_logr, L|]. intros _.
    apply emitsF_bind; [apply allowed_by_stat_crawlDir|]. intros _. apply IH.
  - apply emitsF_bind; [apply emitsF_lift, emits_logr, L|]. intros _. apply IH.
Qed.

(** X9: the walk opens no file and lists no directory on trust.  Every
    [fopen] of a crawl that ends is on a path whose [stat] says regular
    file, and every [opendir] on a path whose [stat] says directory; the
    analysis of a file ([processLayer]) makes no call to the file system at
    all, and [processFile] none but the [fopen] of its path. *)
Theorem crawl_opens_what_stat_allows :
  (forall (fuel : nat) (c : CrawlerPtr) (s s' : Store Registry) (t : list Event),
      crawlDeps fuel c s = Done tt s' t -> Forall allowed_by_stat t)
  /\ (forall (c : CrawlerPtr) (filepath content : option string)
             (grammar : option Grammar) (s : Store Registry) (e : Event),
      In e (events (processLayer c filepath content grammar s)) ->
      exists lvl format args, e = Logr lvl format args)
  /\ (forall (c : CrawlerPtr) (path : string) (s : Store Registry) (e : Event),
      In e (events (processFile c (Some path) s)) ->
      e = SysFopen path \/ exists lvl format args, e = Logr lvl format args).
Proof.
  split; [|split].
  - intros fuel c s s' t R. exact (allowed_by_stat_crawlDeps fuel c s s' tt t R).
  - intros c filepath content grammar s e H.
    pose proof (emits_processLayer
                  (fun e => exists lvl format args, e = Logr lvl format args)
                  (fun lvl format args => ex_intro _ lvl (ex_intro _ format
                     (ex_intro _ args eq_refl)))
                  c filepath content grammar s) as F.
    rewrite Forall_forall in F. exact (F e H).
  - intros c path s e H.
    pose proof (emits_processFile
                  (fun e => e = SysFopen path
                            \/ exists lvl format args, e = Logr lvl format args)
                  (fun lvl format args => or_intror (ex_intro _ lvl (ex_intro _ format
                     (ex_intro _ args eq_refl))))
                  c path (or_introl eq_refl) s) as F.
    rewrite Forall_forall in F. exact (F e H).
Qed.

(** ** Files of an unknown kind *)

(** X11: a file whose extension is neither refused by [processFile] nor
    known to [languageType] is not passed over: it is analysed with the
    grammar of the default language, Rust.  The store after [processFile]
    is the one [processLayer] leaves with that grammar on the text of the
    file. *)
Theorem processFile_unknown_extension (path ext bytes : string) (grammar : Grammar)
    (s : Store Registry) :
  strrchr path "." = Some (String "." ext) ->
  skipped_extension ext = false ->
  ~ In (strlower ext) known_extensions ->
  fopen fs path = Some bytes ->
  languageGrammars X LANG_RUST = Some grammar ->
  store_of (processFile CrawlerAt (Some path) s) =
  store_of (processLayer CrawlerAt (Some path) (Some (c_str bytes)) (Some grammar) s).
Proof.
  intros D K U O G.
  apply (processFile_source path (String "." ext) bytes grammar s D K O).
  now rewrite (languageType_unknown path ext D U).
Qed.

(** ** The settings of the crawler *)

Lemma steady_ret {A : Type} (a : A) : steady (ret a).
Proof. intros s. reflexivity. Qed.

Lemma steady_bind {A B : Type} (m : Cmd A) (k : A -> Cmd B) :
  steady m -> (forall a, steady (k a)) -> steady (bind m k).
Proof. intros Hm Hk s. rewrite store_bind. now rewrite Hk, Hm. Qed.

Lemma steady_logr (lvl : LogLevel) (format : string) (args : list LogArg) :
  steady (logr lvl format args).
Proof. intros s. reflexivity. Qed.

Lemma steady_lift_log {A : Type} (r : A * list Event) : steady (lift_log r).
Proof. intros s. reflexivity. Qed.

Lemma steady_sys_fopen (path : string) : steady (sys_fopen path).
Proof. intros s. reflexivity. Qed.

Lemma steady_sys_stat (path : string) : steady (sys_stat path).
Proof. intros s. reflexivity. Qed.

Lemma steady_sys_opendir (path : string) : steady (sys_opendir path).
Proof. intros s. reflexivity. Qed.

Lemma steady_get_config (field : AnalysisConfig -> Z) : steady (get_config field).
Proof. intros s. reflexivity. Qed.

Lemma steady_get_root_directories : steady get_root_directories.
Proof. intros s. reflexivity. Qed.

Lemma steady_get_dependency_graph : steady get_dependency_graph.
Proof. intros s. reflexivity. Qed.

Lemma steady_set_dependency_graph (p : ptr) : steady (set_dependency_graph p).
Proof. intros s. reflexivity. Qed.

Lemma steady_on_heap {A : Type} (f : list Dependency -> A * list Dependency) :
  steady (on_heap f).
Proof. intros s. unfold on_heap. destruct (f (heap s)). reflexivity. Qed.

Lemma steady_on_registry {A : Type} (f : Registry -> A * Registry) :
  steady (on_registry f).
Proof. intros s. unfold on_registry. destruct (f (registry s)). reflexivity. Qed.

Lemma steady_assign (dep : ptr) (f : Dependency -> Dependency) : steady (assign dep f).
Proof. apply steady_on_heap. Qed.

Lemma steady_foreach {A : Type} (l : list A) (body : A -> Cmd unit) :
  (forall a, steady (body a)) -> steady (foreach l body).
Proof.
  intros H. induction l as [|a r IH]; cbn [foreach].
  - apply steady_ret.
  - apply steady_bind; [apply H|intros _; exact IH].
Qed.

Lemma steady_fold_cmd {A B : Type} (body : A -> B -> Cmd B) (l : list A) (b : B) :
  (forall a b, steady (body a b)) -> steady (fold_cmd body l b).
Proof.
  intros H. revert b. induction l as [|a r IH]; intros b; cbn [fold_cmd].
  - apply steady_ret.
  - apply steady_bind; [apply H|intros b'; apply IH].
Qed.

Lemma steady_map_cmd {A B : Type} (body : A -> Cmd B) (l : list A) :
  (forall a, steady (body a)) -> steady (map_cmd body l).
Proof.
  intros H. induction l as [|a r IH]; cbn [map_cmd].
  - apply steady_ret.
  - apply steady_bind; [apply H|intros b].
    apply steady_bind; [exact IH|intros bs; apply steady_ret].
Qed.

Create HintDb steady discriminated.
#[local] Hint Resolve steady_ret steady_logr steady_lift_log steady_sys_fopen
  steady_sys_stat steady_sys_opendir steady_get_config steady_get_root_directories
  steady_get_dependency_graph steady_set_dependency_graph steady_on_heap
  steady_on_registry steady_assign : steady.

Ltac steady_step :=
  match goal with
  | |- steady (bind _ _) => apply steady_bind; [|intros ?]
  | |- steady (foreach _ _) => apply steady_foreach; intros ?
  | |- steady (fold_cmd _ _ _) => apply steady_fold_cmd; intros ? ?
  | |- steady (map_cmd _ _) => apply steady_map_cmd; intros ?
  | |- steady (if ?b then _ else _) => destruct b
  | |- steady (match ?x with _ => _ end) => destruct x
  | |- steady _ => solve [auto with steady]
  end.

Lemma steady_processLayer (c : CrawlerPtr) (filepath content : option string)
    (grammar : option Grammar) :
  steady (processLayer c filepath content grammar).
Proof.
  unfold processLayer, process_modules, process_structures, process_methods,
    graph_module, track_type_sources, resolve_type_sources, check_type_dependency,
    merge_extracted, graphMethods.
  repeat steady_step.
Qed.

#[local] Hint Resolve steady_processLayer : steady.

Lemma steady_processFile (c : CrawlerPtr) (file_path : option string) :
  steady (processFile c file_path).
Proof. unfold processFile. repeat steady_step. Qed.

Lemma steadyF_lift {A : Type} (m : Cmd A) : steady m -> steadyF (liftF m).
Proof.
  intros H s s' a t R. rewrite liftF_run in R. injection R as _ <- _. apply H.
Qed.

Lemma steadyF_bind {A B : Type} (m : CmdF A) (k : A -> CmdF B) :
  steadyF m -> (forall a, steadyF (k a)) -> steadyF (bindF m k).
Proof.
  intros Hm Hk s s' b t R. unfold bindF in R.
  destruct (m s) as [| |a s1 t1] eqn:M; try discriminate.
  destruct (k a s1) as [| |b' s2 t2] eqn:K; try discriminate.
  injection R as _ <- _. rewrite (Hk _ _ _ _ _ K). exact (Hm _ _ _ _ M).
Qed.

Lemma steadyF_foreach {A : Type} (l : list A) (body : A -> CmdF unit) :
  (forall a, steadyF (body a)) -> steadyF (foreachF l body).
Proof.
  intros H. induction l as [|a r IH]; cbn [foreachF].
  - apply steadyF_lift, steady_ret.
  - apply steadyF_bind; [apply H|intros _; exact IH].
Qed.

Lemma steadyF_crawlDir (fuel : nat) (c : CrawlerPtr) (path : option string) :
  steadyF (crawlDir fuel c path).
Proof.
  revert path. induction fuel as [|fuel IH]; intros path; cbn [crawlDir].
  - intros s s' a t R. discriminate.
  - destruct c; [apply steadyF_lift, steady_logr|].
    destruct path as [path|]; [|apply steadyF_lift, steady_logr].
    apply steadyF_bind; [apply steadyF_lift, steady_sys_stat|].
    intros [[| |]|].
    + apply steadyF_lift. apply steady_bind; [apply steady_logr|].
      intros _. apply steady_processFile.
    + apply steadyF_bind; [apply steadyF_lift, steady_logr|]. intros _.
      apply steadyF_bind; [apply steadyF_lift, steady_sys_opendir|].
      intros [entries|]; [|apply steadyF_lift, steady_logr].
      destruct (skipped_directory (last_component path));
        [apply steadyF_lift, steady_logr|].
      apply steadyF_foreach. intros d_name. unfold crawl_entry.
      destruct (hidden_entry d_name); [apply steadyF_lift, steady_ret|].
      apply steadyF_bind; [apply steadyF_lift, steady_logr|]. intros _.
      apply IH.
    + apply steadyF_lift, steady_logr.
    + apply steadyF_lift, steady_logr.
Qed.

Lemma steadyF_crawlDeps (fuel : nat) (c : CrawlerPtr) : steadyF (crawlDeps fuel c).
Proof.
  unfold crawlDeps. destruct c; [intros s s' a t R; discriminate|].
  apply steadyF_bind; [apply steadyF_lift, steady_get_root_directories|].
  intros roots.
  apply steadyF_bind; [apply steadyF_lift, steady_logr|]. intros _.
  destruct roots as [roots|]; [|apply steadyF_lift, steady_logr].
  generalize 0%Z. induction roots as [|[dir|] rest IH]; intros i; cbn [crawl_roots].
  - apply steadyF_lift, steady_ret.
  - apply steadyF_bind; [apply steadyF_lift, steady_logr|]. intros _.
    apply steadyF_bind; [apply steadyF_crawlDir|]. intros _. apply IH.
  - apply steadyF_bind; [apply steadyF_lift, steady_logr|]. intros _. apply IH.
Qed.

(** X12: a crawl writes to the graph and to nothing else of the crawler.
    When [crawlDeps] (or [crawlDir] on a path, or [processFile] on a file)
    returns, the list of roots and the five fields of the configuration
    are what they were: a crawler can be run again with the settings it
    was created with. *)
Theorem crawl_keeps_settings (fuel : nat) (c : CrawlerPtr) (s s' : Store Registry)
    (t : list Event) :
  (crawlDeps fuel c s = Done tt s' t ->
   root_directories (crawler s') = root_directories (crawler s)
   /\ analysis_config (crawler s') = analysis_config (crawler s))
  /\ (forall path : option string,
      crawlDir fuel c path s = Done tt s' t ->
      root_directories (crawler s') = root_directories (crawler s)
      /\ analysis_config (crawler s') = analysis_config (crawler s))
  /\ (forall file_path : option string,
      root_directories (crawler (store_of (processFile c file_path s)))
        = root_directories (crawler s)
      /\ analysis_config (crawler (store_of (processFile c file_path s)))
        = analysis_config (crawler s)).
Proof.
  split; [|split].
  - intros R. pose proof (steadyF_crawlDeps fuel c s s' tt t R) as E.
    unfold settings in E. now injection E.
  - intros path R. pose proof (steadyF_crawlDir fuel c path s s' tt t R) as E.
    unfold settings in E. now injection E.
  - intros file_path. pose proof (steady_processFile c file_path s) as E.
    unfold settings in E. now injection E.
Qed.

(** ** What the configuration is read for *)

Lemma alike_ret {A : Type} (a : A) : alike (ret a) (ret a).
Proof. intros s1 s2 H. repeat split; apply H. Qed.

Lemma alike_bind {A B : Type} (m1 m2 : Cmd A) (k1 k2 : A -> Cmd B) :
  alike m1 m2 -> (forall a, alike (k1 a) (k2 a)) -> alike (bind m1 k1) (bind m2 k2).
Proof.
  intros Hm Hk s1 s2 H. autorewrite with cmd.
  destruct (Hm s1 s2 H) as (V & E & G). rewrite V, E.
  destruct (Hk (value (m2 s2)) _ _ G) as (V' & E' & G'). rewrite V', E'.
  repeat split; apply G'.
Qed.

Lemma alike_pure {A : Type} (m : Cmd A) :
  (forall s, store_of (m s) = s) ->
  (forall s1 s2, agree s1 s2 -> value (m s1) = value (m s2)
                                /\ events (m s1) = events (m s2)) ->
  alike m m.
Proof.
  intros P Q s1 s2 H. destruct (Q s1 s2 H) as [V E]. rewrite !P.
  repeat split; try assumption; apply H.
Qed.

Lemma alike_logr (lvl : LogLevel) (format : string) (args : list LogArg) :
  alike (logr lvl format args) (logr lvl format args).
Proof. apply alike_pure; [reflexivity|]. intros s1 s2 _. split; reflexivity. Qed.

Lemma alike_lift_log {A : Type} (r : A * list Event) : alike (lift_log r) (lift_log r).
Proof. apply alike_pure; [reflexivity|]. intros s1 s2 _. split; reflexivity. Qed.

Lemma alike_sys_fopen (path : string) : alike (sys_fopen path) (sys_fopen path).
Proof. apply alike_pure; [reflexivity|]. intros s1 s2 _. split; reflexivity. Qed.

Lemma alike_sys_stat (path : string) : alike (sys_stat path) (sys_stat path).
Proof. apply alike_pure; [reflexivity|]. intros s1 s2 _. split; reflexivity. Qed.

Lemma alike_sys_opendir (path : string) : alike (sys_opendir path) (sys_opendir path).
Proof. apply alike_pure; [reflexivity|]. intros s1 s2 _. split; reflexivity. Qed.

Lemma alike_get_root_directories : alike get_root_directories get_root_directories.
Proof.
  apply alike_pure; [reflexivity|]. intros s1 s2 H. split; [apply H|reflexivity].
Qed.

Lemma alike_get_dependency_graph : alike get_dependency_graph get_dependency_graph.
Proof.
  apply alike_pure; [reflexivity|]. intros s1 s2 H. split; [apply H|reflexivity].
Qed.

Lemma alike_set_dependency_graph (p : ptr) :
  alike (set_dependency_graph p) (set_dependency_graph p).
Proof. intros s1 s2 H. repeat split; apply H. Qed.

Lemma alike_on_heap {A : Type} (f : list Dependency -> A * list Dependency) :
  alike (on_heap f) (on_heap f).
Proof.
  intros s1 s2 H. unfold on_heap. destruct H as (R & G & Hp & Rg & S).
  rewrite Hp. destruct (f (heap s2)) as [a h]. repeat split; assumption || apply S.
Qed.

Lemma alike_on_registry {A : Type} (f : Registry -> A * Registry) :
  alike (on_registry f) (on_registry f).
Proof.
  intros s1 s2 H. unfold on_registry. destruct H as (R & G & Hp & Rg & S).
  rewrite Rg. destruct (f (registry s2)) as [a r]. repeat split; assumption || apply S.
Qed.

Lemma alike_assign (dep : ptr) (f : Dependency -> Dependency) :
  alike (assign dep f) (assign dep f).
Proof. apply alike_on_heap. Qed.

(** A switch is read only to be tested against zero. *)
Lemma alike_get_switch {B : Type} (field : AnalysisConfig -> Z) (k : Z -> Cmd B) :
  (forall c1 c2, same_switches c1 c2 -> (field c1 =? 0)%Z = (field c2 =? 0)%Z) ->
  (forall z1 z2, (z1 =? 0)%Z = (z2 =? 0)%Z -> alike (k z1) (k z2)) ->
  alike (bind (get_config field) k) (bind (get_config field) k).
Proof.
  intros F K s1 s2 H. autorewrite with cmd.
  cbn [get_config value store_of events fst snd app].
  apply K; [|exact H]. apply F. apply H.
Qed.

Lemma alike_foreach {A : Type} (l : list A) (body : A -> Cmd unit) :
  (forall a, alike (body a) (body a)) -> alike (foreach l body) (foreach l body).
Proof.
  intros H. induction l as [|a r IH]; cbn [foreach].
  - apply alike_ret.
  - apply alike_bind; [apply H|intros _; exact IH].
Qed.

Lemma alike_fold_cmd {A B : Type} (body : A -> B -> Cmd B) (l : list A) (b : B) :
  (forall a b, alike (body a b) (body a b)) ->
  alike (fold_cmd body l b) (fold_cmd body l b).
Proof.
  intros H. revert b. induction l as [|a r IH]; intros b; cbn [fold_cmd].
  - apply alike_ret.
  - apply alike_bind; [apply H|intros b'; apply IH].
Qed.

Lemma alike_map_cmd {A B : Type} (body : A -> Cmd B) (l : list A) :
  (forall a, alike (body a) (body a)) -> alike (map_cmd body l) (map_cmd body l).
Proof.
  intros H. induction l as [|a r IH]; cbn [map_cmd].
  - apply alike_ret.
  - apply alike_bind; [apply H|intros b].
    apply alike_bind; [exact IH|intros bs; apply alike_ret].
Qed.

Create HintDb alike discriminated.
#[local] Hint Resolve alike_ret alike_logr alike_lift_log alike_sys_fopen alike_sys_stat
  alike_sys_opendir alike_get_root_directories alike_get_dependency_graph
  alike_set_dependency_graph alike_on_heap alike_on_registry alike_assign : alike.

Ltac alike_step :=
  match goal with
  | |- alike (bind (get_config _) _) _ =>
      apply alike_get_switch;
      [ let S := fresh "S" in intros ? ? S; apply S
      | let E := fresh "E" in intros ? ? E; cbv beta; rewrite E ]
  | |- alike (bind _ _) _ => apply alike_bind; [|intros ?]
  | |- alike (foreach _ _) _ => apply alike_foreach; intros ?
  | |- alike (fold_cmd _ _ _) _ => apply alike_fold_cmd; intros ? ?
  | |- alike (map_cmd _ _) _ => apply alike_map_cmd; intros ?
  | |- alike (if ?b then _ else _) _ => destruct b
  | |- alike (match ?x with _ => _ end) _ => destruct x
  | |- alike _ _ => solve [auto with alike]
  end.

Lemma alike_processLayer (c : CrawlerPtr) (filepath content : option string)
    (grammar : option Grammar) :
  alike (processLayer c filepath content grammar)
        (processLayer c filepath content grammar).
Proof.
  unfold processLayer, process_modules, process_structures, process_methods,
    graph_module, track_type_sources, resolve_type_sources, check_type_dependency,
    merge_extracted, graphMethods.
  repeat alike_step.
Qed.

#[local] Hint Resolve alike_processLayer : alike.

Lemma alike_processFile (c : CrawlerPtr) (file_path : option string) :
  alike (processFile c file_path) (processFile c file_path).
Proof. unfold processFile. repeat alike_step. Qed.

Lemma alikeF_lift {A : Type} (m : Cmd A) : alike m m -> alikeF (liftF m) (liftF m).
Proof.
  intros H s1 s2 G. rewrite !liftF_run. destruct (H s1 s2 G) as (V & E & G').
  cbn [agree_runs]. auto.
Qed.

Lemma alikeF_bind {A B : Type} (m : CmdF A) (k : A -> CmdF B) :
  alikeF m m -> (forall a, alikeF (k a) (k a)) -> alikeF (bindF m k) (bindF m k).
Proof.
  intros Hm Hk s1 s2 G. unfold bindF. specialize (Hm s1 s2 G).
  destruct (m s1) as [| |a1 s1' t1], (m s2) as [| |a2 s2' t2];
    cbn [agree_runs] in *; try tauto.
  destruct Hm as (-> & -> & G'). specialize (Hk a2 s1' s2' G').
  destruct (k a2 s1') as [| |b1 s1'' t1'], (k a2 s2') as [| |b2 s2'' t2'];
    cbn [agree_runs] in *; try tauto.
  destruct Hk as (-> & -> & G''). auto.
Qed.

Lemma alikeF_foreach {A : Type} (l : list A) (body : A -> CmdF unit) :
  (forall a, alikeF (body a) (body a)) -> alikeF (foreachF l body) (foreachF l body).
Proof.
  intros H. induction l as [|a r IH]; cbn [foreachF].
  - apply alikeF_lift, alike_ret.
  - apply alikeF_bind; [apply H|intros _; exact IH].
Qed.

Lemma alikeF_crawlDir (fuel : nat) (c : CrawlerPtr) (path : option string) :
  alikeF (crawlDir fuel c path) (crawlDir fuel c path).
Proof.
  revert path. induction fuel as [|fuel IH]; intros path; cbn [crawlDir].
  - intros s1 s2 G. exact I.
  - destruct c; [apply alikeF_lift, alike_logr|].
    destruct path as [path|]; [|apply alikeF_lift, alike_logr].
    apply alikeF_bind; [apply alikeF_lift, alike_sys_stat|].
    intros [[| |]|].
    + apply alikeF_lift. apply alike_bind; [apply alike_logr|].
      intros _. apply alike_processFile.
    + apply alikeF_bind; [apply alikeF_lift, alike_logr|]. intros _.
      apply alikeF_bind; [apply alikeF_lift, alike_sys_opendir|].
      intros [entries|]; [|apply alikeF_lift, alike_logr].
      destruct (skipped_directory (last_component path));
        [apply alikeF_lift, alike_logr|].
      apply alikeF_foreach. intros d_name. unfold crawl_entry.
      destruct (hidden_entry d_name); [apply alikeF_lift, alike_ret|].
      apply alikeF_bind; [apply alikeF_lift, alike_logr|]. intros _.
      apply IH.
    + apply alikeF_lift, alike_logr.
    + apply alikeF_lift, alike_logr.
Qed.

Lemma alikeF_crawlDeps (fuel : nat) (c : CrawlerPtr) :
  alikeF (crawlDeps fuel c) (crawlDeps fuel c).
Proof.
  unfold crawlDeps. destruct c; [intros s1 s2 G; exact I|].
  apply alikeF_bind; [apply alikeF_lift, alike_get_root_directories|].
  intros roots.
  apply alikeF_bind; [apply alikeF_lift, alike_logr|]. intros _.
  destruct roots as [roots|]; [|apply alikeF_lift, alike_logr].
  generalize 0%Z. induction roots as [|[dir|] rest IH]; intros i; cbn [crawl_roots].
  - apply alikeF_lift, alike_ret.
  - apply alikeF_bind; [apply alikeF_lift, alike_logr|]. intros _.
    apply alikeF_bind; [apply alikeF_crawlDir|]. intros _. apply IH.
  - apply alikeF_bind; [apply alikeF_lift, alike_logr|]. intros _. apply IH.
Qed.

(** X13: the crawl reads the configuration for one thing only, to test
    each of [analyzeModules], [analyze_structures] and [analyzeMethods]
    against zero.  From two stores that differ at most in configurations
    that switch the same layers on, [crawlDeps] and [crawlDir] make the
    same calls and log the same messages, and end (or fail to) alike, in
    stores with the same graph head, heap and analyzers' tables: neither
    [max_depth] nor [follow_external] has any effect, and a switch set to
    any value but zero acts as one set to 1. *)
Theorem crawl_reads_switches_only (fuel : nat) (c : CrawlerPtr)
    (s1 s2 : Store Registry) :
  agree s1 s2 ->
  agree_runs (crawlDeps fuel c s1) (crawlDeps fuel c s2)
  /\ (forall path : option string,
         agree_runs (crawlDir fuel c path s1) (crawlDir fuel c path s2)).
Proof.
  intros G. split.
  - now apply alikeF_crawlDeps.
  - intros path. now apply alikeF_crawlDir.
Qed.

(** ** The cross-reference pass on any list of records *)

Lemma strstr_app (pre text tgt : string) :
  strstr text tgt = true -> strstr (pre ++ text) tgt = true.
Proof.
  intros H. induction pre as [|c pre IH]; [exact H|].
  cbn [append strstr]. rewrite IH. apply orb_true_r.
Qed.

Lemma target_occurs_stamped (m m' : ExtractedDependency) (text : string) :
  target_occurs text m' = true -> target_occurs (stamped m text) m' = true.
Proof.
  unfold target_occurs, stamped. destruct (target m') as [tgt|]; [|discriminate].
  intros H. rewrite <- append_assoc. now apply strstr_app.
Qed.

Lemma resolve_type_sources_null (type_deps : list ExtractedDependency)
    (curr_struct : Structure) (s : Store Registry) :
  s_dependencies curr_struct = None ->
  value (resolve_type_sources type_deps curr_struct s) = curr_struct
  /\ store_of (resolve_type_sources type_deps curr_struct s) = s.
Proof.
  intros D. unfold resolve_type_sources.
  induction type_deps as [|m rest IH]; [split; reflexivity|].
  cbn [fold_cmd]. autorewrite with cmd.
  assert (C : check_type_dependency m curr_struct s =
              (curr_struct, s,
               [Logr VERBOSE "[Crawler] Checking type dependency: %s"
                     [ArgS (Some (or_NULL (target m)))]])).
  { unfold check_type_dependency. rewrite D, bind_run.
    destruct (target m); reflexivity. }
  rewrite C. exact IH.
Qed.

Lemma resolve_type_sources_text (type_deps : list ExtractedDependency) :
  forall (curr_struct : Structure) (text : string) (s : Store Registry),
    s_dependencies curr_struct = Some text ->
    let r := value (resolve_type_sources type_deps curr_struct s) in
    store_of (resolve_type_sources type_deps curr_struct s) = s
    /\ s_name r = s_name curr_struct
    /\ s_methods r = s_methods curr_struct
    /\ implemented_traits r = implemented_traits curr_struct
    /\ dependency_count r = dependency_count curr_struct
    /\ (exists stamps, s_dependencies r = Some (stamps ++ text))
    /\ (Forall (fun m => target_occurs text m = true) type_deps ->
        s_dependencies r =
        Some (fold_left (fun acc m => stamped m acc) type_deps text)).
Proof.
  unfold resolve_type_sources.
  induction type_deps as [|m rest IH]; intros curr_struct text s D; cbv zeta.
  - cbn [fold_cmd]. autorewrite with cmd. repeat split; try reflexivity.
    + exists "". exact D.
    + intros _. exact D.
  - cbn [fold_cmd]. autorewrite with cmd.
    destruct (check_type_dependency_step m curr_struct text s D) as [V S].
    rewrite V, S. destruct (target_occurs text m) eqn:O.
    + destruct (IH (set_s_dependencies (Some (stamped m text)) curr_struct)
                   (stamped m text) s eq_refl)
        as (S' & N & M & T & C & (stamps & E) & A).
      repeat split; try assumption.
      * exists (stamps ++ or_empty (file_path m) ++ ":"). rewrite E.
        unfold stamped. now rewrite !append_assoc.
      * intros F. inversion F as [|? ? _ F']; subst. cbn [fold_left]. apply A.
        eapply Forall_impl; [|exact F']. intros m'. apply target_occurs_stamped.
    + destruct (IH curr_struct text s D) as (S' & N & M & T & C & St & A).
      repeat split; try assumption.
      intros F. inversion F as [|? ? O' _]; subst. congruence.
Qed.

(** X14: the cross-reference pass, for any list of module records.  It
    changes nothing but the dependency text of the structure, and nothing
    of the store; a structure with no dependency text keeps none; a text
    is only ever extended in front, so the original text stays at the end
    of the result.  A record whose target occurs in the original text
    always stamps, whatever the earlier records did: when every record is
    such a one, the result carries one stamp per record, the last record's
    outermost. *)
Theorem resolve_type_sources_stamps (type_deps : list ExtractedDependency)
    (curr_struct : Structure) (s : Store Registry) :
  let r := value (resolve_type_sources type_deps curr_struct s) in
  store_of (resolve_type_sources type_deps curr_struct s) = s
  /\ s_name r = s_name curr_struct
  /\ s_methods r = s_methods curr_struct
  /\ implemented_traits r = implemented_traits curr_struct
  /\ dependency_count r = dependency_count curr_struct
  /\ (s_dependencies curr_struct = None -> s_dependencies r = None)
  /\ (forall text : string,
      s_dependencies curr_struct = Some text ->
      (exists stamps, s_dependencies r = Some (stamps ++ text))
      /\ (Forall (fun m => target_occurs text m = true) type_deps ->
          s_dependencies r =
          Some (fold_left (fun acc m => stamped m acc) type_deps text))).
Proof.
  intros r. subst r. destruct (s_dependencies curr_struct) as [text|] eqn:D.
  - destruct (resolve_type_sources_text type_deps curr_struct text s D)
      as (S' & N & M & T & C & St & A).
    split; [exact S'|]. split; [exact N|]. split; [exact M|]. split; [exact T|].
    split; [exact C|]. split; [discriminate|].
    intros text' E. injection E as <-. split; assumption.
  - destruct (resolve_type_sources_null type_deps curr_struct s D) as [V S'].
    rewrite V. split; [exact S'|]. do 4 (split; [reflexivity|]).
    split; [intros _; exact D|]. intros text' E. discriminate.
Qed.

(** ** Entries that are passed over *)

Lemma foreachF_ext {A : Type} (l : list A) (body1 body2 : A -> CmdF unit) :
  (forall a s, body1 a s = body2 a s) ->
  forall s, foreachF l body1 s = foreachF l body2 s.
Proof.
  intros E. induction l as [|a rest IH]; intros s; [reflexivity|].
  cbn [foreachF]. unfold bindF. rewrite E.
  destruct (body2 a s) as [| |u s1 t1]; try reflexivity. now rewrite IH.
Qed.

Lemma crawl_entry_ext (recurse1 recurse2 : option string -> CmdF unit)
    (path d_name : string) (s : Store Registry) :
  (forall p s0, recurse1 p s0 = recurse2 p s0) ->
  crawl_entry recurse1 path d_name s = crawl_entry recurse2 path d_name s.
Proof.
  intros E. unfold crawl_entry. destruct (hidden_entry d_name); [reflexivity|].
  rewrite !bindF_lift. now rewrite E.
Qed.

(** ** The text that is analysed *)

Lemma c_str_app_zero (text rest : string) :
  c_str (text ++ String zero rest) = c_str text.
Proof.
  induction text as [|c text IH]; [reflexivity|].
  cbn [append c_str]. now rewrite IH.
Qed.

(** X18: the extractors are handed the text of a file as a C string, so
    they see it up to its first NUL byte.  For a file that holds [text],
    a NUL byte and anything else, [processFile] leaves the store
    [processLayer] leaves on [text] (itself cut at a NUL it may hold):
    what follows the byte is never analysed. *)
Theorem processFile_stops_at_NUL (path ext text rest : string) (grammar : Grammar)
    (s : Store Registry) :
  strrchr path "." = Some ext -> skipped_extension (skip1 ext) = false ->
  fopen fs path = Some (text ++ String zero rest) ->
  languageGrammars X (fst (languageType (Some path))) = Some grammar ->
  store_of (processFile CrawlerAt (Some path) s) =
  store_of (processLayer CrawlerAt (Some path) (Some (c_str text)) (Some grammar) s).
Proof.
  intros D K O G.
  rewrite (processFile_source path ext _ grammar s D K O G).
  now rewrite c_str_app_zero.
Qed.

(** ** Paths that do not fit the buffer *)

Lemma substring_0_length (n : nat) (s : string) :
  String.length (substring 0 n s) = Nat.min n (String.length s).
Proof.
  revert n. induction s as [|c s IH]; intros [|n]; simpl; try reflexivity.
  now rewrite IH.
Qed.

Lemma substring_0_prefix (n : nat) (s : string) :
  exists rest, s = substring 0 n s ++ rest.
Proof.
  revert n. induction s as [|c s IH]; intros [|n]; simpl.
  - exists "". reflexivity.
  - exists "". reflexivity.
  - exists (String c s). reflexivity.
  - destruct (IH n) as [rest E]. exists rest. now rewrite <- E.
Qed.

(** X19: [crawlDir] builds the path of an entry in a buffer of 1024
    bytes.  When the directory path, a slash and the name of the entry
    take 1024 characters or more, the walk goes on with the first 1023
    characters: it is that other path, not the entry, that is logged,
    examined and possibly processed. *)
Theorem crawl_entry_long_path (recurse : option string -> CmdF unit)
    (path d_name : string) (s : Store Registry) :
  hidden_entry d_name = false ->
  1024 <= String.length (path ++ "/" ++ d_name) ->
  exists full_path rest : string,
    String.length full_path = 1023
    /\ path ++ "/" ++ d_name = full_path ++ rest
    /\ full_path <> path ++ "/" ++ d_name
    /\ crawl_entry recurse path d_name s =
       emit_before [Logr DEBUG "[Crawler] Found entry: %s" [ArgS (Some full_path)]]
                   (recurse (Some full_path) s).
Proof.
  intros H L.
  destruct (substring_0_prefix 1023 (path ++ "/" ++ d_name)) as [rest E].
  assert (N : String.length (snprintf_trunc 1024 (path ++ "/" ++ d_name)) = 1023).
  { unfold snprintf_trunc. cbn [Nat.sub]. rewrite substring_0_length. lia. }
  exists (snprintf_trunc 1024 (path ++ "/" ++ d_name)), rest.
  split; [exact N|]. split; [exact E|]. split.
  - intros C. rewrite C in N. lia.
  - apply crawl_entry_visible. exact H.
Qed.

(** ** How often the module extractor runs *)

Lemma resolve_type_sources_store (type_deps : list ExtractedDependency)
    (curr_struct : Structure) (s : Store Registry) :
  store_of (resolve_type_sources type_deps curr_struct s) = s.
Proof.
  destruct (s_dependencies curr_struct) as [text|] eqn:D.
  - apply (resolve_type_sources_text type_deps curr_struct text s D).
  - apply (resolve_type_sources_null type_deps curr_struct s D).
Qed.

Lemma merge_extracted_registry (created added : string) (dep : ExtractedDependency)
    (s : Store Registry) :
  registry (store_of (merge_extracted created added dep s)) = registry s.
Proof.
  destruct (Nat.eq_dec (dependency_graph (crawler s)) NULL) as [E|E].
  - now rewrite (merge_extracted_empty created added dep s E).
  - now rewrite (merge_extracted_nonempty created added dep s E).
Qed.

Lemma track_type_sources_registry (content : string) (grammar : Grammar)
    (structs : list Structure) :
  forall s : Store Registry,
    registry (store_of (map_cmd (track_type_sources content grammar) structs s)) =
    Nat.iter (length structs) (fun r => snd (analyzeModule X content grammar r))
             (registry s).
Proof.
  induction structs as [|st rest IH]; intros s; [reflexivity|].
  cbn [map_cmd length]. autorewrite with cmd. rewrite IH, Nat.iter_succ_r.
  f_equal. unfold track_type_sources. autorewrite with cmd.
  rewrite resolve_type_sources_store. unfold on_registry.
  destruct (analyzeModule X content grammar (registry s)). reflexivity.
Qed.

(** X20: the structure step of [processLayer] runs the module extractor
    on the whole text of the file again for every structure the structure
    extractor found.  The analyzers' tables after the step are those the
    structure extractor left, passed through the module extractor once per
    structure. *)
Theorem process_structures_rescans (filepath content : string) (grammar : Grammar)
    (s : Store Registry) :
  registry (store_of (process_structures filepath content grammar s)) =
  Nat.iter (length (fst (analyze_structure X content filepath grammar (registry s))))
           (fun r => snd (analyzeModule X content grammar r))
           (snd (analyze_structure X content filepath grammar (registry s))).
Proof.
  unfold process_structures. autorewrite with cmd.
  assert (V : value (on_registry (analyze_structure X content filepath grammar) s) =
              fst (analyze_structure X content filepath grammar (registry s))).
  { unfold on_registry.
    destruct (analyze_structure X content filepath grammar (registry s)). reflexivity. }
  assert (R : registry (store_of (on_registry
                                    (analyze_structure X content filepath grammar) s)) =
              snd (analyze_structure X content filepath grammar (registry s))).
  { unfold on_registry.
    destruct (analyze_structure X content filepath grammar (registry s)). reflexivity. }
  rewrite V.
  destruct (fst (analyze_structure X content filepath grammar (registry s)))
    as [|st rest] eqn:F.
  - autorewrite with cmd. exact R.
  - autorewrite with cmd. rewrite merge_extracted_registry.
    rewrite track_type_sources_registry. now rewrite R.
Qed.

(** ** The head of the graph after a file *)

Lemma steady_process_modules (filepath content : string) (grammar : Grammar) :
  steady (process_modules filepath content grammar).
Proof.
  unfold process_modules, graph_module, merge_extracted. repeat steady_step.
Qed.

Lemma steady_process_structures (filepath content : string) (grammar : Grammar) :
  steady (process_structures filepath content grammar).
Proof.
  unfold process_structures, track_type_sources, resolve_type_sources,
    check_type_dependency, merge_extracted.
  repeat steady_step.
Qed.

Lemma process_methods_head (filepath content : string) (grammar : Grammar)
    (s : Store Registry) (m : Method) (ms : list Method) :
  fst (analyzeMethod X filepath content grammar (registry s)) = m :: ms ->
  let s' := store_of (process_methods CrawlerAt filepath content grammar s) in
  heap_get (heap s') (dependency_graph (crawler s')) =
  Some (method_node filepath (m :: ms) (dependency_graph (crawler s))).
Proof.
  intros A s'. subst s'. unfold process_methods. autorewrite with cmd.
  assert (V : value (on_registry (analyzeMethod X filepath content grammar) s) = m :: ms).
  { unfold on_registry. destruct (analyzeMethod X filepath content grammar (registry s)).
    exact A. }
  rewrite V. autorewrite with cmd. rewrite graphMethods_run.
  cbn [store_of fst snd crawler heap dependency_graph].
  rewrite heap_get_last. unfold on_registry.
  destruct (analyzeMethod X filepath content grammar (registry s)). reflexivity.
Qed.

Lemma processLayer_method_node (filepath content : string) (grammar : Grammar)
    (s : Store Registry) :
  analyzeMethods (analysis_config (crawler s)) <> 0%Z ->
  (forall r : Registry, fst (analyzeMethod X filepath content grammar r) <> []) ->
  let s' := store_of (processLayer CrawlerAt (Some filepath) (Some content)
                                   (Some grammar) s) in
  exists (m : Method) (ms : list Method) (previous : ptr),
    heap_get (heap s') (dependency_graph (crawler s')) =
    Some (method_node filepath (m :: ms) previous).
Proof.
  intros On Found s'. subst s'. unfold processLayer. rewrite !store_bind.
  rewrite store_logr.
  match goal with
  | |- context [get_config analyzeMethods ?S] => set (s2 := S)
  end.
  assert (K : settings s2 = settings s).
  { subst s2.
    repeat match goal with
           | |- settings (store_of (?m ?s0)) = _ =>
               transitivity (settings s0);
               [ first [ apply steady_get_config | apply steady_logr
                       | destruct (value _ =? 0)%Z;
                         first [ apply steady_ret | apply steady_process_modules
                               | apply steady_process_structures ] ]
               | ]
           end.
    reflexivity. }
  assert (Z : (value (get_config analyzeMethods s2) =? 0)%Z = false).
  { apply Z.eqb_neq. unfold settings in K. injection K as _ K.
    cbn [get_config value fst]. now rewrite K. }
  rewrite Z.
  change (store_of (get_config analyzeMethods s2)) with s2.
  destruct (fst (analyzeMethod X filepath content grammar (registry s2)))
    as [|m ms] eqn:A; [now elim (Found (registry s2))|].
  exists m, ms, (dependency_graph (crawler s2)).
  exact (process_methods_head filepath content grammar s2 m ms A).
Qed.

(** X22: the head of the graph after a file with methods.  When the
    method layer is switched on and the method extractor finds methods in
    a file, [processLayer] returns with [crawler->dependency_graph] at the
    method-layer node of that file, whatever the module and structure
    steps merged before: the node has the path of the file as its source
    and owns the methods found. *)
Theorem processLayer_ends_on_methods (filepath content : string) (grammar : Grammar)
    (s : Store Registry) :
  analyzeMethods (analysis_config (crawler s)) <> 0%Z ->
  (forall r : Registry, fst (analyzeMethod X filepath content grammar r) <> []) ->
  let s' := store_of (processLayer CrawlerAt (Some filepath) (Some content)
                                   (Some grammar) s) in
  exists d : Dependency,
    heap_get (heap s') (dependency_graph (crawler s')) = Some d
    /\ level d = LAYER_METHOD
    /\ source d = Some filepath
    /\ d_methods d <> [].
Proof.
  intros On Found s'.
  destruct (processLayer_method_node filepath content grammar s On Found)
    as (m & ms & previous & H).
  exists (method_node filepath (m :: ms) previous).
  split; [exact H|]. split; [reflexivity|]. split; [reflexivity|]. discriminate.
Qed.

(** ** A source file beside a file that is not one *)


(** ** The report *)

Lemma quiet_ret {A : Type} (a : A) : quiet (ret a).
Proof. intros s. split; [reflexivity|]. split; [reflexivity|constructor]. Qed.

Lemma quiet_bind {A B : Type} (m : Cmd A) (k : A -> Cmd B) :
  quiet m -> (forall a, quiet (k a)) -> quiet (bind m k).
Proof.
  intros Hm Hk s. autorewrite with cmd. destruct (Hm s) as (C & H & E).
  destruct (Hk (value (m s)) (store_of (m s))) as (C' & H' & E').
  split; [congruence|]. split; [congruence|]. apply Forall_app. now split.
Qed.

Lemma quiet_info (format : string) (args : list LogArg) : quiet (logr INFO format args).
Proof.
  intros s. split; [reflexivity|]. split; [reflexivity|].
  constructor; [exact I|constructor].
Qed.

Lemma quiet_on_registry {A : Type} (f : Registry -> A * Registry) :
  quiet (on_registry f).
Proof.
  intros s. unfold on_registry. destruct (f (registry s)).
  split; [reflexivity|]. split; [reflexivity|constructor].
Qed.

Lemma quiet_fold_cmd {A B : Type} (body : A -> B -> Cmd B) (l : list A) (b : B) :
  (forall a b, quiet (body a b)) -> quiet (fold_cmd body l b).
Proof.
  intros H. revert b. induction l as [|a r IH]; intros b; cbn [fold_cmd].
  - apply quiet_ret.
  - apply quiet_bind; [apply H|intros b'; apply IH].
Qed.

Lemma quiet_print_calls (dep_header_prefix : string) (dep : list (option string)) :
  quiet (print_calls dep_header_prefix dep).
Proof.
  induction dep as [|name rest IH]; cbn [print_calls]; [apply quiet_ret|].
  apply quiet_bind; [apply quiet_info|intros _; exact IH].
Qed.

Lemma quiet_print_references (ref_header_prefix : string) (ref_count : Z)
    (ref : list (option string)) :
  forall current_ref,
    quiet (print_references ref_header_prefix ref_count ref current_ref).
Proof.
  induction ref as [|[called_in|] rest IH]; intros current_ref;
    cbn [print_references]; [apply quiet_ret| |apply IH].
  apply quiet_bind; [apply quiet_info|intros _; apply IH].
Qed.

Lemma quiet_print_method (method : Method) (is_last_method : bool) :
  quiet (print_method method is_last_method).
Proof.
  unfold print_method.
  apply quiet_bind; [apply quiet_on_registry|]. intros signature.
  apply quiet_bind; [apply quiet_info|]. intros _.
  apply quiet_bind; [apply quiet_on_registry|]. intros [def|]; [|apply quiet_ret].
  apply quiet_bind.
  - destruct (def_dependencies def); [apply quiet_ret|].
    apply quiet_bind; [apply quiet_info|intros _; apply quiet_print_calls].
  - intros _. destruct (def_references def); [apply quiet_ret|].
    apply quiet_bind; [apply quiet_info|intros _; apply quiet_print_references].
Qed.

Lemma quiet_printMethods (method : list Method) (source_file : option string) :
  quiet (printMethods method source_file).
Proof.
  induction method as [|m rest IH]; cbn [printMethods]; [apply quiet_ret|].
  apply quiet_bind; [apply quiet_print_method|intros _; exact IH].
Qed.

Lemma quiet_print_referenced_in (refs : list (option string)) :
  quiet (print_referenced_in refs).
Proof.
  induction refs as [|name rest IH]; cbn [print_referenced_in]; [apply quiet_ret|].
  apply quiet_bind; [apply quiet_info|intros _; exact IH].
Qed.

Lemma quiet_print_structures : quiet print_structures.
Proof.
  unfold print_structures.
  apply quiet_bind; [apply quiet_info|]. intros _.
  apply quiet_bind; [apply quiet_info|]. intros _.
  apply quiet_bind; [apply quiet_on_registry|]. intros defs.
  apply quiet_bind; [|intros struct_count; apply quiet_info].
  apply quiet_fold_cmd. intros def struct_count.
  apply quiet_bind; [apply quiet_info|]. intros _.
  destruct (referenced_in def); [apply quiet_ret|].
  apply quiet_bind; [apply quiet_info|]. intros _.
  apply quiet_bind; [apply quiet_print_referenced_in|intros _; apply quiet_ret].
Qed.

Lemma quiet_print_node_methods (file : string) (current : Dependency)
    (method_count : Z) :
  quiet (print_node_methods file current method_count).
Proof.
  unfold print_node_methods.
  destruct (level current), (source current) as [src|]; try apply quiet_ret.
  destruct (strcmp src file =? 0)%Z; [|apply quiet_ret].
  apply quiet_bind; [apply quiet_printMethods|intros _; apply quiet_ret].
Qed.

Lemma quiet_print_file_methods (nodes : list Dependency) (file : string)
    (method_count : Z) :
  quiet (print_file_methods nodes file method_count).
Proof.
  unfold print_file_methods.
  apply quiet_bind; [apply quiet_info|]. intros _.
  apply quiet_bind; [apply quiet_info|]. intros _.
  apply quiet_bind; [apply quiet_fold_cmd; intros; apply quiet_print_node_methods|].
  intros n. apply quiet_bind; [apply quiet_info|intros _; apply quiet_ret].
Qed.

Lemma quietF_lift {A : Type} (m : Cmd A) : quiet m -> quietF (liftF m).
Proof.
  intros H s s' a t R. rewrite liftF_run in R. injection R as _ <- <-. apply H.
Qed.

Lemma quietF_bind {A B : Type} (m : CmdF A) (k : A -> CmdF B) :
  quietF m -> (forall a, quietF (k a)) -> quietF (bindF m k).
Proof.
  intros Hm Hk s s' b t R. unfold bindF in R.
  destruct (m s) as [| |a s1 t1] eqn:M; try discriminate.
  destruct (k a s1) as [| |b' s2 t2] eqn:K; try discriminate.
  injection R as _ <- <-.
  destruct (Hm _ _ _ _ M) as (C & H & E). destruct (Hk _ _ _ _ _ K) as (C' & H' & E').
  split; [congruence|]. split; [congruence|]. apply Forall_app. now split.
Qed.

Lemma quietF_read_graph (fuel : nat) (p : ptr) : quietF (read_graph fuel p).
Proof.
  intros s s' a t R. unfold read_graph in R.
  destruct (graph_nodes fuel (heap s) p) as [[|nodes]|]; try discriminate.
  injection R as _ <- <-. split; [reflexivity|]. split; [reflexivity|constructor].
Qed.

Lemma quietF_print_modules (nodes : list Dependency) :
  forall (current_file : option string) (module_count : Z),
    quietF (print_modules current_file nodes module_count).
Proof.
  induction nodes as [|dep rest IH]; intros current_file module_count;
    cbn [print_modules].
  - apply quietF_lift, quiet_ret.
  - destruct (source dep) as [src|]; [|intros s s' a t R; discriminate].
    apply quietF_bind.
    + apply quietF_lift. destruct current_file as [file|]; [|apply quiet_info].
      destruct (strcmp file src =? 0)%Z; [apply quiet_ret|apply quiet_info].
    + intros _. destruct (next_with_same_source src rest) as [|found];
        [intros s s' a t R; discriminate|].
      apply quietF_bind; [apply quietF_lift, quiet_info|intros _; apply IH].
Qed.

Lemma quietF_report_modules (fuel : nat) (graph : ptr) :
  quietF (report_modules fuel graph).
Proof.
  unfold report_modules.
  apply quietF_bind.
  { apply quietF_lift, quiet_bind; [apply quiet_info|intros _; apply quiet_info]. }
  intros _. apply quietF_bind; [apply quietF_read_graph|]. intros nodes.
  apply quietF_bind; [apply quietF_print_modules|]. intros module_count.
  apply quietF_lift, quiet_bind; [apply quiet_info|intros _; apply quiet_ret].
Qed.

Lemma quietF_report_methods (fuel : nat) (graph : ptr) :
  quietF (report_methods fuel graph).
Proof.
  unfold report_methods.
  apply quietF_bind.
  { apply quietF_lift, quiet_bind; [apply quiet_info|intros _; apply quiet_info]. }
  intros _. apply quietF_bind; [apply quietF_read_graph|]. intros nodes.
  apply quietF_lift, quiet_bind.
  - apply quiet_fold_cmd. intros file n. apply quiet_print_file_methods.
  - intros n. apply quiet_bind; [apply quiet_info|intros _; apply quiet_ret].
Qed.

Lemma quietF_printDependencies (fuel : nat) (c : CrawlerPtr) :
  quietF (printDependencies fuel c).
Proof.
  unfold printDependencies. destruct c; [intros s s' a t R; discriminate|].
  apply quietF_bind.
  { apply quietF_lift. intros s. split; [reflexivity|]. split; [reflexivity|].
    constructor. }
  intros graph. destruct (graph =? NULL)%nat; [apply quietF_lift, quiet_info|].
  apply quietF_bind.
  { apply quietF_lift, quiet_bind; [apply quiet_info|intros _; apply quiet_info]. }
  intros _. apply quietF_bind.
  { apply quietF_lift. intros s. split; [reflexivity|]. split; [reflexivity|].
    constructor. }
  intros modules_on. apply quietF_bind.
  { destruct (modules_on =? 0)%Z; [apply quietF_lift, quiet_ret|].
    apply quietF_report_modules. }
  intros module_count. apply quietF_bind.
  { apply quietF_lift. intros s. split; [reflexivity|]. split; [reflexivity|].
    constructor. }
  intros structures_on. apply quietF_bind.
  { destruct (structures_on =? 0)%Z; apply quietF_lift;
      [apply quiet_ret|apply quiet_print_structures]. }
  intros _. apply quietF_bind.
  { apply quietF_lift. intros s. split; [reflexivity|]. split; [reflexivity|].
    constructor. }
  intros methods_on. apply quietF_bind.
  { destruct (methods_on =? 0)%Z; [apply quietF_lift, quiet_ret|].
    apply quietF_report_methods. }
  intros method_count. apply quietF_lift, quiet_info.
Qed.

(** X15: whatever format it is asked for, [exportDeps] exports nothing.
    For "json" and for "graphviz" it logs that the export is not
    implemented, without a look at the graph; for any other format it is
    [printDependencies].  When either function returns, every event was a
    message logged at the level INFO (no file was opened or written), and
    the crawler object and the nodes of the graph are what they were. *)
Theorem exportDeps_only_logs (fuel : nat) (c : CrawlerPtr) (s : Store Registry) :
  exportDeps fuel c (Some "json") s =
    Done tt s [Logr INFO "[Crawler] JSON export not yet implemented" []]
  /\ exportDeps fuel c (Some "graphviz") s =
     Done tt s [Logr INFO "[Crawler] GraphViz export not yet implemented" []]
  /\ (forall output_format : string,
         output_format <> "json" -> output_format <> "graphviz" ->
         exportDeps fuel c (Some output_format) s = printDependencies fuel c s)
  /\ (forall (output_format : option string) (s' : Store Registry) (t : list Event),
         exportDeps fuel c output_format s = Done tt s' t
         \/ printDependencies fuel c s = Done tt s' t ->
         crawler s' = crawler s /\ heap s' = heap s /\ Forall info_log t).
Proof.
  split; [reflexivity|]. split; [reflexivity|]. split.
  - intros output_format J G. unfold exportDeps.
    apply strcmp_neq_0 in J. apply strcmp_neq_0 in G. now rewrite J, G.
  - intros output_format s' t [R|R].
    + unfold exportDeps in R. destruct output_format as [f|]; [|discriminate].
      destruct (strcmp f "json" =? 0)%Z.
      { exact (quietF_lift _ (quiet_info _ _) s s' tt t R). }
      destruct (strcmp f "graphviz" =? 0)%Z.
      { exact (quietF_lift _ (quiet_info _ _) s s' tt t R). }
      exact (quietF_printDependencies fuel c s s' tt t R).
    + exact (quietF_printDependencies fuel c s s' tt t R).
Qed.

(** *** The counts of the report *)

Lemma bindF_inv {A B : Type} (m : CmdF A) (k : A -> CmdF B) (s s' : Store Registry)
    (b : B) (t : list Event) :
  bindF m k s = Done b s' t ->
  exists a s1 t1 t2,
    m s = Done a s1 t1 /\ k a s1 = Done b s' t2 /\ t = (t1 ++ t2)%list.
Proof.
  unfold bindF. destruct (m s) as [| |a s1 t1]; try discriminate.
  destruct (k a s1) as [| |b' s2 t2] eqn:K; try discriminate.
  intros H. injection H as -> -> <-. exists a, s1, t1, t2. auto.
Qed.

Lemma print_modules_count (nodes : list Dependency) :
  forall (current_file : option string) (module_count : Z) (s s' : Store Registry)
         (n : Z) (t : list Event),
    print_modules current_file nodes module_count s = Done n s' t ->
    n = (module_count + Z.of_nat (length nodes))%Z.
Proof.
  induction nodes as [|dep rest IH]; intros current_file module_count s s' n t H;
    cbn [print_modules] in H.
  - rewrite liftF_run in H. injection H as <- _ _. cbn. lia.
  - destruct (source dep) as [src|]; [|discriminate].
    rewrite bindF_lift in H. apply emit_before_done in H. destruct H as (t1 & H & _).
    destruct (next_with_same_source src rest) as [|found]; [discriminate|].
    rewrite bindF_lift in H. apply emit_before_done in H. destruct H as (t2 & H & _).
    apply IH in H. rewrite H. cbn [length]. lia.
Qed.

Lemma print_node_methods_value (file : string) (current : Dependency)
    (method_count : Z) (s : Store Registry) :
  value (print_node_methods file current method_count s) =
  (method_count + if is_method_node_of file current then 1 else 0)%Z.
Proof.
  unfold print_node_methods, is_method_node_of.
  destruct (level current), (source current) as [src|]; cbn [value ret fst];
    try lia.
  destruct (strcmp src file =? 0)%Z; autorewrite with cmd; lia.
Qed.

Lemma print_file_methods_value (nodes : list Dependency) (file : string)
    (method_count : Z) (s : Store Registry) :
  value (print_file_methods nodes file method_count s) =
  (method_count + Z.of_nat (length (filter (is_method_node_of file) nodes)))%Z.
Proof.
  unfold print_file_methods. autorewrite with cmd.
  revert method_count s.
  induction nodes as [|d rest IH]; intros method_count s; cbn [fold_cmd filter].
  - autorewrite with cmd. cbn. lia.
  - autorewrite with cmd. rewrite IH, print_node_methods_value.
    destruct (is_method_node_of file d); cbn [length]; lia.
Qed.

Lemma list_sum_cons (a : nat) (l : list nat) : list_sum (a :: l) = a + list_sum l.
Proof. reflexivity. Qed.

Lemma print_files_value (nodes : list Dependency) (files : list string) :
  forall (method_count : Z) (s : Store Registry),
    value (fold_cmd (print_file_methods nodes) files method_count s) =
    (method_count
     + Z.of_nat (list_sum (map (fun file =>
                                  length (filter (is_method_node_of file) nodes))
                               files)))%Z.
Proof.
  induction files as [|file rest IH]; intros method_count s; cbn [fold_cmd map].
  - autorewrite with cmd. cbn. lia.
  - autorewrite with cmd. rewrite IH, print_file_methods_value, list_sum_cons. lia.
Qed.

Lemma existsb_strcmp (src : string) (files : list string) :
  existsb (fun file => (strcmp file src =? 0)%Z) files = true <-> In src files.
Proof.
  rewrite existsb_exists. split.
  - intros (f & I & E). apply strcmp_eq_0 in E. now subst.
  - intros I. exists src. split; [exact I|apply strcmp_refl].
Qed.

Lemma collect_files_spec (nodes : list Dependency) :
  forall processed_files : list string,
    NoDup processed_files ->
    NoDup (collect_files nodes processed_files)
    /\ (forall f, In f processed_files -> In f (collect_files nodes processed_files))
    /\ (forall d src, In d nodes -> level d = LAYER_METHOD -> source d = Some src ->
                      In src (collect_files nodes processed_files)).
Proof.
  induction nodes as [|current rest IH]; intros files N; cbn [collect_files].
  - split; [exact N|]. split; [auto|]. intros d src [].
  - assert (K : forall files', NoDup files' ->
                (forall f, In f files -> In f files') ->
                (forall src, level current = LAYER_METHOD ->
                             source current = Some src -> In src files') ->
                NoDup (collect_files rest files')
                /\ (forall f, In f files -> In f (collect_files rest files'))
                /\ (forall d src, In d (current :: rest) -> level d = LAYER_METHOD ->
                                  source d = Some src ->
                                  In src (collect_files rest files'))).
    { intros files' N' Inc Cur. destruct (IH files' N') as (A & B & C).
      split; [exact A|]. split; [intros f I; apply B, Inc, I|].
      intros d src [<-|I] L S; [apply B; now apply Cur|now apply (C d)]. }
    destruct (level current) eqn:L; try (apply K; [exact N|auto|discriminate]).
    destruct (source current) as [src|] eqn:S; [|apply K; [exact N|auto|discriminate]].
    destruct (existsb (fun file => (strcmp file src =? 0)%Z) files) eqn:E.
    + apply existsb_strcmp in E. apply K; [exact N|auto|].
      intros src' _ E'. injection E' as <-. exact E.
    + apply K.
      * apply NoDup_app; [exact N|repeat constructor; intros []|].
        intros f I [<-|[]]. apply existsb_strcmp in I. congruence.
      * intros f I. apply in_or_app. now left.
      * intros src' _ E'. injection E' as <-. apply in_or_app. right. now left.
Qed.

Lemma list_sum_indicator (src : string) (files : list string) :
  NoDup files ->
  list_sum (map (fun file => if (strcmp src file =? 0)%Z then 1 else 0) files) =
  if existsb (fun file => (strcmp file src =? 0)%Z) files then 1 else 0.
Proof.
  induction 1 as [|f files NI N IH]; [reflexivity|].
  cbn [map existsb]. rewrite list_sum_cons, IH.
  destruct (strcmp src f =? 0)%Z eqn:E.
  - apply strcmp_eq_0 in E. subst f. rewrite strcmp_refl. cbn [orb].
    destruct (existsb _ files) eqn:Ex; [|reflexivity].
    apply existsb_strcmp in Ex. contradiction.
  - apply strcmp_neq_0 in E.
    assert (E' : (strcmp f src =? 0)%Z = false) by (apply strcmp_neq_0; congruence).
    rewrite E'. reflexivity.
Qed.

Lemma list_sum_map_add {A : Type} (f g : A -> nat) (l : list A) :
  list_sum (map (fun a => f a + g a) l) = list_sum (map f l) + list_sum (map g l).
Proof.
  induction l as [|a l IH]; [reflexivity|]. cbn [map]. rewrite !list_sum_cons. lia.
Qed.

(** Each node the method section prints is printed under one file. *)
Lemma method_nodes_by_file (nodes : list Dependency) (files : list string) :
  NoDup files ->
  (forall d src, In d nodes -> level d = LAYER_METHOD -> source d = Some src ->
                 In src files) ->
  list_sum (map (fun file => length (filter (is_method_node_of file) nodes)) files) =
  length (filter is_method_node nodes).
Proof.
  intros N. induction nodes as [|d rest IH]; intros C.
  - cbn [filter length]. clear. induction files as [|f fs IHf]; [reflexivity|].
    cbn [map]. now rewrite list_sum_cons, IHf.
  - rewrite (map_ext _ (fun file => (if is_method_node_of file d then 1 else 0)
                                    + length (filter (is_method_node_of file) rest))).
    2:{ intros file. cbn [filter]. destruct (is_method_node_of file d); reflexivity. }
    rewrite list_sum_map_add, IH by (intros d' src I; apply C; now right).
    cbn [filter]. unfold is_method_node_of, is_method_node.
    destruct (level d) eqn:L, (source d) as [src|] eqn:S; cbn [length];
      try (clear; induction files as [|f fs IHf];
           [reflexivity|cbn [map]; rewrite list_sum_cons; exact IHf]).
    rewrite (list_sum_indicator src files N).
    destruct (existsb _ files) eqn:E; [reflexivity|].
    assert (I : In src files) by (apply (C d); [now left|exact L|exact S]).
    apply existsb_strcmp in I. congruence.
Qed.

Lemma report_modules_count (fuel : nat) (graph : ptr) (s s' : Store Registry) (n : Z)
    (t : list Event) :
  report_modules fuel graph s = Done n s' t ->
  exists nodes,
    graph_nodes fuel (heap s) graph = Some (Returns nodes)
    /\ n = Z.of_nat (length nodes).
Proof.
  unfold report_modules. intros H.
  rewrite bindF_lift in H. apply emit_before_done in H. destruct H as (t1 & H & _).
  apply bindF_inv in H. destruct H as (nodes & s1 & t2 & t3 & R & H & _).
  unfold read_graph in R. autorewrite with cmd in R.
  destruct (graph_nodes fuel (heap s) graph) as [[|nodes']|] eqn:G; try discriminate.
  injection R as -> _ _. exists nodes. split; [reflexivity|].
  apply bindF_inv in H. destruct H as (m & s2 & t4 & t5 & P & H & _).
  apply print_modules_count in P. rewrite liftF_run in H.
  injection H as <- _ _. autorewrite with cmd. rewrite P. lia.
Qed.

Lemma report_methods_count (fuel : nat) (graph : ptr) (s s' : Store Registry) (n : Z)
    (t : list Event) :
  report_methods fuel graph s = Done n s' t ->
  exists nodes,
    graph_nodes fuel (heap s) graph = Some (Returns nodes)
    /\ n = Z.of_nat (length (filter is_method_node nodes)).
Proof.
  unfold report_methods. intros H.
  rewrite bindF_lift in H. apply emit_before_done in H. destruct H as (t1 & H & _).
  apply bindF_inv in H. destruct H as (nodes & s1 & t2 & t3 & R & H & _).
  unfold read_graph in R. autorewrite with cmd in R.
  destruct (graph_nodes fuel (heap s) graph) as [[|nodes']|] eqn:G; try discriminate.
  injection R as -> _ _. exists nodes. split; [reflexivity|].
  rewrite liftF_run in H. injection H as <- _ _. autorewrite with cmd.
  rewrite print_files_value.
  destruct (collect_files_spec nodes [] (NoDup_nil _)) as (N & _ & C).
  rewrite (method_nodes_by_file nodes _ N C). lia.
Qed.

(** X16: the last line of the report.  When [printDependencies] returns
    on a graph that is not empty, its last message is "Total
    Dependencies" with this number: the number of nodes of the graph, of
    whatever layer, if the module section is switched on, plus the number
    of method-layer nodes that have a source, if the method section is.
    The structure section contributes nothing, whatever
    [get_structure_definitions] returns and however many structures the
    section itself counted. *)
Theorem printDependencies_total (fuel : nat) (s s' : Store Registry) (t : list Event) :
  printDependencies fuel CrawlerAt s = Done tt s' t ->
  dependency_graph (crawler s) <> NULL ->
  exists (nodes : list Dependency) (t0 : list Event),
    ((analyzeModules (analysis_config (crawler s)) <> 0%Z
      \/ analyzeMethods (analysis_config (crawler s)) <> 0%Z) ->
     graph_nodes fuel (heap s) (dependency_graph (crawler s)) = Some (Returns nodes))
    /\ t = (t0 ++ [Logr INFO (nl ++ "Total Dependencies: %zu")
                        [ArgD (report_total (analysis_config (crawler s)) nodes)]])%list.
Proof.
  intros H NE. unfold printDependencies in H.
  rewrite bindF_lift in H. cbn [get_dependency_graph value store_of events fst snd] in H.
  rewrite emit_before_nil in H.
  destruct (Nat.eqb_spec (dependency_graph (crawler s)) NULL) as [E|_];
    [contradiction|].
  rewrite bindF_lift in H. apply emit_before_done in H. destruct H as (t1 & H & ->).
  autorewrite with cmd in H.
  rewrite bindF_lift in H. cbn [get_config value store_of events fst snd] in H.
  rewrite emit_before_nil in H.
  apply bindF_inv in H. destruct H as (mc & s1 & t2 & t3 & M & H & ->).
  assert (Q1 : crawler s1 = crawler s /\ heap s1 = heap s).
  { destruct (analyzeModules (analysis_config (crawler s)) =? 0)%Z.
    - rewrite liftF_run in M. injection M as _ <- _. split; reflexivity.
    - destruct (quietF_report_modules fuel _ s s1 mc t2 M) as (C & Hp & _).
      split; assumption. }
  destruct Q1 as [C1 H1].
  rewrite bindF_lift in H. cbn [get_config value store_of events fst snd] in H.
  rewrite emit_before_nil in H.
  apply bindF_inv in H. destruct H as ([] & s2 & t4 & t5 & S & H & ->).
  assert (Q2 : crawler s2 = crawler s /\ heap s2 = heap s).
  { destruct (analyze_structures (analysis_config (crawler s1)) =? 0)%Z.
    - rewrite liftF_run in S. injection S as <- _. split; assumption.
    - destruct (quietF_lift _ quiet_print_structures s1 s2 tt t4 S) as (C & Hp & _).
      split; congruence. }
  destruct Q2 as [C2 H2].
  rewrite bindF_lift in H. cbn [get_config value store_of events fst snd] in H.
  rewrite emit_before_nil in H.
  apply bindF_inv in H. destruct H as (dc & s3 & t6 & t7 & D & H & ->).
  rewrite liftF_run in H. injection H as _ <-. rewrite C2 in D.
  assert (T : exists nodes,
             ((analyzeModules (analysis_config (crawler s)) <> 0%Z
               \/ analyzeMethods (analysis_config (crawler s)) <> 0%Z) ->
              graph_nodes fuel (heap s) (dependency_graph (crawler s)) =
              Some (Returns nodes))
             /\ (mc + 0 + dc)%Z = report_total (analysis_config (crawler s)) nodes).
  { unfold report_total.
    destruct (Z.eqb_spec (analyzeModules (analysis_config (crawler s))) 0) as [Zm|Zm];
      destruct (Z.eqb_spec (analyzeMethods (analysis_config (crawler s))) 0) as [Zd|Zd].
    - exists []. rewrite liftF_run in M, D. injection M as <- _ _.
      injection D as <- _ _. split; [intros [N|N]; contradiction|reflexivity].
    - apply report_methods_count in D. destruct D as (nodes & G & ->).
      rewrite H2 in G. exists nodes. rewrite liftF_run in M. injection M as <- _ _.
      split; [intros _; exact G|reflexivity].
    - apply report_modules_count in M. destruct M as (nodes & G & ->).
      exists nodes. rewrite liftF_run in D. injection D as <- _ _.
      split; [intros _; exact G|reflexivity].
    - apply report_modules_count in M. destruct M as (nodes & G & ->).
      apply report_methods_count in D. destruct D as (nodes' & G' & ->).
      rewrite H2, G in G'. injection G' as <-.
      exists nodes. split; [intros _; exact G|reflexivity]. }
  destruct T as (nodes & G & E).
  exists nodes. eexists. split; [exact G|].
  cbn [events logr snd]. rewrite E. rewrite !app_assoc. reflexivity.
Qed.

(** *** When the report returns *)

Lemma next_with_same_source_returns (current_file : string) (nodes : list Dependency) :
  Forall (fun d => source d <> None) nodes ->
  exists found, next_with_same_source current_file nodes = Returns found.
Proof.
  induction 1 as [|d rest D F IH]; cbn [next_with_same_source]; [eauto|].
  destruct (source d) as [src|]; [|now elim D].
  destruct (strcmp src current_file =? 0)%Z; eauto.
Qed.

Lemma print_modules_returns (nodes : list Dependency) :
  Forall (fun d => source d <> None) nodes ->
  forall (current_file : option string) (module_count : Z) (s : Store Registry),
    exists t, print_modules current_file nodes module_count s =
              Done (module_count + Z.of_nat (length nodes))%Z s t.
Proof.
  induction 1 as [|d rest D F IH]; intros current_file module_count s;
    cbn [print_modules].
  - exists []. rewrite liftF_run. cbn. f_equal. lia.
  - destruct (source d) as [src|]; [|now elim D].
    destruct (next_with_same_source_returns src rest F) as [found N]. rewrite N.
    destruct (IH (Some src) (module_count + 1)%Z s) as [t R].
    rewrite bindF_lift.
    assert (S0 : forall m : Cmd unit,
               (m = ret tt \/ m = logr INFO "  %s" [ArgS (Some src)]) ->
               store_of (m s) = s).
    { intros m [-> | ->]; reflexivity. }
    rewrite S0 by (destruct current_file as [file|];
                   [destruct (strcmp file src =? 0)%Z|]; auto).
    rewrite bindF_lift. rewrite store_logr, R. cbn [emit_before].
    eexists. f_equal. cbn [length]. lia.
Qed.

Lemma print_modules_undefined (nodes : list Dependency) :
  Exists (fun d => source d = None) nodes ->
  forall (current_file : option string) (module_count : Z) (s : Store Registry),
    print_modules current_file nodes module_count s = Undef.
Proof.
  induction 1 as [d rest D|d rest E IH]; intros current_file module_count s;
    cbn [print_modules].
  - now rewrite D.
  - destruct (source d) as [src|]; [|reflexivity].
    rewrite bindF_lift.
    destruct (next_with_same_source src rest) as [|found]; [reflexivity|].
    rewrite bindF_lift, IH. reflexivity.
Qed.

Lemma read_graph_run (fuel : nat) (p : ptr) (s : Store Registry)
    (nodes : list Dependency) :
  graph_nodes fuel (heap s) p = Some (Returns nodes) ->
  read_graph fuel p s = Done nodes s [].
Proof. intros G. unfold read_graph. now rewrite G. Qed.

Lemma report_modules_returns (fuel : nat) (graph : ptr) (s : Store Registry)
    (nodes : list Dependency) :
  graph_nodes fuel (heap s) graph = Some (Returns nodes) ->
  Forall (fun d => source d <> None) nodes ->
  exists n t, report_modules fuel graph s = Done n s t.
Proof.
  intros G F. unfold report_modules. rewrite bindF_lift. autorewrite with cmd.
  rewrite (bindF_done _ _ _ _ _ _ (read_graph_run fuel graph s nodes G)).
  destruct (print_modules_returns nodes F None 0%Z s) as [t R].
  rewrite (bindF_done _ _ _ _ _ _ R). rewrite liftF_run. autorewrite with cmd.
  cbn [emit_before]. eauto.
Qed.

Lemma report_modules_undefined (fuel : nat) (graph : ptr) (s : Store Registry)
    (nodes : list Dependency) :
  graph_nodes fuel (heap s) graph = Some (Returns nodes) ->
  Exists (fun d => source d = None) nodes ->
  report_modules fuel graph s = Undef.
Proof.
  intros G E. unfold report_modules. rewrite bindF_lift. autorewrite with cmd.
  rewrite (bindF_done _ _ _ _ _ _ (read_graph_run fuel graph s nodes G)).
  unfold bindF at 1. now rewrite (print_modules_undefined nodes E).
Qed.

Lemma report_methods_returns (fuel : nat) (graph : ptr) (s : Store Registry)
    (nodes : list Dependency) :
  graph_nodes fuel (heap s) graph = Some (Returns nodes) ->
  exists n s' t, report_methods fuel graph s = Done n s' t.
Proof.
  intros G. unfold report_methods. rewrite bindF_lift. autorewrite with cmd.
  rewrite (bindF_done _ _ _ _ _ _ (read_graph_run fuel graph s nodes G)).
  rewrite liftF_run. cbn [emit_before]. eauto.
Qed.

(** X23: when the report returns.  On a graph whose chain of nodes ends
    within the steps allowed, [printDependencies] returns if the module
    section is switched off or every node has a source; with the module
    section on and a node without a source it compares or copies a null
    string, which is undefined. *)
Theorem printDependencies_returns (fuel : nat) (s : Store Registry)
    (nodes : list Dependency) :
  graph_nodes fuel (heap s) (dependency_graph (crawler s)) = Some (Returns nodes) ->
  (analyzeModules (analysis_config (crawler s)) = 0%Z
   \/ Forall (fun d => source d <> None) nodes ->
   exists s' t, printDependencies fuel CrawlerAt s = Done tt s' t)
  /\ (analyzeModules (analysis_config (crawler s)) <> 0%Z ->
      Exists (fun d => source d = None) nodes ->
      printDependencies fuel CrawlerAt s = Undef).
Proof.
  intros G. unfold printDependencies.
  rewrite bindF_lift. cbn [get_dependency_graph value store_of events fst snd].
  rewrite emit_before_nil.
  destruct (Nat.eqb_spec (dependency_graph (crawler s)) NULL) as [E|NE].
  { split.
    - intros _. rewrite liftF_run. eauto.
    - intros _ Ex. rewrite E in G. destruct fuel as [|fuel]; [discriminate|].
      cbn in G. injection G as <-. inversion Ex. }
  rewrite bindF_lift. autorewrite with cmd.
  rewrite bindF_lift. cbn [get_config value store_of events fst snd].
  rewrite emit_before_nil. split.
  - intros Hm.
    assert (M : exists mc t1,
               (if (analyzeModules (analysis_config (crawler s)) =? 0)%Z
                then liftF (ret 0%Z)
                else report_modules fuel (dependency_graph (crawler s))) s =
               Done mc s t1).
    { destruct (Z.eqb_spec (analyzeModules (analysis_config (crawler s))) 0) as [Zm|Zm].
      - rewrite liftF_run. eauto.
      - destruct Hm as [Hm|Hm]; [contradiction|].
        exact (report_modules_returns fuel _ s nodes G Hm). }
    destruct M as (mc & t1 & M). rewrite (bindF_done _ _ _ _ _ _ M).
    rewrite bindF_lift. cbn [get_config value store_of events fst snd].
    rewrite emit_before_nil.
    assert (S1 : exists s2 t2,
               (if (analyze_structures (analysis_config (crawler s)) =? 0)%Z
                then liftF (ret tt)
                else liftF print_structures) s = Done tt s2 t2
               /\ crawler s2 = crawler s /\ heap s2 = heap s).
    { destruct (analyze_structures (analysis_config (crawler s)) =? 0)%Z;
        rewrite liftF_run.
      - do 2 eexists. split; [reflexivity|]. split; reflexivity.
      - destruct (value (print_structures s)).
        do 2 eexists. split; [reflexivity|].
        destruct (quiet_print_structures s) as (C & Hp & _). split; assumption. }
    destruct S1 as (s2 & t2 & S1 & C2 & H2). rewrite (bindF_done _ _ _ _ _ _ S1).
    rewrite bindF_lift. cbn [get_config value store_of events fst snd].
    rewrite emit_before_nil.
    assert (D : exists dc s3 t3,
               (if (analyzeMethods (analysis_config (crawler s2)) =? 0)%Z
                then liftF (ret 0%Z)
                else report_methods fuel (dependency_graph (crawler s))) s2 =
               Done dc s3 t3).
    { destruct (analyzeMethods (analysis_config (crawler s2)) =? 0)%Z.
      - rewrite liftF_run. eauto.
      - apply (report_methods_returns fuel _ s2 nodes). now rewrite H2. }
    destruct D as (dc & s3 & t3 & D). rewrite (bindF_done _ _ _ _ _ _ D).
    rewrite liftF_run. cbn [emit_before]. eauto.
  - intros Zm Ex. apply Z.eqb_neq in Zm. rewrite Zm.
    unfold bindF at 1.
    now rewrite (report_modules_undefined fuel _ s nodes G Ex).
Qed.

(** *** The count given for each file *)

Lemma print_file_methods_total (nodes : list Dependency) (file : string)
    (method_count : Z) (s : Store Registry) :
  In (Logr INFO (nl ++ "Total Method Dependencies for %s: %d" ++ nl)
           [ArgS (Some file);
            ArgD (method_count
                  + Z.of_nat (length (filter (is_method_node_of file) nodes)))])
     (events (print_file_methods nodes file method_count s)).
Proof.
  pose proof (print_file_methods_value nodes file method_count s) as V.
  unfold print_file_methods in *. autorewrite with cmd in *.
  apply in_or_app. right. apply in_or_app. right. apply in_or_app. right.
  apply in_or_app. left. rewrite V. left. reflexivity.
Qed.

Lemma print_files_running_total (nodes : list Dependency) (file : string)
    (after : list string) :
  forall (before : list string) (method_count : Z) (s : Store Registry),
    In (Logr INFO (nl ++ "Total Method Dependencies for %s: %d" ++ nl)
             [ArgS (Some file);
              ArgD (method_count
                    + Z.of_nat (list_sum
                                  (map (fun f => length (filter (is_method_node_of f)
                                                                nodes))
                                       (before ++ [file]))))])
       (events (fold_cmd (print_file_methods nodes) (before ++ file :: after)
                         method_count s)).
Proof.
  induction before as [|f before IH]; intros method_count s;
    cbn [app fold_cmd map]; rewrite events_bind, list_sum_cons; apply in_or_app.
  - left. cbn [list_sum fold_right]. rewrite Nat.add_0_r.
    apply print_file_methods_total.
  - right. rewrite print_file_methods_value.
    replace (method_count
             + Z.of_nat (length (filter (is_method_node_of f) nodes)
                         + list_sum (map (fun f0 => length (filter (is_method_node_of f0)
                                                                   nodes))
                                         (before ++ [file]))))%Z
      with (method_count + Z.of_nat (length (filter (is_method_node_of f) nodes))
            + Z.of_nat (list_sum (map (fun f0 => length (filter (is_method_node_of f0)
                                                                nodes))
                                      (before ++ [file]))))%Z by lia.
    apply IH.
Qed.

(** X21: the count the method section gives for a file.  The line "Total
    Method Dependencies for <file>" does not give the number of
    method-layer nodes of that file: the counter is never reset, so the
    line gives the number of such nodes of the file and of every file
    listed before it. *)
Theorem report_methods_running_totals (fuel : nat) (graph : ptr)
    (s s' : Store Registry) (n : Z) (t : list Event) :
  report_methods fuel graph s = Done n s' t ->
  exists nodes : list Dependency,
    graph_nodes fuel (heap s) graph = Some (Returns nodes)
    /\ forall (before after : list string) (file : string),
         collect_files nodes [] = (before ++ file :: after)%list ->
         In (Logr INFO (nl ++ "Total Method Dependencies for %s: %d" ++ nl)
                  [ArgS (Some file);
                   ArgD (Z.of_nat
                           (list_sum
                              (map (fun f => length (filter (is_method_node_of f) nodes))
                                   (before ++ [file]))))])
            t.
Proof.
  unfold report_methods. intros H.
  rewrite bindF_lift in H. apply emit_before_done in H. destruct H as (t1 & H & ->).
  apply bindF_inv in H. destruct H as (nodes & s1 & t2 & t3 & R & H & ->).
  unfold read_graph in R. autorewrite with cmd in R.
  destruct (graph_nodes fuel (heap s) graph) as [[|nodes']|] eqn:G; try discriminate.
  injection R as -> <- <-. exists nodes. split; [reflexivity|].
  intros before after file C.
  rewrite liftF_run in H. injection H as _ _ <-.
  apply in_or_app. right. cbn [app]. rewrite events_bind, C.
  apply in_or_app. left.
  exact (print_files_running_total nodes file after before 0 s).
Qed.

(** *** The graph as the report reads it *)

Lemma graph_nodes_old (fuel : nat) (h : list Dependency) (d : Dependency) :
  forall (p : ptr) (nodes : list Dependency),
    graph_nodes fuel h p = Some (Returns nodes) ->
    graph_nodes fuel (h ++ [d]) p = Some (Returns nodes).
Proof.
  induction fuel as [|fuel IH]; intros p nodes H; [discriminate|].
  cbn [graph_nodes] in *. destruct (p =? NULL)%nat eqn:E; [exact H|].
  destruct (heap_get h p) as [dep|] eqn:G; [|discriminate].
  assert (A : allocated h p).
  { unfold allocated. destruct p as [|i]; [discriminate|]. cbn [heap_get] in G.
    assert (L : i < length h) by (apply nth_error_Some; congruence). lia. }
  rewrite (heap_get_old h d p A), G.
  destruct (graph_nodes fuel h (next dep)) as [[|rest]|] eqn:R; try discriminate.
  now rewrite (IH _ _ R).
Qed.

(** X17: the graph as a list.  If the loop of the report meets the nodes
    [nodes] on the graph of a store, then after [graphMethods] it meets
    the new method-layer node first and [nodes] after it.  Such a node
    counts twice in the total of the report: once as a node in the module
    section, once in the method section. *)
Theorem graphMethods_in_report (fuel : nat) (file_path : string) (m : Method)
    (ms : list Method) (s : Store Registry) (nodes : list Dependency) :
  graph_nodes fuel (heap s) (dependency_graph (crawler s)) = Some (Returns nodes) ->
  let s' := store_of (graphMethods CrawlerAt (Some file_path) (m :: ms) s) in
  let cfg := analysis_config (crawler s) in
  let node := method_node file_path (m :: ms) (dependency_graph (crawler s)) in
  graph_nodes (S fuel) (heap s') (dependency_graph (crawler s')) =
    Some (Returns (node :: nodes))
  /\ report_total cfg (node :: nodes) =
     (report_total cfg nodes
      + (if (analyzeModules cfg =? 0)%Z then 0 else 1)
      + (if (analyzeMethods cfg =? 0)%Z then 0 else 1))%Z.
Proof.
  intros G s' cfg node. subst s' cfg node. rewrite graphMethods_run.
  cbn [store_of fst snd crawler heap dependency_graph]. split.
  - cbn [graph_nodes Nat.eqb NULL]. rewrite heap_get_last. cbn [next method_node].
    now rewrite (graph_nodes_old fuel _ _ _ _ G).
  - unfold report_total. cbn [filter is_method_node method_node level source length].
    destruct (analyzeModules _ =? 0)%Z, (analyzeMethods _ =? 0)%Z; lia.
Qed.

End Crawler.

Arguments OutOfFuel {Registry A}.
Arguments Undef {Registry A}.
Arguments Done {Registry A} a s t.

(** * The same walk on another file system *)

Lemma crawlDir_without_hidden {Registry Grammar : Type}
    (X : Externals Registry Grammar) (fs : FileSystem) (fuel : nat) :
  forall (c : CrawlerPtr) (path : option string) (s : Store Registry),
    crawlDir X (without_hidden fs) fuel c path s = crawlDir X fs fuel c path s.
Proof.
  induction fuel as [|fuel IH]; intros c path s; [reflexivity|].
  destruct c; [reflexivity|]. destruct path as [path|]; [|reflexivity].
  destruct (stat fs path) as [[| |]|] eqn:St.
  - rewrite (crawlDir_regular X (without_hidden fs) fuel path s St).
    rewrite (crawlDir_regular X fs fuel path s St). reflexivity.
  - destruct (opendir fs path) as [entries|] eqn:O.
    + assert (O' : opendir (without_hidden fs) path =
                   Some (filter visible_entry entries))
        by (cbn [without_hidden opendir]; now rewrite O).
      destruct (skipped_directory (last_component path)) eqn:K.
      * rewrite (crawlDir_skipped X (without_hidden fs) fuel path _ s St O' K).
        now rewrite (crawlDir_skipped X fs fuel path entries s St O K).
      * rewrite (crawlDir_directory X (without_hidden fs) fuel path _ s St O' K).
        rewrite (crawlDir_directory X fs fuel path entries s St O K).
        rewrite (foreachF_visible (crawlDir X fs fuel CrawlerAt) path entries s).
        f_equal. apply foreachF_ext. intros d_name s0.
        apply crawl_entry_ext. intros p s1. apply IH.
    + assert (O' : opendir (without_hidden fs) path = None)
        by (cbn [without_hidden opendir]; now rewrite O).
      rewrite (crawlDir_unopenable X (without_hidden fs) fuel path s St O').
      now rewrite (crawlDir_unopenable X fs fuel path s St O).
  - rewrite (crawlDir_other X (without_hidden fs) fuel path s St).
    now rewrite (crawlDir_other X fs fuel path s St).
  - rewrite (crawlDir_unstatable X (without_hidden fs) fuel path s St).
    now rewrite (crawlDir_unstatable X fs fuel path s St).
Qed.

(** X10: an entry whose name starts with a dot might as well not exist.
    On the file system in which every directory lists only its other
    entries, [crawlDir] and [crawlDeps] run exactly as they do on the one
    they are given: the same calls, the same messages, the same store in
    the end.  (The test is made on the entries of a directory only, not on
    the roots.) *)
Theorem crawl_passes_over_hidden {Registry Grammar : Type}
    (X : Externals Registry Grammar) (fs : FileSystem) (fuel : nat) (c : CrawlerPtr)
    (s : Store Registry) :
  (forall path : option string,
      crawlDir X (without_hidden fs) fuel c path s = crawlDir X fs fuel c path s)
  /\ crawlDeps X (without_hidden fs) fuel c s = crawlDeps X fs fuel c s.
Proof.
  split; [intros path; apply crawlDir_without_hidden|].
  unfold crawlDeps. destruct c; [reflexivity|].
  repeat (rewrite !bindF_lift;
          cbn [value store_of events fst snd get_root_directories logr]).
  destruct (root_directories (crawler s)) as [roots|]; [|reflexivity].
  assert (R : forall i s0, crawl_roots X (without_hidden fs) fuel CrawlerAt i roots s0 =
                           crawl_roots X fs fuel CrawlerAt i roots s0).
  { induction roots as [|[dir|] rest IH]; intros i s0; cbn [crawl_roots].
    - reflexivity.
    - rewrite !bindF_lift. f_equal. unfold bindF.
      rewrite crawlDir_without_hidden.
      destruct (crawlDir X fs fuel CrawlerAt (Some dir) _) as [| |u s1 t1];
        try reflexivity.
      now rewrite IH.
    - rewrite !bindF_lift. f_equal. apply IH. }
  now rewrite R.
Qed.

(** * Concrete runs *)

Lemma processFile_without_extension_witness :
  processFile Sample.externals Sample.fs CrawlerAt (Some "proj/Makefile")
              Sample.store1 =
  (tt, Sample.store1,
   [Logr DEBUG "[Crawler] Skipping file without extension: %s"
         [ArgS (Some "proj/Makefile")]]).
Proof.
  apply (processFile_without_extension Sample.externals Sample.fs
           "proj/Makefile" Sample.store1).
  reflexivity.
Defined.

Lemma graph_merge_head_witness :
  let after_methods :=
    store_of (graphMethods Sample.externals CrawlerAt (Some "proj/main.c")
                           [Sample.method_main] Sample.store1) in
  let after_first :=
    store_of (merge_extracted Sample.externals "created" "added"
                              Sample.module_base Sample.store0) in
  let after_second :=
    store_of (merge_extracted Sample.externals "created" "added"
                              Sample.module_base Sample.store1) in
  option_map next (heap_get (heap after_methods)
                            (dependency_graph (crawler after_methods))) = Some 1
  /\ dependency_graph (crawler after_first) = 1
  /\ dependency_graph (crawler after_second) =
     dependency_graph (crawler Sample.store1).
Proof.
  destruct (graph_merge_head Sample.externals) as [A B].
  split; [|split].
  - destruct (A "proj/main.c" Sample.method_main [] Sample.store1) as (_ & G & _).
    cbv zeta in G. rewrite G. reflexivity.
  - apply (proj1 (B "created" "added" Sample.module_base Sample.store0)).
    reflexivity.
  - apply (proj2 (B "created" "added" Sample.module_base Sample.store1)).
    discriminate.
Defined.

(** Whatever the two graph helpers do, the head of a graph that is not
    empty is the same node after a module record is merged. *)
Lemma merge_extracted_head_not_new :
  dependency_graph (crawler Sample.store1) <> NULL
  /\ (forall X : Externals unit unit,
         dependency_graph
           (crawler (store_of (merge_extracted X "created" "added"
                                               Sample.module_base Sample.store1))) = 1
         /\ ~ merge_prepends X Sample.module_base Sample.store1).
Proof.
  split; [discriminate|]. intros X. split; [reflexivity|].
  intros [N _]. apply N. unfold allocated. cbn. lia.
Qed.

Lemma resolve_type_sources_stamp_witness :
  s_dependencies
    (value (resolve_type_sources [Sample.module_base] Sample.structure_derived
                                 Sample.store0)) = Some "a.ext:Base".
Proof.
  apply (resolve_type_sources_stamp [] [] Sample.module_base
           Sample.structure_derived "Base" "Base" Sample.store0);
    first [reflexivity | constructor].
Defined.

(** Two module records with the target "Base": each has its target in the
    structure's text "Base", and the pass leaves "a.ext:a.ext:Base", not
    "a.ext:Base". *)
Lemma resolve_type_sources_wraps_twice :
  let type_deps := [Sample.module_base; Sample.module_base] in
  let result :=
    value (resolve_type_sources type_deps Sample.structure_derived Sample.store0) in
  In Sample.module_base type_deps
  /\ target Sample.module_base = Some "Base"
  /\ s_dependencies Sample.structure_derived = Some "Base"
  /\ strstr "Base" "Base" = true
  /\ s_dependencies result = Some "a.ext:a.ext:Base"
  /\ s_dependencies result <> Some "a.ext:Base".
Proof.
  cbv zeta. repeat split; try reflexivity.
  - left. reflexivity.
  - discriminate.
Qed.

Lemma unreadable_path_skipped_witness :
  crawlDir Sample.externals Sample.fs 1 CrawlerAt (Some "proj/missing") Sample.store1 =
    Done tt Sample.store1
         [SysStat "proj/missing";
          Logr ERROR "[Crawler] Failed to stat path: %s" [ArgS (Some "proj/missing")]]
  /\ crawlDir Sample.externals Sample.fs 1 CrawlerAt (Some "proj/private")
              Sample.store1 =
     Done tt Sample.store1
          [SysStat "proj/private";
           Logr INFO "[Crawler] Opening directory: %s" [ArgS (Some "proj/private")];
           SysOpendir "proj/private";
           Logr ERROR "[Crawler] Failed to open directory: %s"
                [ArgS (Some "proj/private")]]
  /\ (exists t,
        crawlDir Sample.externals Sample.fs 1 CrawlerAt (Some "proj/locked.c")
                 Sample.store1 = Done tt Sample.store1 t
        /\ In (Logr ERROR "[Crawler] Failed to open file: %s"
                    [ArgS (Some "proj/locked.c")]) t)
  /\ (exists t,
        crawl_roots Sample.externals Sample.fs 3 CrawlerAt 0
                    [Some "proj/missing"; Some "proj"] Sample.store0 =
        emit_before t
          (crawl_roots Sample.externals Sample.fs 3 CrawlerAt 1 [Some "proj"]
                       Sample.store0)).
Proof.
  split; [|split; [|split]].
  - apply (unreadable_path_skipped Sample.externals Sample.fs 0 "proj/missing"
             Sample.store1).
    reflexivity.
  - apply (unreadable_path_skipped Sample.externals Sample.fs 0 "proj/private"
             Sample.store1); reflexivity.
  - destruct (unreadable_path_skipped Sample.externals Sample.fs 0 "proj/locked.c"
                Sample.store1) as (_ & _ & H & _).
    destruct (H eq_refl eq_refl) as (t & R & _ & E).
    exists t. split; [exact R|]. apply (E ".c"); reflexivity.
  - destruct (unreadable_path_skipped Sample.externals Sample.fs 2 "proj/missing"
                Sample.store0) as (_ & _ & _ & H & _).
    destruct (H (or_introl eq_refl) 0%Z [Some "proj"]) as (t & _ & R).
    exists t. exact R.
Defined.



(** The sample graph helpers keep the method-layer nodes well formed. *)
Lemma update_nth_ok (f : Dependency -> Dependency) (h : list Dependency) :
  (forall d, method_node_ok d -> method_node_ok (f d)) ->
  forall i, Forall method_node_ok h -> Forall method_node_ok (update_nth i f h).
Proof.
  intros F i H. revert i. induction H as [|d h D H IH]; intros [|i]; simpl;
    constructor; auto.
Qed.

Lemma sample_create_keeps (e : ExtractedDependency) (h : list Dependency) :
  layer e <> LAYER_METHOD -> Forall method_node_ok h ->
  Forall method_node_ok (snd (create_dependency_from_extracted Sample.externals e h)).
Proof.
  intros L H. simpl. apply Forall_app. split; [exact H|].
  constructor; [|constructor]. intros M. simpl in M. contradiction.
Qed.

Lemma sample_graphDependency_keeps (graph : ptr) (e : ExtractedDependency)
    (h : list Dependency) :
  layer e <> LAYER_METHOD -> Forall method_node_ok h ->
  Forall method_node_ok (graphDependency Sample.externals graph e h).
Proof.
  intros L H. simpl. destruct (heap_get h graph) as [head|]; [|exact H].
  destruct graph as [|i]; simpl.
  - apply Forall_app. split; [exact H|].
    constructor; [|constructor]. intros M. simpl in M. contradiction.
  - apply update_nth_ok; [intros d D; exact D|].
    apply Forall_app. split; [exact H|].
    constructor; [|constructor]. intros M. simpl in M. contradiction.
Qed.

Lemma method_nodes_well_formed_witness :
  exists (s' : Store unit) (t : list Event),
    crawlDeps Sample.externals Sample.fs 3 CrawlerAt Sample.store0 = Done tt s' t
    /\ graph_ok s'
    /\ graphMethods Sample.externals CrawlerAt (Some "proj/main.c") [] s' = (tt, s', []).
Proof.
  destruct (method_nodes_well_formed Sample.externals Sample.fs
              (fun ms => eq_refl) sample_create_keeps sample_graphDependency_keeps)
    as (N & _ & _ & _ & K).
  destruct (crawlDeps Sample.externals Sample.fs 3 CrawlerAt Sample.store0)
    as [| |[] s' t] eqn:R; try (vm_compute in R; discriminate).
  exists s', t. split; [reflexivity|]. split.
  - apply (K 3 CrawlerAt Sample.store0 s' t); [constructor|exact R].
  - apply N. right. right. reflexivity.
Defined.

Lemma processFile_below_dotted_directory_witness :
  In (SysFopen "./Makefile")
     (events (processFile Sample.externals Sample.fs CrawlerAt (Some "./Makefile")
                          Sample.store0)).
Proof.
  apply (processFile_below_dotted_directory Sample.externals Sample.fs "." "Makefile"
           Sample.store0).
  - discriminate.
  - reflexivity.
Defined.

(** The root of the sample project is none of the six names: it is
    entered. *)
Lemma crawlDir_skipped_directories_witness :
  entered Sample.externals Sample.fs 1 "proj" ["."; ".."; "main.c"; "data.json"]
          Sample.store0.
Proof.
  destruct (crawlDir_skipped_directories Sample.externals Sample.fs)
    as (Names & _ & Enters & _).
  apply Enters; [|reflexivity|reflexivity].
  intros E. apply (proj2 (Names "proj")) in E. discriminate E.
Defined.

(** The sample project has one level of entries below its root. *)
Lemma sample_descends : descends Sample.fs Sample.levels_below.
Proof.
  intros dir entries d_name St O K I Hd. cbn [Sample.fs opendir] in O.
  destruct (String.eqb_spec dir "proj") as [->|N]; [|discriminate].
  injection O as <-. cbn [In] in I.
  destruct I as [<-|[<-|[<-|[<-|[]]]]]; try discriminate Hd; vm_compute; lia.
Qed.

Lemma crawl_terminates_witness :
  exists (s' : Store unit) (t : list Event),
    crawlDir Sample.externals Sample.fs 2 CrawlerAt (Some "proj") Sample.store0 =
    Done tt s' t.
Proof.
  exact (proj1 (crawl_terminates Sample.externals Sample.fs Sample.levels_below
                  sample_descends) "proj" Sample.store0).
Defined.

Lemma processFile_unknown_extension_witness :
  store_of (processFile Sample.externals Sample.fs_script CrawlerAt
                        (Some "tools/run.sh") Sample.store0) =
  store_of (processLayer Sample.externals CrawlerAt (Some "tools/run.sh")
                         (Some "echo done") (Some tt) Sample.store0).
Proof.
  apply (processFile_unknown_extension Sample.externals Sample.fs_script
           "tools/run.sh" "sh" "echo done" tt Sample.store0);
    [reflexivity|reflexivity| |reflexivity|reflexivity].
  simpl. intuition discriminate.
Defined.

Lemma crawl_reads_switches_only_witness :
  let s2 : Store unit :=
    {| crawler := {| root_directories := Some [Some "proj"];
                     analysis_config := Sample.other_config;
                     dependency_graph := NULL |};
       heap := []; registry := tt |} in
  agree Sample.store0 s2
  /\ agree_runs (crawlDeps Sample.externals Sample.fs 3 CrawlerAt Sample.store0)
                (crawlDeps Sample.externals Sample.fs 3 CrawlerAt s2).
Proof.
  intros s2.
  assert (G : agree Sample.store0 s2) by (repeat split).
  split; [exact G|].
  exact (proj1 (crawl_reads_switches_only Sample.externals Sample.fs 3 CrawlerAt
                  Sample.store0 s2 G)).
Defined.

Lemma printDependencies_total_witness :
  exists (s' : Store unit) (t0 : list Event),
    printDependencies Sample.reports 3 CrawlerAt Sample.store2 =
    Done tt s' (t0 ++ [Logr INFO (nl ++ "Total Dependencies: %zu") [ArgD 3]]).
Proof.
  destruct (printDependencies Sample.reports 3 CrawlerAt Sample.store2)
    as [| |[] s' t] eqn:R; try (lazy in R; discriminate).
  destruct (printDependencies_total Sample.reports 3 Sample.store2 s' t R)
    as (nodes & t0 & G & E); [discriminate|].
  assert (N : nodes = heap Sample.store2).
  { assert (M : analyzeModules (analysis_config (crawler Sample.store2)) <> 0%Z)
      by discriminate.
    specialize (G (or_introl M)). lazy in G. injection G as <-. reflexivity. }
  exists s', t0. rewrite E, N. reflexivity.
Defined.

Lemma graphMethods_in_report_witness :
  graph_nodes 3
    (heap (store_of (graphMethods Sample.externals CrawlerAt (Some "proj/main.c")
                                  [Sample.method_main] Sample.store1)))
    (dependency_graph
       (crawler (store_of (graphMethods Sample.externals CrawlerAt (Some "proj/main.c")
                                        [Sample.method_main] Sample.store1)))) =
  Some (Returns [method_node Sample.externals "proj/main.c" [Sample.method_main] 1;
                 Sample.dependency_of Sample.module_base]).
Proof.
  exact (proj1 (graphMethods_in_report Sample.externals 2 "proj/main.c"
                  Sample.method_main [] Sample.store1
                  [Sample.dependency_of Sample.module_base] eq_refl)).
Defined.

Lemma processFile_stops_at_NUL_witness :
  store_of (processFile Sample.externals Sample.fs_nul CrawlerAt (Some "proj/blob.c")
                        Sample.store0) =
  store_of (processLayer Sample.externals CrawlerAt (Some "proj/blob.c")
                         (Some "int a;") (Some tt) Sample.store0).
Proof.
  exact (processFile_stops_at_NUL Sample.externals Sample.fs_nul "proj/blob.c" ".c"
           "int a;" "int b;" tt Sample.store0 eq_refl eq_refl eq_refl eq_refl).
Defined.

Lemma crawl_entry_long_path_witness :
  exists full_path rest : string,
    String.length full_path = 1023
    /\ Sample.long_directory ++ "/" ++ "main.c" = full_path ++ rest
    /\ full_path <> Sample.long_directory ++ "/" ++ "main.c"
    /\ crawl_entry (crawlDir Sample.externals Sample.fs 1 CrawlerAt)
                   Sample.long_directory "main.c" Sample.store0 =
       emit_before [Logr DEBUG "[Crawler] Found entry: %s" [ArgS (Some full_path)]]
                   (crawlDir Sample.externals Sample.fs 1 CrawlerAt (Some full_path)
                             Sample.store0).
Proof.
  apply (crawl_entry_long_path (crawlDir Sample.externals Sample.fs 1 CrawlerAt)
           Sample.long_directory "main.c" Sample.store0).
  - reflexivity.
  - vm_compute. lia.
Defined.

Lemma report_methods_running_totals_witness :
  exists (s' : Store unit) (n : Z) (t : list Event),
    report_methods Sample.reports 3 1 Sample.store3 = Done n s' t
    /\ In (Logr INFO (nl ++ "Total Method Dependencies for %s: %d" ++ nl)
                [ArgS (Some "proj/b.c"); ArgD 2])
           t.
Proof.
  destruct (report_methods Sample.reports 3 1 Sample.store3) as [| |n s' t] eqn:R;
    try (lazy in R; discriminate).
  exists s', n, t. split; [reflexivity|].
  destruct (report_methods_running_totals Sample.reports 3 1 Sample.store3 s' n t R)
    as (nodes & G & T).
  lazy in G. injection G as <-.
  exact (T ["proj/a.c"] [] "proj/b.c" eq_refl).
Defined.

Lemma processLayer_ends_on_methods_witness :
  let s' := store_of (processLayer Sample.externals CrawlerAt (Some "proj/main.c")
                                   (Some "int main() { return 0; }") (Some tt)
                                   Sample.store0) in
  exists d : Dependency,
    heap_get (heap s') (dependency_graph (crawler s')) = Some d
    /\ level d = LAYER_METHOD
    /\ source d = Some "proj/main.c"
    /\ d_methods d <> [].
Proof.
  apply (processLayer_ends_on_methods Sample.externals "proj/main.c"
           "int main() { return 0; }" tt Sample.store0).
  - discriminate.
  - intros r. discriminate.
Defined.

Lemma printDependencies_returns_witness :
  exists (s' : Store unit) (t : list Event),
    printDependencies Sample.reports 3 CrawlerAt Sample.store2 = Done tt s' t.
Proof.
  apply (printDependencies_returns Sample.reports 3 Sample.store2
           (heap Sample.store2) eq_refl).
  right. repeat constructor; discriminate.
Defined.
